(** * GraphSensor: the signal-segment representation and the ResNet backbone

    A shallow embedding of
      - [models/modules/signal_segment_representation.py]
        (SignalSegmentDefinition, SignalSegmentRepresentation, GNA,
         SignalSegment2Vec, ResLayer, ResBasicBlock) and
      - [models/WISDM_baseline/ResNet32.py] (BasicBlock, ResNet).

    Tensors carry their size (a list of integers, as [x.size()]) and their
    entries as a function from indices to real numbers.  Every torch
    operation the two files call is written out: its check on the sizes
    (raising the Python exception torch raises) and the entry it computes.
    Entries are real numbers: the development follows the arithmetic of the
    computational graph, not the rounding of float32.  The one place where
    the program computes with Python floats on its own, the stride in
    [SignalSegmentRepresentation.__init__], is modelled with IEEE binary64
    floats. *)

From Stdlib Require Import Floats.
From Stdlib Require Import String DecimalString.
From Stdlib Require Import ZArith List Bool Reals Lra Lia.
Import ListNotations.
Open Scope Z_scope.

Ltac Zify.zify_post_hook ::= Z.div_mod_to_equations.

(** ** Exceptions and results *)

Inductive exn : Set :=
| IndexError
| RuntimeError
| ValueError
| ZeroDivisionError
| OverflowError.

Inductive result (A : Type) : Type :=
| Ok (a : A)
| Raise (e : exn).
Arguments Ok {A} a.
Arguments Raise {A} e.

Definition bind {A B : Type} (r : result A) (k : A -> result B) : result B :=
  match r with
  | Ok a => k a
  | Raise e => Raise e
  end.

Notation "x <- e ;; k" := (bind e (fun x => k))
  (at level 61, e at next level, right associativity).

Notation "' pat <- e ;; k" := (bind e (fun x => match x with pat => k end))
  (at level 61, pat pattern, e at next level, right associativity).

Definition guard (b : bool) (e : exn) : result unit :=
  if b then Ok tt else Raise e.

Notation "'check' b 'else' e ;; k" := (bind (guard b e) (fun _ => k))
  (at level 61, b at level 80, e at next level, right associativity).

(** [for x in xs: ys.append(body(x))] *)
Fixpoint mapM {A B : Type} (body : A -> result B) (xs : list A) : result (list B) :=
  match xs with
  | [] => Ok []
  | x :: xs' =>
      y <- body x ;;
      ys <- mapM body xs' ;;
      Ok (y :: ys)
  end.

(** [range(n)] and [range(a, b)] *)
Definition range (n : Z) : list Z := map Z.of_nat (seq 0 (Z.to_nat n)).
Definition range_from (a b : Z) : list Z := map (fun i => a + i) (range (b - a)).

(** ** Python numbers *)

Module Py.

(** [a // b] on ints: floor division, ZeroDivisionError on [b = 0]. *)
Definition floordiv (a b : Z) : result Z :=
  if b =? 0 then Raise ZeroDivisionError else Ok (a / b).

(** [float(n)] for an int [n]: the nearest binary64 value, OverflowError
    when [n] is out of the range of a float.  This is the conversion that
    [n * r] and [n - r] apply to an int operand [n] when [r] is a float. *)
Definition float_of_int (n : Z) : result float :=
  match binary_normalize prec emax n 0 false with
  | S754_infinity _ => Raise OverflowError
  | f => Ok (SF2Prim f)
  end.

(** [int(r)] for a float [r]: truncation toward zero; OverflowError on an
    infinity and ValueError on a NaN. *)
Definition int_of_float (r : float) : result Z :=
  match Prim2SF r with
  | S754_zero _ => Ok 0
  | S754_finite s m e =>
      let a := match e with
               | Z0 => Zpos m
               | Zpos p => Z.shiftl (Zpos m) (Zpos p)
               | Zneg p => Z.shiftr (Zpos m) (Zpos p)
               end in
      Ok (if s then - a else a)
  | S754_infinity _ => Raise OverflowError
  | S754_nan => Raise ValueError
  end.

(** [n * r] and [n - r] for an int [n] and a float [r]. *)
Definition int_mul_float (n : Z) (r : float) : result float :=
  f <- float_of_int n ;; Ok (PrimFloat.mul f r).
Definition int_sub_float (n : Z) (r : float) : result float :=
  f <- float_of_int n ;; Ok (PrimFloat.sub f r).

(** [round(r)] for a float [r] (one argument): the nearest int, ties to
    the even one. *)
Definition round (r : float) : result Z :=
  match Prim2SF r with
  | S754_zero _ => Ok 0
  | S754_finite s m e =>
      let a := match e with
               | Z0 => Zpos m
               | Zpos p => Z.shiftl (Zpos m) (Zpos p)
               | Zneg p =>
                   let d := Z.shiftl 1 (Zpos p) in
                   let q := Zpos m / d in
                   let r2 := 2 * (Zpos m mod d) in
                   if r2 <? d then q
                   else if d <? r2 then q + 1
                   else if Z.even q then q else q + 1
               end in
      Ok (if s then - a else a)
  | S754_infinity _ => Raise OverflowError
  | S754_nan => Raise ValueError
  end.

(** [str(n)] for an int. *)
Definition str (n : Z) : string := NilZero.string_of_int (Z.to_int n).

End Py.

(** ** Tensors *)

Definition shape := list Z.
Definition index := list Z.

(** A tensor: [size] is [x.size()], [item x i] the entry at index [i]. *)
Record tensor : Type := Tensor { size : shape; item : index -> R }.

Definition numel (s : shape) : Z := fold_right Z.mul 1 s.
Definition rank (s : shape) : Z := Z.of_nat (List.length s).

(** The [k]-th component of an index or of a size. *)
Definition dim (i : list Z) (k : nat) : Z := nth k i 0.

(** [i] is an index into a tensor of size [s]. *)
Fixpoint in_bounds (s : shape) (i : index) : Prop :=
  match s, i with
  | [], [] => True
  | d :: s', k :: i' => 0 <= k < d /\ in_bounds s' i'
  | _, _ => False
  end.

(** Agreement of two tensors: same size, same entries. *)
Definition tensor_eq (x y : tensor) : Prop :=
  size x = size y /\ forall i, in_bounds (size x) i -> item x i = item y i.

(** Sums over [range(n)] and over all the indices of a size. *)
Definition Rsum (n : Z) (f : Z -> R) : R :=
  fold_right (fun k acc => (f k + acc)%R) 0%R (range n).

Fixpoint Rsum_shape (s : shape) (f : index -> R) : R :=
  match s with
  | [] => f []
  | d :: s' => Rsum d (fun k => Rsum_shape s' (fun i => f (k :: i)))
  end.

(** The largest element of a list (of a pooling window). *)
Definition Rmax_list (l : list R) : R :=
  match l with
  | [] => 0%R
  | a :: l' => fold_left Rmax l' a
  end.

(** Row-major position of an index, and back. *)
Fixpoint ravel (s : shape) (i : index) : Z :=
  match s, i with
  | _ :: s', k :: i' => k * numel s' + ravel s' i'
  | _, _ => 0
  end.

Fixpoint unravel (s : shape) (n : Z) : index :=
  match s with
  | [] => []
  | _ :: s' => n / numel s' :: unravel s' (n mod numel s')
  end.

(** A dimension argument that may be negative, for a tensor of [n] axes. *)
Definition wrap_dim (d n : Z) : result Z :=
  check (- n <=? d) && (d <? n) else IndexError ;;
  Ok (if d <? 0 then d + n else d).

Definition insert_at (d : Z) (v : Z) (l : list Z) : list Z :=
  firstn (Z.to_nat d) l ++ v :: skipn (Z.to_nat d) l.
Definition remove_at (d : Z) (l : list Z) : list Z :=
  firstn (Z.to_nat d) l ++ skipn (S (Z.to_nat d)) l.
Definition replace_at (d : Z) (v : Z) (l : list Z) : list Z :=
  firstn (Z.to_nat d) l ++ v :: skipn (S (Z.to_nat d)) l.

Fixpoint shape_eqb (s t : shape) : bool :=
  match s, t with
  | [], [] => true
  | a :: s', b :: t' => (a =? b) && shape_eqb s' t'
  | _, _ => false
  end.

(** Position of the first [j] in [l]. *)
Fixpoint position (j : Z) (l : list Z) : nat :=
  match l with
  | [] => O
  | a :: l' => if a =? j then O else S (position j l')
  end.

(** ** Tensor operations of torch *)

(** A function applied to every entry. *)
Definition tmap (f : R -> R) (x : tensor) : tensor :=
  Tensor (size x) (fun i => f (item x i)).

(** [x.unsqueeze(d)] *)
Definition unsqueeze (d : Z) (x : tensor) : result tensor :=
  k <- wrap_dim d (rank (size x) + 1) ;;
  Ok (Tensor (insert_at k 1 (size x)) (fun i => item x (remove_at k i))).

(** The index into [x] of an entry of [x.squeeze()]: a zero is put back at
    every axis of size one. *)
Fixpoint restore_ones (s : shape) (i : index) : index :=
  match s with
  | [] => []
  | d :: s' =>
      if d =? 1 then 0 :: restore_ones s' i
      else hd 0 i :: restore_ones s' (tl i)
  end.

(** [x.squeeze()], with no argument: every axis of size one is removed. *)
Definition squeeze (x : tensor) : result tensor :=
  Ok (Tensor (filter (fun d => negb (d =? 1)) (size x))
             (fun i => item x (restore_ones (size x) i))).

(** [x.permute(dims)] *)
Definition permute (dims : list Z) (x : tensor) : result tensor :=
  let n := rank (size x) in
  check rank dims =? n else RuntimeError ;;
  ds <- mapM (fun d => wrap_dim d n) dims ;;
  check forallb (fun j => existsb (Z.eqb j) ds) (range n) else RuntimeError ;;
  Ok (Tensor (map (fun d => dim (size x) (Z.to_nat d)) ds)
             (fun i => item x (map (fun j => dim i (position j ds)) (range n)))).

(** [x[:, idx, :]]: an int at the second of three indexed axes. *)
Definition getitem_colon_int_colon (idx : Z) (x : tensor) : result tensor :=
  match size x with
  | b :: k :: _ :: _ =>
      j <- wrap_dim idx k ;;
      Ok (Tensor (remove_at 1 (size x)) (fun i => item x (insert_at 1 j i)))
  | _ => Raise IndexError
  end.

(** The size [x.view(req)] gives a tensor of [n] elements: one entry of
    [req] may be -1 and is inferred. *)
Definition infer_size (req : list Z) (n : Z) : result shape :=
  check forallb (fun d => -1 <=? d) req else RuntimeError ;;
  let known := numel (filter (fun d => negb (d =? -1)) req) in
  match filter (fun d => d =? -1) req with
  | [] =>
      check known =? n else RuntimeError ;;
      Ok req
  | [_] =>
      check negb (known =? 0) && (n mod known =? 0) else RuntimeError ;;
      Ok (map (fun d => if d =? -1 then n / known else d) req)
  | _ => Raise RuntimeError
  end.

(** [x.view(req)]; the program only views tensors it has just computed,
    which are contiguous. *)
Definition view (req : list Z) (x : tensor) : result tensor :=
  s <- infer_size req (numel (size x)) ;;
  Ok (Tensor s (fun i => item x (unravel (size x) (ravel s i)))).

(** [torch.flatten(x, 1)] *)
Definition flatten1 (x : tensor) : result tensor :=
  match size x with
  | b :: (_ :: _) as rest =>
      Ok (Tensor [b; numel rest]
                 (fun i => item x (dim i 0 :: unravel rest (dim i 1))))
  | _ => Raise IndexError
  end.

(** The entry of [torch.cat(xs, dim=k)] at [i]. *)
Fixpoint cat_item (xs : list tensor) (k : Z) (i : index) : R :=
  match xs with
  | [] => 0%R
  | x :: xs' =>
      let n := dim (size x) (Z.to_nat k) in
      let j := dim i (Z.to_nat k) in
      if j <? n then item x i else cat_item xs' k (replace_at k (j - n) i)
  end.

(** [torch.cat(xs, dim=d)] *)
Definition cat (xs : list tensor) (d : Z) : result tensor :=
  match xs with
  | [] => Raise RuntimeError
  | x0 :: _ =>
      k <- wrap_dim d (rank (size x0)) ;;
      check forallb (fun x => shape_eqb (replace_at k 0 (size x))
                                       (replace_at k 0 (size x0))) xs
        else RuntimeError ;;
      let total := fold_right (fun x acc => dim (size x) (Z.to_nat k) + acc) 0 xs in
      Ok (Tensor (replace_at k total (size x0)) (cat_item xs k))
  end.

(** Broadcasting: sizes are aligned at their last axis; two axes agree when
    they are equal or one of them is one. *)
Fixpoint broadcast_rev (s t : shape) : result shape :=
  match s, t with
  | [], _ => Ok t
  | _, [] => Ok s
  | a :: s', b :: t' =>
      check (a =? b) || (a =? 1) || (b =? 1) else RuntimeError ;;
      r <- broadcast_rev s' t' ;;
      Ok ((if a =? 1 then b else a) :: r)
  end.

Definition broadcast_shapes (s t : shape) : result shape :=
  r <- broadcast_rev (rev s) (rev t) ;; Ok (rev r).

(** The index into an operand of size [s] of the entry [i] of a broadcast
    result. *)
Fixpoint bcast_aligned (s : shape) (i : index) : index :=
  match s, i with
  | d :: s', k :: i' => (if d =? 1 then 0 else k) :: bcast_aligned s' i'
  | _, _ => []
  end.

Definition bcast_index (s : shape) (i : index) : index :=
  bcast_aligned s (skipn (List.length i - List.length s) i).

(** [x + y] and [x * y] *)
Definition binary (op : R -> R -> R) (x y : tensor) : result tensor :=
  s <- broadcast_shapes (size x) (size y) ;;
  Ok (Tensor s (fun i => op (item x (bcast_index (size x) i))
                            (item y (bcast_index (size y) i)))).

Definition add := binary Rplus.
Definition mul := binary Rmult.

(** [x += y]: in place, so the broadcast size has to be the size of [x]. *)
Definition iadd (x y : tensor) : result tensor :=
  s <- broadcast_shapes (size x) (size y) ;;
  check shape_eqb s (size x) else RuntimeError ;;
  Ok (Tensor s (fun i => (item x (bcast_index (size x) i)
                          + item y (bcast_index (size y) i))%R)).

(** [y.expand_as(x)] *)
Definition expand_as (y x : tensor) : result tensor :=
  s <- broadcast_shapes (size y) (size x) ;;
  check shape_eqb s (size x) else RuntimeError ;;
  Ok (Tensor s (fun i => item y (bcast_index (size y) i))).

(** ** Activation functions *)

Definition Sigmoid (x : R) : R := (1 / (1 + exp (- x)))%R.

Definition ReLU (x : R) : R := Rmax 0 x.

(** The error function, [erf x = 2/sqrt(pi) * integral of exp(-t^2) over
    [0, x]], for GELU. *)
Definition gauss (t : R) : R := exp (- (t * t)).

Lemma gauss_continuity : continuity gauss.
Proof. unfold gauss. reg. Qed.

Definition gauss_integrable (a b : R) : Riemann_integrable gauss a b.
Proof.
  destruct (Rle_dec a b) as [Hab | Hab].
  - apply continuity_implies_RiemannInt; [exact Hab | intros; apply gauss_continuity].
  - apply RiemannInt_P1, continuity_implies_RiemannInt;
      [lra | intros; apply gauss_continuity].
Defined.

Definition erf (x : R) : R := (2 / sqrt PI * RiemannInt (gauss_integrable 0 x))%R.

(** [nn.GELU()]: [x * Phi(x)], [Phi] the standard normal distribution
    function. *)
Definition GELU (x : R) : R := (x * (1 / 2 * (1 + erf (x / sqrt 2))))%R.

(** [F.log_softmax(x, dim=-1)] *)
Definition log_softmax (x : tensor) : result tensor :=
  match rev (size x) with
  | n :: _ =>
      Ok (Tensor (size x)
            (fun i => ln (exp (item x i)
                          / Rsum n (fun j => exp (item x (removelast i ++ [j]))))))
  | [] => Raise IndexError
  end.

(** ** Layers of torch.nn

    A parameter is held as the function giving its entries; its size is
    fixed by the layer's hyper-parameters.  A constructor takes the tensors
    its parameters are initialised with from [initial], by the parameter's
    name in [state_dict()]. *)

Definition initializer := string -> index -> R.

Definition join (prefix name : string) : string := (prefix ++ "." ++ name)%string.

Module Conv1d.

Record t : Type := {
  in_channels : Z;
  out_channels : Z;
  kernel_size : Z;
  stride : Z;
  padding : Z;
  weight : index -> R;             (* out_channels x in_channels x kernel_size *)
  bias : option (index -> R)       (* out_channels *)
}.

(** [nn.Conv1d(in_channels, out_channels, kernel_size, stride=1, padding=0,
    bias=True)]: the arguments in the order of torch's signature. *)
Definition init (initial : initializer) (name : string)
    (in_channels out_channels kernel_size stride padding : Z) (bias : bool)
  : result t :=
  check (0 <=? in_channels) && (0 <=? out_channels) && (0 <=? kernel_size)
    else RuntimeError ;;
  Ok {| in_channels := in_channels;
        out_channels := out_channels;
        kernel_size := kernel_size;
        stride := stride;
        padding := padding;
        weight := initial (join name "weight");
        bias := if bias then Some (initial (join name "bias")) else None |}.

Definition out_length (self : t) (l : Z) : Z :=
  (l + 2 * padding self - kernel_size self) / stride self + 1.

Definition entry (self : t) (x : tensor) (i : index) : R :=
  let b := dim i 0 in
  let o := dim i 1 in
  let p := dim i 2 in
  let l := dim (size x) 2 in
  ((match bias self with Some v => v [o] | None => 0 end)
   + Rsum (in_channels self) (fun c =>
       Rsum (kernel_size self) (fun j =>
         let q := (p * stride self + j - padding self)%Z in
         weight self [o; c; j]
         * (if ((0 <=? q) && (q <? l))%Z then item x [b; c; q] else 0))))%R.

(** Batched input [(N, C, L)].  torch refuses a weight without output
    channels.  The layer is modelled for one input channel or more: what
    torch does with an input that has no channel is not followed. *)
Definition forward (self : t) (x : tensor) : result tensor :=
  match size x with
  | [n; c; l] =>
      check (0 <? stride self) && (0 <=? padding self) && (0 <? kernel_size self)
            && (0 <? out_channels self)
        else RuntimeError ;;
      check c =? in_channels self else RuntimeError ;;
      check kernel_size self <=? l + 2 * padding self else RuntimeError ;;
      Ok (Tensor [n; out_channels self; out_length self l] (entry self x))
  | _ => Raise RuntimeError
  end.

End Conv1d.

Module Conv2d.

Record t : Type := {
  in_channels : Z;
  out_channels : Z;
  kernel_size : Z;                 (* square kernels only *)
  stride : Z;
  padding : Z;
  weight : index -> R;             (* out x in x kernel x kernel *)
  bias : option (index -> R)
}.

(** [nn.Conv2d(in_channels, out_channels, kernel_size, stride=1, padding=0,
    bias=True)] *)
Definition init (initial : initializer) (name : string)
    (in_channels out_channels kernel_size stride padding : Z) (bias : bool)
  : result t :=
  check (0 <=? in_channels) && (0 <=? out_channels) && (0 <=? kernel_size)
    else RuntimeError ;;
  Ok {| in_channels := in_channels;
        out_channels := out_channels;
        kernel_size := kernel_size;
        stride := stride;
        padding := padding;
        weight := initial (join name "weight");
        bias := if bias then Some (initial (join name "bias")) else None |}.

Definition out_length (self : t) (l : Z) : Z :=
  (l + 2 * padding self - kernel_size self) / stride self + 1.

Definition entry (self : t) (x : tensor) (i : index) : R :=
  let b := dim i 0 in
  let o := dim i 1 in
  let h := dim (size x) 2 in
  let w := dim (size x) 3 in
  ((match bias self with Some v => v [o] | None => 0 end)
   + Rsum (in_channels self) (fun c =>
       Rsum (kernel_size self) (fun u =>
         Rsum (kernel_size self) (fun v =>
           let p := (dim i 2 * stride self + u - padding self)%Z in
           let q := (dim i 3 * stride self + v - padding self)%Z in
           weight self [o; c; u; v]
           * (if ((0 <=? p) && (p <? h) && (0 <=? q) && (q <? w))%Z
              then item x [b; c; p; q] else 0)))))%R.

(** Batched input [(N, C, H, W)].  torch refuses a weight without output
    channels.  The layer is modelled for one input channel or more: what
    torch does with an input that has no channel is not followed. *)
Definition forward (self : t) (x : tensor) : result tensor :=
  match size x with
  | [n; c; h; w] =>
      check (0 <? stride self) && (0 <=? padding self) && (0 <? kernel_size self)
            && (0 <? out_channels self)
        else RuntimeError ;;
      check c =? in_channels self else RuntimeError ;;
      check (kernel_size self <=? h + 2 * padding self)
            && (kernel_size self <=? w + 2 * padding self) else RuntimeError ;;
      Ok (Tensor [n; out_channels self; out_length self h; out_length self w]
                 (entry self x))
  | _ => Raise RuntimeError
  end.

End Conv2d.

Module Linear.

Record t : Type := {
  in_features : Z;
  out_features : Z;
  weight : index -> R;             (* out_features x in_features *)
  bias : option (index -> R)
}.

(** [nn.Linear(in_features, out_features, bias=True)] *)
Definition init (initial : initializer) (name : string)
    (in_features out_features : Z) (bias : bool) : result t :=
  check (0 <=? in_features) && (0 <=? out_features) else RuntimeError ;;
  Ok {| in_features := in_features;
        out_features := out_features;
        weight := initial (join name "weight");
        bias := if bias then Some (initial (join name "bias")) else None |}.

Definition entry (self : t) (x : tensor) (i : index) : R :=
  let o := last i 0 in
  ((match bias self with Some v => v [o] | None => 0 end)
   + Rsum (in_features self) (fun k =>
       weight self [o; k] * item x (removelast i ++ [k])))%R.

(** Applied along the last axis. *)
Definition forward (self : t) (x : tensor) : result tensor :=
  match rev (size x) with
  | n :: _ =>
      check n =? in_features self else RuntimeError ;;
      Ok (Tensor (removelast (size x) ++ [out_features self]) (entry self x))
  | [] => Raise RuntimeError
  end.

End Linear.

Module BatchNorm.

Record t : Type := {
  num_features : Z;
  eps : R;
  weight : index -> R;
  bias : index -> R;
  running_mean : index -> R;
  running_var : index -> R
}.

(** [nn.BatchNorm1d(num_features)] and [nn.BatchNorm2d(num_features)]:
    [eps = 1e-5], weight one, bias zero, running mean zero, running variance
    one. *)
Definition init (num_features : Z) : result t :=
  check 0 <=? num_features else RuntimeError ;;
  Ok {| num_features := num_features;
        eps := (1 / 100000)%R;
        weight := fun _ => 1%R;
        bias := fun _ => 0%R;
        running_mean := fun _ => 0%R;
        running_var := fun _ => 1%R |}.

(** Mean and (biased) variance of channel [c]: over the batch and the
    positions when training, the running estimates otherwise. *)
Definition statistics (training : bool) (self : t) (x : tensor) (c : Z) : R * R :=
  if training then
    let s := hd 0 (size x) :: skipn 2 (size x) in
    let n := IZR (numel s) in
    let at_c := fun j => item x (hd 0 j :: c :: tl j) in
    let mean := (Rsum_shape s at_c / n)%R in
    (mean, (Rsum_shape s (fun j => (at_c j - mean) * (at_c j - mean)) / n)%R)
  else (running_mean self [c], running_var self [c]).

Definition entry (training : bool) (self : t) (x : tensor) (i : index) : R :=
  let c := dim i 1 in
  let '(mean, var) := statistics training self x c in
  ((item x i - mean) / sqrt (var + eps self) * weight self [c] + bias self [c])%R.

(** The part common to the two classes.  When training, torch refuses an
    input with a single value per channel.  The update of the running
    estimates is not part of the value returned. *)
Definition batch_norm (training : bool) (self : t) (x : tensor) : result tensor :=
  match size x with
  | n :: c :: rest =>
      check negb (training && (n * numel rest =? 1)) else ValueError ;;
      check c =? num_features self else RuntimeError ;;
      Ok (Tensor (size x) (entry training self x))
  | _ => Raise ValueError
  end.

(** [BatchNorm1d.forward]: an input of two or three axes. *)
Definition forward1d (training : bool) (self : t) (x : tensor) : result tensor :=
  check (rank (size x) =? 2) || (rank (size x) =? 3) else ValueError ;;
  batch_norm training self x.

(** [BatchNorm2d.forward]: an input of four axes. *)
Definition forward2d (training : bool) (self : t) (x : tensor) : result tensor :=
  check rank (size x) =? 4 else ValueError ;;
  batch_norm training self x.

End BatchNorm.

Module MaxPool.

Record t : Type := { kernel_size : Z; stride : Z; padding : Z }.

Definition out_length (self : t) (l : Z) : Z :=
  (l + 2 * padding self - kernel_size self) / stride self + 1.

(** The positions of the input under the window at output position [p]
    (the padding is not part of the input). *)
Definition window (self : t) (l p : Z) : list Z :=
  filter (fun q => (0 <=? q) && (q <? l))
         (map (fun j => p * stride self + j - padding self) (range (kernel_size self))).

Definition ok (self : t) (l : Z) : bool :=
  (0 <? kernel_size self) && (0 <? stride self) && (0 <=? padding self)
  && (2 * padding self <=? kernel_size self)
  && (0 <? l) && (1 <=? out_length self l).

(** [nn.MaxPool1d(kernel_size, stride, padding).forward] on [(N, C, L)] *)
Definition forward1d (self : t) (x : tensor) : result tensor :=
  match size x with
  | [n; c; l] =>
      check ok self l else RuntimeError ;;
      Ok (Tensor [n; c; out_length self l]
            (fun i => Rmax_list (map (fun q => item x [dim i 0; dim i 1; q])
                                     (window self l (dim i 2)))))
  | _ => Raise RuntimeError
  end.

(** [nn.MaxPool2d(kernel_size, stride, padding).forward] on [(N, C, H, W)] *)
Definition forward2d (self : t) (x : tensor) : result tensor :=
  match size x with
  | [n; c; h; w] =>
      check ok self h && ok self w else RuntimeError ;;
      Ok (Tensor [n; c; out_length self h; out_length self w]
            (fun i => Rmax_list
               (flat_map (fun p => map (fun q => item x [dim i 0; dim i 1; p; q])
                                       (window self w (dim i 3)))
                         (window self h (dim i 2)))))
  | _ => Raise RuntimeError
  end.

End MaxPool.

(** [nn.AdaptiveAvgPool1d(1)] on [(N, C, L)]: the mean over the last axis. *)
Definition AdaptiveAvgPool1d_1 (x : tensor) : result tensor :=
  match size x with
  | [n; c; l] =>
      check 0 <? l else RuntimeError ;;
      Ok (Tensor [n; c; 1]
            (fun i => (Rsum l (fun q => item x [dim i 0; dim i 1; q]) / IZR l)%R))
  | _ => Raise RuntimeError
  end.

(** [nn.AdaptiveAvgPool2d(1)] on [(N, C, H, W)]: the mean over the last
    two axes. *)
Definition AdaptiveAvgPool2d_1 (x : tensor) : result tensor :=
  match size x with
  | [n; c; h; w] =>
      check (0 <? h) && (0 <? w) else RuntimeError ;;
      Ok (Tensor [n; c; 1; 1]
            (fun i => (Rsum h (fun p => Rsum w (fun q =>
                         item x [dim i 0; dim i 1; p; q])) / IZR (h * w))%R))
  | _ => Raise RuntimeError
  end.

(** ** nn.Sequential *)

Inductive layer : Type :=
| Conv1d_ (m : Conv1d.t)
| Conv2d_ (m : Conv2d.t)
| Linear_ (m : Linear.t)
| BatchNorm1d_ (m : BatchNorm.t)
| BatchNorm2d_ (m : BatchNorm.t)
| MaxPool1d_ (m : MaxPool.t)
| GELU_
| Sigmoid_.

Definition layer_forward (training : bool) (l : layer) (x : tensor) : result tensor :=
  match l with
  | Conv1d_ m => Conv1d.forward m x
  | Conv2d_ m => Conv2d.forward m x
  | Linear_ m => Linear.forward m x
  | BatchNorm1d_ m => BatchNorm.forward1d training m x
  | BatchNorm2d_ m => BatchNorm.forward2d training m x
  | MaxPool1d_ m => MaxPool.forward1d m x
  | GELU_ => Ok (tmap GELU x)
  | Sigmoid_ => Ok (tmap Sigmoid x)
  end.

Definition Sequential := list layer.

Fixpoint Sequential_forward (training : bool) (layers : Sequential) (x : tensor)
  : result tensor :=
  match layers with
  | [] => Ok x
  | l :: layers' =>
      y <- layer_forward training l x ;;
      Sequential_forward training layers' y
  end.

(** [x.size()[k]]: IndexError past the last axis. *)
Definition size_at (x : tensor) (k : nat) : result Z :=
  match nth_error (size x) k with
  | Some d => Ok d
  | None => Raise IndexError
  end.

(** * models/modules/signal_segment_representation.py *)

(** ** class ResLayer *)
Module ResLayer.

Record t : Type := { fc : Sequential }.

Definition default_reduction : Z := 2.

Definition init (initial : initializer) (name : string) (channel reduction : Z)
  : result t :=
  hidden <- Py.floordiv channel reduction ;;
  fc0 <- Linear.init initial (join name "fc.0") channel hidden false ;;
  hidden' <- Py.floordiv channel reduction ;;
  fc2 <- Linear.init initial (join name "fc.2") hidden' channel false ;;
  Ok {| fc := [Linear_ fc0; GELU_; Linear_ fc2; Sigmoid_] |}.

Definition forward (training : bool) (self : t) (x : tensor) : result tensor :=
  match size x with
  | [b; c; _] =>
      y <- AdaptiveAvgPool1d_1 x ;;
      y <- view [b; c] y ;;
      y <- Sequential_forward training (fc self) y ;;
      y <- view [b; c; 1] y ;;
      e <- expand_as y x ;;
      mul x e
  | _ => Raise ValueError
  end.

End ResLayer.

(** ** class ResBasicBlock *)
Module ResBasicBlock.

Definition expansion : Z := 1.

Record t : Type := {
  conv1 : Conv1d.t;
  bn1 : BatchNorm.t;
  conv2 : Conv1d.t;
  bn2 : BatchNorm.t;
  reslayer : ResLayer.t;
  downsample : option Sequential;
  stride : Z
}.

Definition default_stride : Z := 1.
Definition default_reduction : Z := 4.

(** [__init__(self, inplanes, planes, stride=1, downsample=None, reduction=4)].
    The two convolutions are built by [nn.Conv1d(inplanes, planes, stride)]
    and [nn.Conv1d(planes, planes, 1)]: three positional arguments, the rest
    of [nn.Conv1d]'s signature at its defaults (stride 1, padding 0, bias). *)
Definition init (initial : initializer) (name : string)
    (inplanes planes stride : Z) (downsample : option Sequential) (reduction : Z)
  : result t :=
  conv1 <- Conv1d.init initial (join name "conv1") inplanes planes stride 1 0 true ;;
  bn1 <- BatchNorm.init planes ;;
  conv2 <- Conv1d.init initial (join name "conv2") planes planes 1 1 0 true ;;
  bn2 <- BatchNorm.init planes ;;
  reslayer <- ResLayer.init initial (join name "reslayer") planes reduction ;;
  Ok {| conv1 := conv1; bn1 := bn1; conv2 := conv2; bn2 := bn2;
        reslayer := reslayer; downsample := downsample; stride := stride |}.

Definition forward (training : bool) (self : t) (x : tensor) : result tensor :=
  let residual := x in
  out <- Conv1d.forward (conv1 self) x ;;
  out <- BatchNorm.forward1d training (bn1 self) out ;;
  let out := tmap GELU out in
  out <- Conv1d.forward (conv2 self) out ;;
  out <- BatchNorm.forward1d training (bn2 self) out ;;
  out <- ResLayer.forward training (reslayer self) out ;;
  residual <- match downsample self with
              | Some d => Sequential_forward training d x
              | None => Ok residual
              end ;;
  out <- iadd out residual ;;
  Ok (tmap GELU out).

End ResBasicBlock.

(** A [nn.Sequential] of blocks. *)
Fixpoint blocks_forward {B : Type} (fwd : B -> tensor -> result tensor)
    (blocks : list B) (x : tensor) : result tensor :=
  match blocks with
  | [] => Ok x
  | b :: blocks' => y <- fwd b x ;; blocks_forward fwd blocks' y
  end.

(** ** class SignalSegment2Vec *)
Module SignalSegment2Vec.

Record t : Type := {
  features : Sequential;
  inplanes : Z;
  AFR : list ResBasicBlock.t
}.

(** [_make_layer(self, block, planes, blocks, stride=1)] with
    [block = ResBasicBlock]; [self.inplanes] is read and assigned, so it is
    passed in and returned. *)
Definition _make_layer (initial : initializer) (name : string)
    (inplanes planes blocks stride : Z) : result (list ResBasicBlock.t * Z) :=
  downsample <-
    (if negb (stride =? 1) || negb (inplanes =? planes * ResBasicBlock.expansion)
     then
       conv <- Conv1d.init initial (join name "0.downsample.0")
                 inplanes (planes * ResBasicBlock.expansion) 1 stride 0 false ;;
       bn <- BatchNorm.init (planes * ResBasicBlock.expansion) ;;
       Ok (Some [Conv1d_ conv; BatchNorm1d_ bn])
     else Ok None) ;;
  first <- ResBasicBlock.init initial (join name "0") inplanes planes stride
             downsample ResBasicBlock.default_reduction ;;
  let inplanes := planes * ResBasicBlock.expansion in
  others <- mapM (fun i => ResBasicBlock.init initial (join name (Py.str i))
                             inplanes planes ResBasicBlock.default_stride None
                             ResBasicBlock.default_reduction)
                 (range_from 1 blocks) ;;
  Ok (first :: others, inplanes).

Definition init (initial : initializer) (name : string) (afr_reduced_cnn_size : Z)
  : result t :=
  c0 <- Conv1d.init initial (join name "features.0") 1 64 49 6 (49 / 2) false ;;
  b1 <- BatchNorm.init 64 ;;
  let p3 := {| MaxPool.kernel_size := 7; MaxPool.stride := 4; MaxPool.padding := 7 / 2 |} in
  c4 <- Conv1d.init initial (join name "features.4") 64 128 7 1 (7 / 2) false ;;
  b5 <- BatchNorm.init 128 ;;
  c7 <- Conv1d.init initial (join name "features.7") 128 128 7 1 (7 / 2) false ;;
  b8 <- BatchNorm.init 128 ;;
  let p10 := {| MaxPool.kernel_size := 3; MaxPool.stride := 4; MaxPool.padding := 3 / 2 |} in
  let inplanes := 128 in
  '(afr, inplanes) <- _make_layer initial (join name "AFR") inplanes
                        afr_reduced_cnn_size 1 1 ;;
  Ok {| features := [Conv1d_ c0; BatchNorm1d_ b1; GELU_; MaxPool1d_ p3;
                     Conv1d_ c4; BatchNorm1d_ b5; GELU_;
                     Conv1d_ c7; BatchNorm1d_ b8; GELU_;
                     MaxPool1d_ p10];
        inplanes := inplanes;
        AFR := afr |}.

Definition forward (training : bool) (self : t) (x : tensor) : result tensor :=
  x <- Sequential_forward training (features self) x ;;
  blocks_forward (ResBasicBlock.forward training) (AFR self) x.

End SignalSegment2Vec.

(** ** class GNA *)
Module GNA.

Record t : Type := { fc : Sequential }.

Definition default_reduction : Z := 2.

(** [__init__(self, channel, reduction=2)] *)
Definition init (initial : initializer) (name : string) (channel reduction : Z)
  : result t :=
  hidden <- Py.floordiv channel reduction ;;
  fc0 <- Conv2d.init initial (join name "fc.0") channel hidden 1 1 0 false ;;
  hidden' <- Py.floordiv channel reduction ;;
  fc2 <- Conv2d.init initial (join name "fc.2") hidden' channel 1 1 0 false ;;
  Ok {| fc := [Conv2d_ fc0; GELU_; Conv2d_ fc2; Sigmoid_] |}.

Definition forward (training : bool) (self : t) (x : tensor) : result tensor :=
  match size x with
  | [b; c; _; _] =>
      y <- AdaptiveAvgPool2d_1 x ;;
      y <- Sequential_forward training (fc self) y ;;
      e <- expand_as y x ;;
      mul x e
  | _ => Raise ValueError
  end.

End GNA.

(** [F.unfold(x, kernel_size=(kh, kw), stride=stride)] on a batched input
    [(N, C, H, W)]: no padding, no dilation, the int [stride] used along both
    axes.  Column [l] of the result is the [l]-th window, in row-major order
    of the window positions. *)
Definition unfold (kernel_size : Z * Z) (stride : Z) (x : tensor) : result tensor :=
  let '(kh, kw) := kernel_size in
  match size x with
  | [n; c; h; w] =>
      check (0 <? kh) && (0 <? kw) && (0 <? stride) else RuntimeError ;;
      let nh := (h - kh) / stride + 1 in
      let nw := (w - kw) / stride + 1 in
      check (0 <? c) && (0 <? h) && (0 <? w) && (1 <=? nh) && (1 <=? nw)
        else RuntimeError ;;
      Ok (Tensor [n; c * kh * kw; nh * nw]
            (fun i =>
               let r := dim i 1 in
               let l := dim i 2 in
               item x [dim i 0;
                       r / (kh * kw);
                       (l / nw) * stride + (r mod (kh * kw)) / kw;
                       (l mod nw) * stride + r mod kw]))
  | _ => Raise RuntimeError
  end.

(** ** class SignalSegmentDefinition *)
Module SignalSegmentDefinition.

Record t : Type := { kernel_size : Z * Z; stride : Z }.

Definition init (kernel_size : Z * Z) (stride : Z) : t :=
  {| kernel_size := kernel_size; stride := stride |}.

Definition forward (self : t) (x : tensor) : result tensor :=
  b <- unfold (kernel_size self) (stride self) x ;;
  b <- permute [0; 2; 1] b ;;
  b <- unsqueeze (-2) b ;;
  Ok b.

End SignalSegmentDefinition.

(** ** class SignalSegmentRepresentation *)
Module SignalSegmentRepresentation.

Record t : Type := {
  overlapping : Z;
  segment : SignalSegmentDefinition.t;
  segment2vec : SignalSegment2Vec.t;
  gna : GNA.t
}.

(** [int(segment_size - segment_size * overlapping_rate)] for an int
    [segment_size] and a float [overlapping_rate]. *)
Definition stride_of (segment_size : Z) (overlapping_rate : float) : result Z :=
  p <- Py.int_mul_float segment_size overlapping_rate ;;
  d <- Py.int_sub_float segment_size p ;;
  Py.int_of_float d.

Definition init (initial : initializer)
    (segment_size : Z) (overlapping_rate : float) (segment_num : Z) : result t :=
  overlapping <- stride_of segment_size overlapping_rate ;;
  let segment := SignalSegmentDefinition.init (1, segment_size) overlapping in
  segment2vec <- SignalSegment2Vec.init initial "segment2vec" 30 ;;
  gna <- GNA.init initial "gna" segment_num GNA.default_reduction ;;
  Ok {| overlapping := overlapping; segment := segment;
        segment2vec := segment2vec; gna := gna |}.

Definition forward (training : bool) (self : t) (x : tensor) : result tensor :=
  x <- SignalSegmentDefinition.forward (segment self) x ;;
  x <- squeeze x ;;
  n <- size_at x 1 ;;
  signal_segments <-
    mapM (fun idx =>
            data <- getitem_colon_int_colon idx x ;;
            data <- unsqueeze 1 data ;;
            out <- SignalSegment2Vec.forward training (segment2vec self) data ;;
            b <- size_at x 0 ;;
            view [b; 1; -1] out)
         (range n) ;;
  signal_segments <- cat signal_segments 1 ;;
  signal_segments <- unsqueeze 2 signal_segments ;;
  signal_segments <- GNA.forward training (gna self) signal_segments ;;
  permute [0; 2; 1; 3] signal_segments.

End SignalSegmentRepresentation.

(** * models/WISDM_baseline/ResNet32.py *)

(** ** class BasicBlock *)
Module BasicBlock.

Definition expansion : Z := 1.

Record t : Type := {
  conv1 : Conv2d.t;
  bn1 : BatchNorm.t;
  conv2 : Conv2d.t;
  bn2 : BatchNorm.t;
  downsample : option Sequential;
  stride : Z
}.

Definition default_stride : Z := 1.

(** [__init__(self, in_planes, planes, stride=1, downsample=None)] *)
Definition init (initial : initializer) (name : string)
    (in_planes planes stride : Z) (downsample : option Sequential) : result t :=
  conv1 <- Conv2d.init initial (join name "conv1") in_planes planes 3 stride 1 false ;;
  bn1 <- BatchNorm.init planes ;;
  conv2 <- Conv2d.init initial (join name "conv2") planes planes 3 1 1 false ;;
  bn2 <- BatchNorm.init planes ;;
  Ok {| conv1 := conv1; bn1 := bn1; conv2 := conv2; bn2 := bn2;
        downsample := downsample; stride := stride |}.

Definition forward (training : bool) (self : t) (x : tensor) : result tensor :=
  let identity := x in
  out <- Conv2d.forward (conv1 self) x ;;
  out <- BatchNorm.forward2d training (bn1 self) out ;;
  let out := tmap ReLU out in
  out <- Conv2d.forward (conv2 self) out ;;
  out <- BatchNorm.forward2d training (bn2 self) out ;;
  identity <- match downsample self with
              | Some d => Sequential_forward training d x
              | None => Ok identity
              end ;;
  out <- add out identity ;;
  Ok (tmap ReLU out).

End BasicBlock.

(** ** class ResNet *)
Module ResNet.

Record t : Type := {
  in_planes : Z;
  conv1 : Conv2d.t;
  bn1 : BatchNorm.t;
  maxpool : MaxPool.t;
  layer1 : list BasicBlock.t;
  layer2 : list BasicBlock.t;
  layer3 : list BasicBlock.t;
  layer4 : list BasicBlock.t;
  fc1 : Sequential;
  fc2 : Sequential
}.

Definition default_channels : Z := 1.
Definition default_num_classes : Z := 18.

(** [_make_layer(self, block, planes, blocks, stride=1)] with
    [block = BasicBlock]; [self.in_planes] is passed in and returned. *)
Definition _make_layer (initial : initializer) (name : string)
    (in_planes planes blocks stride : Z) : result (list BasicBlock.t * Z) :=
  downsample <-
    (if negb (stride =? 1) || negb (in_planes =? planes)
     then
       conv <- Conv2d.init initial (join name "0.downsample.0")
                 in_planes planes 1 stride 0 false ;;
       bn <- BatchNorm.init planes ;;
       Ok (Some [Conv2d_ conv; BatchNorm2d_ bn])
     else Ok None) ;;
  first <- BasicBlock.init initial (join name "0") in_planes planes stride downsample ;;
  let in_planes := planes in
  others <- mapM (fun i => BasicBlock.init initial (join name (Py.str i))
                             in_planes planes BasicBlock.default_stride None)
                 (range_from 1 blocks) ;;
  Ok (first :: others, in_planes).

(** [layers[k]] *)
Definition getitem (layers : list Z) (k : nat) : result Z :=
  match nth_error layers k with
  | Some n => Ok n
  | None => Raise IndexError
  end.

(** [__init__(self, block, layers, channels=1, num_classes=18)] with
    [block = BasicBlock]. *)
Definition init (initial : initializer) (layers : list Z) (channels num_classes : Z)
  : result t :=
  let in_planes := 64 in
  conv1 <- Conv2d.init initial "conv1" channels in_planes 7 2 3 false ;;
  bn1 <- BatchNorm.init in_planes ;;
  let maxpool := {| MaxPool.kernel_size := 3; MaxPool.stride := 2; MaxPool.padding := 1 |} in
  n0 <- getitem layers 0 ;;
  '(layer1, in_planes) <- _make_layer initial "layer1" in_planes 64 n0 1 ;;
  n1 <- getitem layers 1 ;;
  '(layer2, in_planes) <- _make_layer initial "layer2" in_planes 128 n1 2 ;;
  n2 <- getitem layers 2 ;;
  '(layer3, in_planes) <- _make_layer initial "layer3" in_planes 256 n2 2 ;;
  n3 <- getitem layers 3 ;;
  '(layer4, in_planes) <- _make_layer initial "layer4" in_planes 512 n3 2 ;;
  fc1_0 <- Linear.init initial "fc1.0" 200 (32 * 32) true ;;
  fc2_0 <- Linear.init initial "fc2.0" 512 256 true ;;
  fc2_2 <- Linear.init initial "fc2.2" 256 num_classes true ;;
  Ok {| in_planes := in_planes; conv1 := conv1; bn1 := bn1; maxpool := maxpool;
        layer1 := layer1; layer2 := layer2; layer3 := layer3; layer4 := layer4;
        fc1 := [Linear_ fc1_0; GELU_];
        fc2 := [Linear_ fc2_0; GELU_; Linear_ fc2_2] |}.

Definition forward (training : bool) (self : t) (x : tensor) : result tensor :=
  x <- unsqueeze (-2) x ;;
  x <- Sequential_forward training (fc1 self) x ;;
  d0 <- size_at x 0 ;;
  d1 <- size_at x 1 ;;
  x <- view [d0; d1; 32; 32] x ;;
  x <- Conv2d.forward (conv1 self) x ;;
  x <- BatchNorm.forward2d training (bn1 self) x ;;
  let x := tmap ReLU x in
  x <- MaxPool.forward2d (maxpool self) x ;;
  x <- blocks_forward (BasicBlock.forward training) (layer1 self) x ;;
  x <- blocks_forward (BasicBlock.forward training) (layer2 self) x ;;
  x <- blocks_forward (BasicBlock.forward training) (layer3 self) x ;;
  x <- blocks_forward (BasicBlock.forward training) (layer4 self) x ;;
  x <- AdaptiveAvgPool2d_1 x ;;
  x <- flatten1 x ;;
  x <- Sequential_forward training (fc2 self) x ;;
  log_softmax x.

End ResNet.

(** * Specification-side definitions *)

(** The stride as the specification words it: [W - round(W x overlap_rate)]. *)
Definition spec_stride (W : Z) (overlap_rate : float) : result Z :=
  p <- Py.int_mul_float W overlap_rate ;;
  k <- Py.round p ;;
  Ok (W - k).

(** The number of segments as the specification words it. *)
Definition spec_segment_count (L W : Z) (overlap_rate : float) : result Z :=
  s <- spec_stride W overlap_rate ;;
  Ok ((L - W) / s + 1).

(** The length left of a segment of length [w] by the convolutions and the
    poolings of [SignalSegment2Vec.features]: each maps a length [l] to
    [floor((l + 2 * padding - kernel_size) / stride) + 1]. *)
Definition encoded_length (w : Z) : Z :=
  let l1 := (w + 2 * (49 / 2) - 49) / 6 + 1 in
  let l2 := (l1 + 2 * (7 / 2) - 7) / 4 + 1 in
  let l3 := (l2 + 2 * (7 / 2) - 7) / 1 + 1 in
  let l4 := (l3 + 2 * (7 / 2) - 7) / 1 + 1 in
  (l4 + 2 * (3 / 2) - 3) / 4 + 1.

(** [y] is [x] gated: same size, and every entry of [y] is the entry of [x]
    times a factor strictly between 0 and 1, hence no larger in magnitude. *)
Definition gated (x y : tensor) : Prop :=
  size y = size x
  /\ forall i, in_bounds (size x) i ->
       exists f, (0 < f < 1)%R
                 /\ item y i = (item x i * f)%R
                 /\ (Rabs (item y i) <= Rabs (item x i))%R.

(** Every entry of [g] is a value of the sigmoid. *)
Definition sigmoid_valued (g : tensor) : Prop :=
  forall i, exists u, item g i = Sigmoid u.

(** A zero-initialised convolution: weights and bias all zero. *)
Definition Conv1d_zero (c : Conv1d.t) : Prop :=
  (forall i, in_bounds [Conv1d.out_channels c; Conv1d.in_channels c; Conv1d.kernel_size c] i ->
             Conv1d.weight c i = 0%R)
  /\ (forall v o, Conv1d.bias c = Some v -> 0 <= o < Conv1d.out_channels c -> v [o] = 0%R).

Definition Conv2d_zero (c : Conv2d.t) : Prop :=
  (forall i, in_bounds [Conv2d.out_channels c; Conv2d.in_channels c;
                        Conv2d.kernel_size c; Conv2d.kernel_size c] i ->
             Conv2d.weight c i = 0%R)
  /\ (forall v o, Conv2d.bias c = Some v -> 0 <= o < Conv2d.out_channels c -> v [o] = 0%R).

(** ResidualBlock1D as the specification words it:
    out = conv1 -> norm -> nonlinearity -> conv2 -> norm -> ChannelGate1D(out);
    residual = downsample(x) if shape mismatch (channel count or stride <> 1)
    else x unchanged; result = nonlinearity(out + residual). *)
Definition spec_conv_path (training : bool) (b : ResBasicBlock.t) (x : tensor)
  : result tensor :=
  out <- (out <- (out <- (out <- Conv1d.forward (ResBasicBlock.conv1 b) x ;;
                          BatchNorm.forward1d training (ResBasicBlock.bn1 b) out) ;;
                  Ok (tmap GELU out)) ;;
          Conv1d.forward (ResBasicBlock.conv2 b) out) ;;
  BatchNorm.forward1d training (ResBasicBlock.bn2 b) out.

Definition spec_downsample (training : bool) (b : ResBasicBlock.t) (x : tensor)
  : result tensor :=
  match ResBasicBlock.downsample b with
  | Some d => Sequential_forward training d x
  | None => Raise RuntimeError
  end.

Definition spec_ResidualBlock1D (training : bool) (b : ResBasicBlock.t)
    (shape_mismatch : bool) (x : tensor) : result tensor :=
  out <- spec_conv_path training b x ;;
  out <- ResLayer.forward training (ResBasicBlock.reslayer b) out ;;
  residual <- (if shape_mismatch then spec_downsample training b x else Ok x) ;;
  sum <- add out residual ;;
  Ok (tmap GELU sum).

(** The shape mismatch of the specification, from the constructor's
    arguments. *)
Definition shape_mismatch (inplanes planes stride : Z) : bool :=
  negb (stride =? 1) || negb (inplanes =? planes).

(** [r] returns a tensor of size [s]. *)
Definition returns (r : result tensor) (s : shape) : Prop :=
  exists y, r = Ok y /\ size y = s.

(** A mode in which [nn.BatchNorm] accepts [k] values per channel. *)
Definition batch_ok (training : bool) (k : Z) : Prop := training = true -> k <> 1.

(** The shortcut [_make_layer] builds for a stride of one. *)
Definition shortcut_of_stride_one (inplanes planes : Z) (downsample : option Sequential)
  : Prop :=
  (downsample = None /\ inplanes = planes)
  \/ exists c bn,
       downsample = Some [Conv1d_ c; BatchNorm1d_ bn]
       /\ Conv1d.in_channels c = inplanes /\ Conv1d.out_channels c = planes
       /\ Conv1d.kernel_size c = 1 /\ Conv1d.stride c = 1 /\ Conv1d.padding c = 0
       /\ BatchNorm.num_features bn = planes.

(** The shortcut [ResNet._make_layer] builds. *)
Definition shortcut_2d (in_planes planes stride : Z) (downsample : option Sequential)
  : Prop :=
  (downsample = None /\ stride = 1 /\ in_planes = planes)
  \/ exists c bn,
       downsample = Some [Conv2d_ c; BatchNorm2d_ bn]
       /\ Conv2d.in_channels c = in_planes /\ Conv2d.out_channels c = planes
       /\ Conv2d.kernel_size c = 1 /\ Conv2d.stride c = stride /\ Conv2d.padding c = 0
       /\ BatchNorm.num_features bn = planes.

(** The side of the map a block of stride [s] returns. *)
Definition strided (s l : Z) : Z := (l - 1) / s + 1.

(** [SignalSegmentRepresentation.forward] up to its global node attention:
    the value of [signal_segments] after [unsqueeze(2)], the encoded
    windows side by side. *)
Definition encoded_segments (training : bool) (self : SignalSegmentRepresentation.t)
    (x : tensor) : result tensor :=
  x <- SignalSegmentDefinition.forward (SignalSegmentRepresentation.segment self) x ;;
  x <- squeeze x ;;
  n <- size_at x 1 ;;
  signal_segments <-
    mapM (fun idx =>
            data <- getitem_colon_int_colon idx x ;;
            data <- unsqueeze 1 data ;;
            out <- SignalSegment2Vec.forward training
                     (SignalSegmentRepresentation.segment2vec self) data ;;
            b <- size_at x 0 ;;
            view [b; 1; -1] out)
         (range n) ;;
  signal_segments <- cat signal_segments 1 ;;
  unsqueeze 2 signal_segments.

(** Two batches hold the same signal at position [b]: their entries at
    sample [b] are the same, over [C] channels and maps of [H] by [W]. *)
Definition agree_at (b : Z) (x x' : tensor) (C H W : Z) : Prop :=
  forall c h w, 0 <= c < C -> 0 <= h < H -> 0 <= w < W ->
    item x [b; c; h; w] = item x' [b; c; h; w].

(** * Reasoning about results *)

Lemma bind_Ok {A B : Type} (r : result A) (k : A -> result B) (a : A) :
  r = Ok a -> bind r k = k a.
Proof. intros ->. reflexivity. Qed.

Lemma bind_Raise {A B : Type} (r : result A) (k : A -> result B) (e : exn) :
  r = Raise e -> bind r k = Raise e.
Proof. intros ->. reflexivity. Qed.

Lemma bind_inv {A B : Type} (r : result A) (k : A -> result B) (b : B) :
  bind r k = Ok b -> exists a, r = Ok a /\ k a = Ok b.
Proof. destruct r as [a | e]; cbn; [eauto | discriminate]. Qed.

Lemma guard_true {B : Type} (b : bool) (e : exn) (k : unit -> result B) :
  b = true -> bind (guard b e) k = k tt.
Proof. intros ->. reflexivity. Qed.

Lemma guard_false {B : Type} (b : bool) (e : exn) (k : unit -> result B) :
  b = false -> bind (guard b e) k = Raise e.
Proof. intros ->. reflexivity. Qed.

Lemma guard_inv {B : Type} (b : bool) (e : exn) (k : unit -> result B) (y : B) :
  bind (guard b e) k = Ok y -> b = true /\ k tt = Ok y.
Proof. destruct b; cbn; [auto | discriminate]. Qed.

Lemma returns_bind (r : result tensor) (k : tensor -> result tensor) (s s' : shape) :
  returns r s -> (forall y, size y = s -> returns (k y) s') -> returns (bind r k) s'.
Proof. intros (y & -> & Hy) Hk. cbn. auto. Qed.

Lemma returns_Ok (y : tensor) (s : shape) : size y = s -> returns (Ok y) s.
Proof. intros H. exists y. auto. Qed.

(** The size alone can be computed: the entries stay unevaluated. *)
Lemma returns_of_size (r : result tensor) (s : shape) :
  (y <- r ;; Ok (size y)) = Ok s -> returns r s.
Proof.
  destruct r as [y | e]; cbn; intros H; [| discriminate].
  injection H as H. exists y. auto.
Qed.

(** Truth of a test on integers, by linear arithmetic. *)
Ltac btrue :=
  lazymatch goal with
  | |- (_ && _) = true => apply andb_true_intro; split; btrue
  | |- (_ || _) = true => apply orb_true_iff; first [left; btrue | right; btrue]
  | |- negb _ = true => apply negb_true_iff; bfalse
  | |- (_ <=? _) = true => apply Z.leb_le; lia
  | |- (_ <? _) = true => apply Z.ltb_lt; lia
  | |- (_ =? _) = true => apply Z.eqb_eq; lia
  | |- true = true => reflexivity
  end
with bfalse :=
  lazymatch goal with
  | |- (_ && _) = false => apply andb_false_iff; first [left; bfalse | right; bfalse]
  | |- (_ || _) = false => apply orb_false_iff; split; bfalse
  | |- negb _ = false => apply negb_false_iff; btrue
  | |- (_ <=? _) = false => apply Z.leb_gt; lia
  | |- (_ <? _) = false => apply Z.ltb_ge; lia
  | |- (_ =? _) = false => apply Z.eqb_neq; lia
  | |- false = false => reflexivity
  end.

(** One guard of the goal passed. *)
Ltac pass := rewrite guard_true by btrue.

(** ** Sizes returned by the tensor operations *)

Lemma unfold_Ok (kh kw stride : Z) (x : tensor) (n c h w : Z) :
  size x = [n; c; h; w] ->
  0 < kh <= h -> 0 < kw <= w -> 0 < stride -> 0 < c ->
  returns (unfold (kh, kw) stride x)
          [n; c * kh * kw; ((h - kh) / stride + 1) * ((w - kw) / stride + 1)].
Proof.
  intros Hx Hh Hw Hs Hc. unfold unfold. rewrite Hx.
  assert (0 <= (h - kh) / stride) by (apply Z.div_pos; lia).
  assert (0 <= (w - kw) / stride) by (apply Z.div_pos; lia).
  do 2 pass. apply returns_Ok. reflexivity.
Qed.

Lemma permute_021 (x : tensor) (a b c : Z) :
  size x = [a; b; c] -> returns (permute [0; 2; 1] x) [a; c; b].
Proof. intros Hx. unfold permute. rewrite Hx. apply returns_Ok. reflexivity. Qed.

Lemma permute_0213 (x : tensor) (a b c d : Z) :
  size x = [a; b; c; d] -> returns (permute [0; 2; 1; 3] x) [a; c; b; d].
Proof. intros Hx. unfold permute. rewrite Hx. apply returns_Ok. reflexivity. Qed.

Lemma unsqueeze_Ok (d : Z) (x : tensor) (k : Z) :
  wrap_dim d (rank (size x) + 1) = Ok k ->
  returns (unsqueeze d x) (insert_at k 1 (size x)).
Proof. intros H. unfold unsqueeze. rewrite H. apply returns_Ok. reflexivity. Qed.

(** The segmentation stage: [(B, 1, 1, L)] to [(B, K, 1, W)]. *)
Lemma SignalSegmentDefinition_forward_size
    (self : SignalSegmentDefinition.t) (x : tensor) (B L W : Z) :
  SignalSegmentDefinition.kernel_size self = (1, W) ->
  size x = [B; 1; 1; L] ->
  0 < W <= L -> 0 < SignalSegmentDefinition.stride self ->
  returns (SignalSegmentDefinition.forward self x)
          [B; (L - W) / SignalSegmentDefinition.stride self + 1; 1; W].
Proof.
  intros Hk Hx HW Hs. unfold SignalSegmentDefinition.forward. rewrite Hk.
  eapply returns_bind.
  { apply (unfold_Ok 1 W _ x B 1 1 L); auto; lia. }
  intros y Hy. replace (1 - 1) with 0 in Hy by lia.
  rewrite Z.div_0_l in Hy by lia.
  replace (1 * 1 * W) with W in Hy by lia.
  rewrite Z.mul_1_l in Hy.
  eapply returns_bind; [apply permute_021; eassumption |].
  intros z Hz.
  eapply returns_bind; [apply (unsqueeze_Ok _ _ 2); rewrite Hz; reflexivity |].
  intros u Hu. apply returns_Ok. rewrite Hu, Hz. reflexivity.
Qed.

Lemma Ok_inj {A : Type} (a b : A) : Ok a = Ok b -> a = b.
Proof. intros H. injection H as H. exact H. Qed.

(** Inversion of a computation that returned, and of the steps found. *)
Ltac inv_res H :=
  lazymatch type of H with
  | bind (guard _ _) _ = Ok _ =>
      apply guard_inv in H;
      let Hg := fresh "Hg" in destruct H as [Hg H]; inv_res H
  | bind _ _ = Ok _ =>
      apply bind_inv in H;
      let a := fresh "a" in let Hb := fresh "Hb" in
      destruct H as (a & Hb & H); inv_res H
  | match ?p with pair _ _ => _ end = Ok _ => destruct p; inv_res H
  | Ok _ = Ok _ => apply Ok_inj in H
  | _ => idtac
  end.

Ltac inv_all :=
  repeat match goal with
         | Hq : bind _ _ = Ok _ |- _ => inv_res Hq
         | Hq : Ok _ = Ok _ |- _ => apply Ok_inj in Hq
         end.

Lemma range_pos (n : Z) : 0 < n -> exists l, range n = 0 :: l.
Proof.
  intros Hn. unfold range.
  destruct (Z.to_nat n) as [| k] eqn:E; [lia |].
  cbn. eauto.
Qed.

Lemma mapM_first_raises {A B : Type} (body : A -> result B) (a : A) (l : list A) (e : exn) :
  body a = Raise e -> mapM body (a :: l) = Raise e.
Proof. intros H. cbn. rewrite H. reflexivity. Qed.

(** The segmentation stage on any four-axis input: it raises RuntimeError
    or returns [(n, a, 1, b)] with a positive window length [b]. *)
Lemma SignalSegmentDefinition_forward_cases
    (self : SignalSegmentDefinition.t) (x : tensor) (n c h w : Z) :
  size x = [n; c; h; w] ->
  SignalSegmentDefinition.forward self x = Raise RuntimeError
  \/ exists y a b, SignalSegmentDefinition.forward self x = Ok y
                   /\ size y = [n; a; 1; b] /\ 0 < b.
Proof.
  intros Hx. unfold SignalSegmentDefinition.forward.
  destruct (SignalSegmentDefinition.kernel_size self) as [kh kw].
  unfold unfold. rewrite Hx.
  destruct ((0 <? kh) && (0 <? kw) && (0 <? SignalSegmentDefinition.stride self)) eqn:E1;
    [| left; reflexivity].
  cbn [guard bind].
  match goal with |- context [guard ?b _] => destruct b eqn:E2 end;
    [| left; reflexivity].
  right. cbn [guard bind].
  apply andb_prop in E1 as [E1 _]. apply andb_prop in E1 as [E1a E1b].
  apply andb_prop in E2 as [E2 _]. apply andb_prop in E2 as [E2 _].
  apply andb_prop in E2 as [E2 _]. apply andb_prop in E2 as [E2 _].
  apply Z.ltb_lt in E1a, E1b, E2.
  eexists.
  exists (((h - kh) / SignalSegmentDefinition.stride self + 1)
          * ((w - kw) / SignalSegmentDefinition.stride self + 1)), (c * kh * kw).
  split; [reflexivity | split; [reflexivity | nia]].
Qed.

(** * A batch of one signal *)

(** After [x.squeeze()] a batch of one has lost its batch axis: what is left
    of [(1, a, 1, b)] has at most two axes. *)
Lemma squeeze_batch_of_one (a b : Z) :
  let s := filter (fun d => negb (d =? 1)) [1; a; 1; b] in
  (List.length s <= 1)%nat \/ s = [a; b].
Proof.
  cbn. destruct (a =? 1), (b =? 1); cbn; auto.
Qed.

(** C1, at the failing input.  [SignalSegmentRepresentation.forward] on an
    input of size (1, 1, 1, L), a batch of one signal, never returns: it
    raises IndexError (the batch axis is squeezed away, and [x[:, idx, :]]
    indexes three axes of a tensor of two) or, when the segmentation itself
    fails, RuntimeError.  This holds for every model and every [L]. *)
Theorem forward_batch_of_one_raises
    (training : bool) (self : SignalSegmentRepresentation.t) (x : tensor) (L : Z) :
  size x = [1; 1; 1; L] ->
  SignalSegmentRepresentation.forward training self x = Raise IndexError
  \/ SignalSegmentRepresentation.forward training self x = Raise RuntimeError.
Proof.
  intros Hx. unfold SignalSegmentRepresentation.forward.
  destruct (SignalSegmentDefinition_forward_cases
              (SignalSegmentRepresentation.segment self) x 1 1 1 L Hx)
    as [-> | (y & a & b & -> & Hy & Hb)]; [right; reflexivity |].
  left. cbn [bind squeeze]. rewrite Hy.
  destruct (squeeze_batch_of_one a b) as [Hs | Hs].
  - unfold size_at at 1. cbn [size].
    match goal with
    | |- context [nth_error ?s 1] => destruct s as [| d [| d' s']]
    end; cbn in Hs; try lia; reflexivity.
  - unfold size_at at 1. cbn [size]. rewrite Hs. cbn [nth_error bind].
    destruct (range_pos b Hb) as (l & ->).
    rewrite (mapM_first_raises _ 0 l IndexError); [reflexivity |].
    unfold getitem_colon_int_colon. reflexivity.
Qed.

Lemma forward_batch_of_one_raises_witness :
  SignalSegmentRepresentation.forward true
    {| SignalSegmentRepresentation.overlapping := 15;
       SignalSegmentRepresentation.segment := SignalSegmentDefinition.init (1, 30) 15;
       SignalSegmentRepresentation.segment2vec :=
         {| SignalSegment2Vec.features := [];
            SignalSegment2Vec.inplanes := 128;
            SignalSegment2Vec.AFR := [] |};
       SignalSegmentRepresentation.gna := {| GNA.fc := [] |} |}
    (Tensor [1; 1; 1; 3000] (fun _ => 0%R)) = Raise IndexError
  \/ SignalSegmentRepresentation.forward true
    {| SignalSegmentRepresentation.overlapping := 15;
       SignalSegmentRepresentation.segment := SignalSegmentDefinition.init (1, 30) 15;
       SignalSegmentRepresentation.segment2vec :=
         {| SignalSegment2Vec.features := [];
            SignalSegment2Vec.inplanes := 128;
            SignalSegment2Vec.AFR := [] |};
       SignalSegmentRepresentation.gna := {| GNA.fc := [] |} |}
    (Tensor [1; 1; 1; 3000] (fun _ => 0%R)) = Raise RuntimeError.
Proof.
  apply (forward_batch_of_one_raises true _ _ 3000). reflexivity.
Defined.

(** The configuration of the specification's example, L = 3000, W = 30,
    overlap 0.5 and 199 segments, on one signal: IndexError, whatever the
    parameters and the entries of the signal. *)
Lemma forward_one_signal_IndexError
    (initial : initializer) (training : bool) (entries : index -> R) :
  (m <- SignalSegmentRepresentation.init initial 30 0.5%float 199 ;;
   SignalSegmentRepresentation.forward training m (Tensor [1; 1; 1; 3000] entries))
  = Raise IndexError.
Proof. vm_compute. reflexivity. Qed.

(** * The stride and the number of segments *)

Lemma SignalSegmentRepresentation_init_inv
    (initial : initializer) (W : Z) (r : float) (segment_num : Z)
    (m : SignalSegmentRepresentation.t) :
  SignalSegmentRepresentation.init initial W r segment_num = Ok m ->
  exists s2v g,
    SignalSegmentRepresentation.stride_of W r
      = Ok (SignalSegmentRepresentation.overlapping m)
    /\ SignalSegmentRepresentation.segment m
       = SignalSegmentDefinition.init (1, W) (SignalSegmentRepresentation.overlapping m)
    /\ SignalSegment2Vec.init initial "segment2vec" 30 = Ok s2v
    /\ SignalSegmentRepresentation.segment2vec m = s2v
    /\ GNA.init initial "gna" segment_num GNA.default_reduction = Ok g
    /\ SignalSegmentRepresentation.gna m = g.
Proof.
  intros H. unfold SignalSegmentRepresentation.init in H. inv_res H. subst m.
  cbn. eauto 10.
Qed.

(** C2, as the code has it.  The stride of the segmentation stage is
    [int(W - W * r)], the float difference truncated toward zero (not
    [W - round(W * r)]); with that stride [s >= 1] and a window [1 <= W <= L],
    an input of size (B, 1, 1, L) is cut into exactly
    [K = floor((L - W) / s) + 1] segments, returned with size (B, K, 1, W).
    With L = 3000, W = 30 and r = 0.5 the stride is 15 and K = 199. *)
Theorem segmentation_stride_and_count
    (initial : initializer) (W : Z) (r : float) (segment_num : Z)
    (m : SignalSegmentRepresentation.t) (x : tensor) (B L : Z) :
  SignalSegmentRepresentation.init initial W r segment_num = Ok m ->
  size x = [B; 1; 1; L] ->
  1 <= W <= L ->
  1 <= SignalSegmentRepresentation.overlapping m ->
  let s := SignalSegmentRepresentation.overlapping m in
  SignalSegmentRepresentation.stride_of W r = Ok s
  /\ SignalSegmentDefinition.stride (SignalSegmentRepresentation.segment m) = s
  /\ returns (SignalSegmentDefinition.forward (SignalSegmentRepresentation.segment m) x)
             [B; (L - W) / s + 1; 1; W]
  /\ SignalSegmentRepresentation.stride_of 30 0.5%float = Ok 15
  /\ (3000 - 30) / 15 + 1 = 199.
Proof.
  intros Hm Hx HW Hs s.
  destruct (SignalSegmentRepresentation_init_inv _ _ _ _ _ Hm)
    as (s2v & g & Hstride & Hseg & _).
  split; [exact Hstride |]. rewrite Hseg.
  split; [reflexivity |].
  split; [| split; reflexivity].
  apply SignalSegmentDefinition_forward_size; cbn; auto; lia.
Qed.

Lemma segmentation_stride_and_count_witness :
  exists m,
    SignalSegmentRepresentation.init (fun _ _ => 0%R) 30 0.5%float 199 = Ok m
    /\ returns (SignalSegmentDefinition.forward
                  (SignalSegmentRepresentation.segment m)
                  (Tensor [4; 1; 1; 3000] (fun _ => 0%R)))
               [4; 199; 1; 30].
Proof.
  eexists. split; [reflexivity |].
  refine (proj1 (proj2 (proj2
            (segmentation_stride_and_count (fun _ _ => 0%R) 30 0.5%float 199 _
               (Tensor [4; 1; 1; 3000] (fun _ => 0%R)) 4 3000 _ _ _ _))));
    [reflexivity | reflexivity | lia | cbn; lia].
Defined.

(** C2 as stated fails: with W = 10 and overlap rate 0.125 the product
    W * r is 1.25, the code's stride is int(8.75) = 8 where the claimed
    W - round(W * r) is 9, and a signal of length 100 is cut into 12
    segments where the claimed formula gives 11. *)
Lemma stride_is_truncated_not_rounded :
  SignalSegmentRepresentation.stride_of 10 0.125%float = Ok 8
  /\ spec_stride 10 0.125%float = Ok 9
  /\ spec_segment_count 100 10 0.125%float = Ok 11
  /\ (m <- SignalSegmentRepresentation.init (fun _ _ => 0%R) 10 0.125%float 12 ;;
      y <- SignalSegmentDefinition.forward (SignalSegmentRepresentation.segment m)
             (Tensor [2; 1; 1; 100] (fun _ => 0%R)) ;;
      Ok (size y)) = Ok [2; 12; 1; 10].
Proof. repeat split; vm_compute; reflexivity. Qed.

(** * Construction of the global node attention *)

(** * Sizes returned by the layers *)

Lemma shape_eqb_refl (s : shape) : shape_eqb s s = true.
Proof. induction s as [| a s IH]; cbn; [reflexivity |]. rewrite Z.eqb_refl. exact IH. Qed.

Lemma shape_eqb_eq (s t : shape) : shape_eqb s t = true -> s = t.
Proof.
  revert t. induction s as [| a s IH]; intros [| b t]; cbn; try discriminate; auto.
  intros H. apply andb_prop in H as [Hab Hst].
  apply Z.eqb_eq in Hab. subst b. f_equal. auto.
Qed.

Lemma broadcast_rev_same (s : shape) : broadcast_rev s s = Ok s.
Proof.
  induction s as [| a s IH]; cbn; [reflexivity |].
  rewrite Z.eqb_refl. cbn. rewrite IH. cbn.
  destruct (a =? 1); reflexivity.
Qed.

Lemma broadcast_shapes_same (s : shape) : broadcast_shapes s s = Ok s.
Proof.
  unfold broadcast_shapes. rewrite broadcast_rev_same. cbn.
  rewrite rev_involutive. reflexivity.
Qed.

Lemma batch_ok_test (training : bool) (k : Z) :
  batch_ok training k -> negb (training && (k =? 1)) = true.
Proof.
  unfold batch_ok. destruct training; cbn; [| reflexivity].
  intros H. apply negb_true_iff, Z.eqb_neq. auto.
Qed.

Lemma Conv1d_forward_eq (m : Conv1d.t) (x : tensor) (n c l : Z) :
  size x = [n; c; l] ->
  0 < Conv1d.stride m -> 0 <= Conv1d.padding m -> 0 < Conv1d.kernel_size m ->
  0 < Conv1d.out_channels m ->
  c = Conv1d.in_channels m ->
  Conv1d.kernel_size m <= l + 2 * Conv1d.padding m ->
  Conv1d.forward m x
  = Ok (Tensor [n; Conv1d.out_channels m; Conv1d.out_length m l] (Conv1d.entry m x)).
Proof.
  intros Hx Hs Hp Hk Ho Hc Hl. unfold Conv1d.forward. rewrite Hx.
  do 3 pass. reflexivity.
Qed.

Lemma Conv2d_forward_eq (m : Conv2d.t) (x : tensor) (n c h w : Z) :
  size x = [n; c; h; w] ->
  0 < Conv2d.stride m -> 0 <= Conv2d.padding m -> 0 < Conv2d.kernel_size m ->
  0 < Conv2d.out_channels m ->
  c = Conv2d.in_channels m ->
  Conv2d.kernel_size m <= h + 2 * Conv2d.padding m ->
  Conv2d.kernel_size m <= w + 2 * Conv2d.padding m ->
  Conv2d.forward m x
  = Ok (Tensor [n; Conv2d.out_channels m; Conv2d.out_length m h; Conv2d.out_length m w]
               (Conv2d.entry m x)).
Proof.
  intros Hx Hs Hp Hk Ho Hc Hh Hw. unfold Conv2d.forward. rewrite Hx.
  do 3 pass. reflexivity.
Qed.

Lemma BatchNorm_forward1d_eq (training : bool) (m : BatchNorm.t) (x : tensor) (n c l : Z) :
  size x = [n; c; l] ->
  c = BatchNorm.num_features m ->
  batch_ok training (n * l) ->
  BatchNorm.forward1d training m x
  = Ok (Tensor [n; c; l] (BatchNorm.entry training m x)).
Proof.
  intros Hx Hc Hb. unfold BatchNorm.forward1d, BatchNorm.batch_norm. rewrite Hx.
  cbn [rank List.length Z.of_nat Pos.of_succ_nat Pos.succ numel fold_right].
  rewrite guard_true by reflexivity.
  rewrite Z.mul_1_r. rewrite guard_true by (apply batch_ok_test; exact Hb).
  pass. reflexivity.
Qed.

Lemma BatchNorm_forward2d_eq (training : bool) (m : BatchNorm.t) (x : tensor) (n c h w : Z) :
  size x = [n; c; h; w] ->
  c = BatchNorm.num_features m ->
  batch_ok training (n * (h * w)) ->
  BatchNorm.forward2d training m x
  = Ok (Tensor [n; c; h; w] (BatchNorm.entry training m x)).
Proof.
  intros Hx Hc Hb. unfold BatchNorm.forward2d, BatchNorm.batch_norm. rewrite Hx.
  cbn [rank List.length Z.of_nat Pos.of_succ_nat Pos.succ numel fold_right].
  rewrite guard_true by reflexivity.
  rewrite Z.mul_1_r. rewrite guard_true by (apply batch_ok_test; exact Hb).
  pass. reflexivity.
Qed.

Lemma MaxPool_forward1d_size (m : MaxPool.t) (x : tensor) (n c l : Z) :
  size x = [n; c; l] ->
  MaxPool.ok m l = true ->
  returns (MaxPool.forward1d m x) [n; c; MaxPool.out_length m l].
Proof.
  intros Hx Hok. unfold MaxPool.forward1d. rewrite Hx, Hok. apply returns_Ok. reflexivity.
Qed.

Lemma MaxPool_forward2d_size (m : MaxPool.t) (x : tensor) (n c h w : Z) :
  size x = [n; c; h; w] ->
  MaxPool.ok m h = true -> MaxPool.ok m w = true ->
  returns (MaxPool.forward2d m x) [n; c; MaxPool.out_length m h; MaxPool.out_length m w].
Proof.
  intros Hx Hh Hw. unfold MaxPool.forward2d. rewrite Hx, Hh, Hw.
  apply returns_Ok. reflexivity.
Qed.

Lemma Linear_forward_eq (m : Linear.t) (x : tensor) (s : shape) (k : Z) :
  size x = s ++ [k] ->
  k = Linear.in_features m ->
  Linear.forward m x = Ok (Tensor (s ++ [Linear.out_features m]) (Linear.entry m x)).
Proof.
  intros Hx Hk. unfold Linear.forward. rewrite Hx, rev_unit. pass.
  rewrite removelast_last. reflexivity.
Qed.

Lemma AdaptiveAvgPool1d_1_size (x : tensor) (n c l : Z) :
  size x = [n; c; l] -> 0 < l -> returns (AdaptiveAvgPool1d_1 x) [n; c; 1].
Proof.
  intros Hx Hl. unfold AdaptiveAvgPool1d_1. rewrite Hx. pass. apply returns_Ok. reflexivity.
Qed.

Lemma AdaptiveAvgPool2d_1_size (x : tensor) (n c h w : Z) :
  size x = [n; c; h; w] -> 0 < h -> 0 < w -> returns (AdaptiveAvgPool2d_1 x) [n; c; 1; 1].
Proof.
  intros Hx Hh Hw. unfold AdaptiveAvgPool2d_1. rewrite Hx. pass. apply returns_Ok. reflexivity.
Qed.

(** [x.view(req)] with every entry of [req] given. *)
Lemma view_explicit (req : list Z) (x : tensor) :
  Forall (fun d => 0 <= d) req ->
  numel req = numel (size x) ->
  view req x = Ok (Tensor req (fun i => item x (unravel (size x) (ravel req i)))).
Proof.
  intros Hreq Hn. unfold view, infer_size.
  assert (H1 : forallb (fun d => -1 <=? d) req = true).
  { apply forallb_forall. intros d Hd. rewrite Forall_forall in Hreq.
    apply Z.leb_le. specialize (Hreq d Hd). lia. }
  assert (H2 : filter (fun d => d =? -1) req = []).
  { clear H1 Hn. induction Hreq as [| d l Hd _ IH]; cbn; [reflexivity |].
    replace (d =? -1) with false by (symmetry; bfalse). exact IH. }
  assert (H3 : filter (fun d => negb (d =? -1)) req = req).
  { clear H1 H2 Hn. induction Hreq as [| d l Hd _ IH]; cbn; [reflexivity |].
    replace (d =? -1) with false by (symmetry; bfalse). cbn. f_equal. exact IH. }
  rewrite H1, H2, H3. cbn [guard bind].
  rewrite guard_true by (apply Z.eqb_eq; exact Hn). reflexivity.
Qed.

(** [x.view(b, 1, -1)] on a tensor of size (b, c, l). *)
Lemma view_b_1_rest (x : tensor) (b c l : Z) :
  size x = [b; c; l] -> 1 <= b -> 0 <= c -> 0 <= l ->
  returns (view [b; 1; -1] x) [b; 1; c * l].
Proof.
  intros Hx Hb Hc Hl. unfold view, infer_size. rewrite Hx.
  assert (Hb1 : (b =? -1) = false) by bfalse.
  assert (F1 : forallb (fun d => -1 <=? d) [b; 1; -1] = true).
  { cbn. rewrite (proj2 (Z.leb_le (-1) b)) by lia. reflexivity. }
  assert (F2 : filter (fun d => d =? -1) [b; 1; -1] = [-1]).
  { cbn. rewrite Hb1. reflexivity. }
  assert (F3 : filter (fun d => negb (d =? -1)) [b; 1; -1] = [b; 1]).
  { cbn. rewrite Hb1. reflexivity. }
  rewrite F1, F2, F3. cbn [guard bind numel fold_right].
  replace (b * (c * (l * 1))) with (c * l * (b * (1 * 1))) by ring.
  rewrite Z.mod_mul by lia. rewrite Z.div_mul by lia.
  rewrite guard_true by btrue.
  cbn [bind map]. rewrite Hb1.
  apply returns_Ok. reflexivity.
Qed.

Lemma view_size (req : list Z) (x : tensor) :
  Forall (fun d => 0 <= d) req ->
  numel req = numel (size x) ->
  returns (view req x) req.
Proof.
  intros H1 H2. rewrite view_explicit by assumption. apply returns_Ok. reflexivity.
Qed.

Lemma broadcast_rev_one_l (a : Z) (s t r : shape) :
  broadcast_rev s t = Ok r -> broadcast_rev (1 :: s) (a :: t) = Ok (a :: r).
Proof.
  intros H. cbn [broadcast_rev]. rewrite Z.eqb_refl, orb_true_r. cbn [orb guard bind].
  rewrite H. reflexivity.
Qed.

Lemma expand_as_last (y x : tensor) (s : shape) (l : Z) :
  size y = s ++ [1] -> size x = s ++ [l] ->
  expand_as y x = Ok (Tensor (s ++ [l]) (fun i => item y (bcast_index (size y) i))).
Proof.
  intros Hy Hx. unfold expand_as, broadcast_shapes.
  rewrite Hx. rewrite Hy at 1. rewrite !rev_unit.
  rewrite (broadcast_rev_one_l l _ _ (rev s)) by apply broadcast_rev_same.
  cbn [bind rev]. rewrite rev_involutive, shape_eqb_refl. reflexivity.
Qed.

Lemma expand_as_last2 (y x : tensor) (s : shape) (h w : Z) :
  size y = s ++ [1; 1] -> size x = s ++ [h; w] ->
  expand_as y x = Ok (Tensor (s ++ [h; w]) (fun i => item y (bcast_index (size y) i))).
Proof.
  intros Hy Hx. unfold expand_as, broadcast_shapes.
  rewrite Hx. rewrite Hy at 1.
  change (s ++ [1; 1]) with (s ++ [1] ++ [1]).
  change (s ++ [h; w]) with (s ++ [h] ++ [w]).
  rewrite !app_assoc, !rev_unit.
  rewrite (broadcast_rev_one_l w _ _ (h :: rev s))
    by (apply broadcast_rev_one_l, broadcast_rev_same).
  cbn [bind rev]. rewrite rev_involutive, <- !app_assoc. cbn [app].
  rewrite shape_eqb_refl. reflexivity.
Qed.

Lemma binary_same (op : R -> R -> R) (x y : tensor) :
  size y = size x ->
  binary op x y
  = Ok (Tensor (size x) (fun i => op (item x (bcast_index (size x) i))
                                     (item y (bcast_index (size x) i)))).
Proof.
  intros H. unfold binary. rewrite H, broadcast_shapes_same. reflexivity.
Qed.

Lemma iadd_same (x y : tensor) :
  size y = size x ->
  iadd x y
  = Ok (Tensor (size x) (fun i => (item x (bcast_index (size x) i)
                                   + item y (bcast_index (size x) i))%R)).
Proof.
  intros H. unfold iadd. rewrite H, broadcast_shapes_same. cbn [bind].
  rewrite shape_eqb_refl. reflexivity.
Qed.

(** The channel gate of the 1-d blocks keeps the size of its input. *)
Lemma ResLayer_forward_size
    (training : bool) (fc0 fc2 : Linear.t) (x : tensor) (B C L : Z) :
  size x = [B; C; L] ->
  0 <= B -> 0 <= C -> 0 < L ->
  Linear.in_features fc0 = C ->
  Linear.out_features fc0 = Linear.in_features fc2 ->
  Linear.out_features fc2 = C ->
  returns (ResLayer.forward training
             {| ResLayer.fc := [Linear_ fc0; GELU_; Linear_ fc2; Sigmoid_] |} x)
          [B; C; L].
Proof.
  intros Hx HB HC HL H0 H02 H2. unfold ResLayer.forward. rewrite Hx.
  eapply returns_bind; [eapply AdaptiveAvgPool1d_1_size; eassumption |].
  intros y1 Hy1.
  eapply returns_bind.
  { apply view_size; [repeat constructor; lia | rewrite Hy1; cbn; ring]. }
  intros y2 Hy2. cbn [ResLayer.fc Sequential_forward layer_forward].
  rewrite (Linear_forward_eq fc0 y2 [B] C) by auto. cbn [bind].
  rewrite (Linear_forward_eq fc2 _ [B] (Linear.out_features fc0)) by auto.
  cbn [bind app]. rewrite H2.
  eapply returns_bind.
  { apply view_size; [repeat constructor; lia | cbn; ring]. }
  intros y3 Hy3.
  rewrite (expand_as_last y3 x [B; C] L) by assumption. cbn [bind app].
  unfold mul. rewrite binary_same by (cbn [size]; auto).
  apply returns_Ok. cbn [size]. assumption.
Qed.

(** * What the constructors build *)

Lemma Conv1d_init_inv (initial : initializer) (name : string)
    (i o k s p : Z) (bias : bool) (m : Conv1d.t) :
  Conv1d.init initial name i o k s p bias = Ok m ->
  m = {| Conv1d.in_channels := i; Conv1d.out_channels := o;
         Conv1d.kernel_size := k; Conv1d.stride := s; Conv1d.padding := p;
         Conv1d.weight := initial (join name "weight");
         Conv1d.bias := if bias then Some (initial (join name "bias")) else None |}
  /\ 0 <= i /\ 0 <= o /\ 0 <= k.
Proof.
  unfold Conv1d.init. intros H. inv_res H. subst m. split; [reflexivity |].
  apply andb_prop in Hg as [Hg Hk]. apply andb_prop in Hg as [Hi Ho].
  apply Z.leb_le in Hi, Ho, Hk. auto.
Qed.

Lemma Conv2d_init_inv (initial : initializer) (name : string)
    (i o k s p : Z) (bias : bool) (m : Conv2d.t) :
  Conv2d.init initial name i o k s p bias = Ok m ->
  m = {| Conv2d.in_channels := i; Conv2d.out_channels := o;
         Conv2d.kernel_size := k; Conv2d.stride := s; Conv2d.padding := p;
         Conv2d.weight := initial (join name "weight");
         Conv2d.bias := if bias then Some (initial (join name "bias")) else None |}
  /\ 0 <= i /\ 0 <= o /\ 0 <= k.
Proof.
  unfold Conv2d.init. intros H. inv_res H. subst m. split; [reflexivity |].
  apply andb_prop in Hg as [Hg Hk]. apply andb_prop in Hg as [Hi Ho].
  apply Z.leb_le in Hi, Ho, Hk. auto.
Qed.

Lemma Linear_init_inv (initial : initializer) (name : string)
    (i o : Z) (bias : bool) (m : Linear.t) :
  Linear.init initial name i o bias = Ok m ->
  m = {| Linear.in_features := i; Linear.out_features := o;
         Linear.weight := initial (join name "weight");
         Linear.bias := if bias then Some (initial (join name "bias")) else None |}
  /\ 0 <= i /\ 0 <= o.
Proof.
  unfold Linear.init. intros H. inv_res H. subst m. split; [reflexivity |].
  apply andb_prop in Hg as [Hi Ho]. apply Z.leb_le in Hi, Ho. auto.
Qed.

Lemma BatchNorm_init_inv (n : Z) (m : BatchNorm.t) :
  BatchNorm.init n = Ok m ->
  m = {| BatchNorm.num_features := n; BatchNorm.eps := (1 / 100000)%R;
         BatchNorm.weight := fun _ => 1%R; BatchNorm.bias := fun _ => 0%R;
         BatchNorm.running_mean := fun _ => 0%R;
         BatchNorm.running_var := fun _ => 1%R |}
  /\ 0 <= n.
Proof.
  unfold BatchNorm.init. intros H. inv_res H. subst m. split; [reflexivity |].
  apply Z.leb_le in Hg. exact Hg.
Qed.

Lemma floordiv_inv (a b q : Z) : Py.floordiv a b = Ok q -> b <> 0 /\ q = a / b.
Proof.
  unfold Py.floordiv. destruct (b =? 0) eqn:E; [discriminate |].
  intros H. injection H as <-. apply Z.eqb_neq in E. auto.
Qed.

Lemma ResLayer_init_inv (initial : initializer) (name : string)
    (channel reduction : Z) (m : ResLayer.t) :
  ResLayer.init initial name channel reduction = Ok m ->
  exists fc0 fc2,
    m = {| ResLayer.fc := [Linear_ fc0; GELU_; Linear_ fc2; Sigmoid_] |}
    /\ Linear.in_features fc0 = channel
    /\ Linear.out_features fc0 = channel / reduction
    /\ Linear.in_features fc2 = channel / reduction
    /\ Linear.out_features fc2 = channel
    /\ Linear.bias fc0 = None /\ Linear.bias fc2 = None
    /\ 0 <= channel.
Proof.
  unfold ResLayer.init. intros H. inv_res H. subst m.
  apply floordiv_inv in Hb as [_ ->]. apply floordiv_inv in Hb1 as [_ ->].
  apply Linear_init_inv in Hb0 as [-> (? & ?)].
  apply Linear_init_inv in Hb2 as [-> (? & ?)].
  do 2 eexists. split; [reflexivity |]. cbn. auto 10.
Qed.

Lemma ResBasicBlock_init_inv (initial : initializer) (name : string)
    (inplanes planes stride : Z) (downsample : option Sequential) (reduction : Z)
    (b : ResBasicBlock.t) :
  ResBasicBlock.init initial name inplanes planes stride downsample reduction = Ok b ->
  exists c1 n1 c2 n2 r,
    b = {| ResBasicBlock.conv1 := c1; ResBasicBlock.bn1 := n1;
           ResBasicBlock.conv2 := c2; ResBasicBlock.bn2 := n2;
           ResBasicBlock.reslayer := r; ResBasicBlock.downsample := downsample;
           ResBasicBlock.stride := stride |}
    /\ Conv1d.init initial (join name "conv1") inplanes planes stride 1 0 true = Ok c1
    /\ BatchNorm.init planes = Ok n1
    /\ Conv1d.init initial (join name "conv2") planes planes 1 1 0 true = Ok c2
    /\ BatchNorm.init planes = Ok n2
    /\ ResLayer.init initial (join name "reslayer") planes reduction = Ok r.
Proof.
  unfold ResBasicBlock.init. intros H. inv_res H. subst b.
  do 5 eexists. split; [reflexivity |]. auto.
Qed.

Lemma Conv1d_out_length_pointwise (m : Conv1d.t) (l : Z) :
  Conv1d.kernel_size m = 1 -> Conv1d.stride m = 1 -> Conv1d.padding m = 0 ->
  Conv1d.out_length m l = l.
Proof.
  intros Hk Hs Hp. unfold Conv1d.out_length. rewrite Hk, Hs, Hp, Z.div_1_r. lia.
Qed.

(** A block of stride one keeps the batch and the length axes. *)
Lemma ResBasicBlock_forward_size
    (initial : initializer) (name : string) (inplanes planes : Z)
    (downsample : option Sequential) (reduction : Z) (b : ResBasicBlock.t)
    (training : bool) (x : tensor) (B L : Z) :
  ResBasicBlock.init initial name inplanes planes 1 downsample reduction = Ok b ->
  shortcut_of_stride_one inplanes planes downsample ->
  size x = [B; inplanes; L] ->
  1 <= planes -> 1 <= B -> 1 <= L -> batch_ok training (B * L) ->
  returns (ResBasicBlock.forward training b x) [B; planes; L].
Proof.
  intros Hb Hds Hx HP HB HL Hok.
  apply ResBasicBlock_init_inv in Hb
    as (c1 & n1 & c2 & n2 & r & -> & Hc1 & Hn1 & Hc2 & Hn2 & Hr).
  apply Conv1d_init_inv in Hc1 as (-> & ? & ? & _).
  apply Conv1d_init_inv in Hc2 as (-> & _).
  apply BatchNorm_init_inv in Hn1 as (-> & _).
  apply BatchNorm_init_inv in Hn2 as (-> & _).
  apply ResLayer_init_inv in Hr as (fc0 & fc2 & -> & F1 & F2 & F3 & F4 & _).
  unfold ResBasicBlock.forward.
  cbn [ResBasicBlock.conv1 ResBasicBlock.bn1 ResBasicBlock.conv2 ResBasicBlock.bn2
       ResBasicBlock.reslayer ResBasicBlock.downsample].
  rewrite (Conv1d_forward_eq _ x B inplanes L) by (cbn; auto; lia).
  rewrite Conv1d_out_length_pointwise by reflexivity.
  cbn [bind Conv1d.out_channels].
  rewrite (BatchNorm_forward1d_eq training _ _ B planes L) by (cbn; auto).
  cbn [bind].
  rewrite (Conv1d_forward_eq _ _ B planes L) by (cbn; auto; lia).
  rewrite Conv1d_out_length_pointwise by reflexivity.
  cbn [bind Conv1d.out_channels].
  rewrite (BatchNorm_forward1d_eq training _ _ B planes L) by (cbn; auto).
  cbn [bind].
  eapply returns_bind.
  { apply (ResLayer_forward_size training fc0 fc2 _ B planes L);
      cbn [size]; auto; try lia; congruence. }
  intros g Hg.
  destruct Hds as [[-> ->] | (c & bn & -> & D1 & D2 & D3 & D4 & D5 & D6)].
  - cbn [bind]. rewrite iadd_same by congruence. apply returns_Ok. cbn. exact Hg.
  - cbn [Sequential_forward layer_forward].
    rewrite (Conv1d_forward_eq c x B inplanes L) by (auto; lia).
    rewrite Conv1d_out_length_pointwise by assumption.
    cbn [bind]. rewrite D2.
    rewrite (BatchNorm_forward1d_eq training _ _ B planes L) by (cbn; auto).
    cbn [bind]. rewrite iadd_same by (cbn [size]; congruence).
    apply returns_Ok. cbn. exact Hg.
Qed.

Ltac inv_layers :=
  repeat match goal with
    | H : Conv1d.init _ _ _ _ _ _ _ _ = Ok _ |- _ =>
        apply Conv1d_init_inv in H as (-> & _)
    | H : Conv2d.init _ _ _ _ _ _ _ _ = Ok _ |- _ =>
        apply Conv2d_init_inv in H as (-> & _)
    | H : Linear.init _ _ _ _ _ = Ok _ |- _ =>
        apply Linear_init_inv in H as (-> & _)
    | H : BatchNorm.init _ = Ok _ |- _ =>
        apply BatchNorm_init_inv in H as (-> & _)
    end.

Lemma mapM_inv {A B : Type} (f : A -> result B) (l : list A) (ys : list B) :
  mapM f l = Ok ys -> Forall2 (fun x y => f x = Ok y) l ys.
Proof.
  revert ys. induction l as [| x l IH]; cbn; intros ys H.
  - injection H as <-. constructor.
  - inv_res H. subst ys. constructor; auto.
Qed.

(** What [SignalSegment2Vec._make_layer] returns. *)
Lemma SignalSegment2Vec_make_layer_inv (initial : initializer) (name : string)
    (inplanes planes blocks stride : Z) (layers : list ResBasicBlock.t) (inplanes' : Z) :
  SignalSegment2Vec._make_layer initial name inplanes planes blocks stride
    = Ok (layers, inplanes') ->
  exists ds first others,
    layers = first :: others /\ inplanes' = planes
    /\ ResBasicBlock.init initial (join name "0") inplanes planes stride ds
         ResBasicBlock.default_reduction = Ok first
    /\ Forall2 (fun i b => ResBasicBlock.init initial (join name (Py.str i))
                             planes planes 1 None ResBasicBlock.default_reduction = Ok b)
               (range_from 1 blocks) others
    /\ ((stride = 1 /\ inplanes = planes /\ ds = None)
        \/ ((stride <> 1 \/ inplanes <> planes)
            /\ exists c bn,
                 ds = Some [Conv1d_ c; BatchNorm1d_ bn]
                 /\ Conv1d.init initial (join name "0.downsample.0")
                      inplanes planes 1 stride 0 false = Ok c
                 /\ BatchNorm.init planes = Ok bn)).
Proof.
  unfold SignalSegment2Vec._make_layer, ResBasicBlock.expansion,
    ResBasicBlock.default_stride.
  rewrite !Z.mul_1_r. intros H. inv_res H.
  injection H as <- <-.
  exists a, a0, a1. split; [reflexivity |]. split; [reflexivity |].
  split; [assumption |]. split; [apply mapM_inv; assumption |].
  destruct (stride =? 1) eqn:E1; destruct (inplanes =? planes) eqn:E2; cbn in Hb;
    rewrite ?Z.eqb_eq, ?Z.eqb_neq in *.
  1: { left. injection Hb as <-. auto. }
  all: right; split; [lia |]; inv_res Hb; subst a; eauto.
Qed.

Lemma range_zero : range 0 = [].
Proof. reflexivity. Qed.

(** What [SignalSegment2Vec.__init__] builds. *)
Lemma SignalSegment2Vec_init_inv (initial : initializer) (name : string) (afr : Z)
    (m : SignalSegment2Vec.t) :
  SignalSegment2Vec.init initial name afr = Ok m ->
  exists c0 c4 c7 b1 b5 b8 ds blk,
    SignalSegment2Vec.features m
    = [Conv1d_ c0; BatchNorm1d_ b1; GELU_;
       MaxPool1d_ {| MaxPool.kernel_size := 7; MaxPool.stride := 4; MaxPool.padding := 7 / 2 |};
       Conv1d_ c4; BatchNorm1d_ b5; GELU_;
       Conv1d_ c7; BatchNorm1d_ b8; GELU_;
       MaxPool1d_ {| MaxPool.kernel_size := 3; MaxPool.stride := 4; MaxPool.padding := 3 / 2 |}]
    /\ Conv1d.init initial (join name "features.0") 1 64 49 6 (49 / 2) false = Ok c0
    /\ Conv1d.init initial (join name "features.4") 64 128 7 1 (7 / 2) false = Ok c4
    /\ Conv1d.init initial (join name "features.7") 128 128 7 1 (7 / 2) false = Ok c7
    /\ BatchNorm.init 64 = Ok b1 /\ BatchNorm.init 128 = Ok b5 /\ BatchNorm.init 128 = Ok b8
    /\ SignalSegment2Vec.AFR m = [blk]
    /\ ResBasicBlock.init initial (join (join name "AFR") "0") 128 afr 1 ds
         ResBasicBlock.default_reduction = Ok blk
    /\ shortcut_of_stride_one 128 afr ds.
Proof.
  unfold SignalSegment2Vec.init. intros H. inv_res H. subst m.
  match goal with
  | Hl : SignalSegment2Vec._make_layer _ _ _ _ _ _ = Ok _ |- _ =>
      apply SignalSegment2Vec_make_layer_inv in Hl
        as (ds & first & others & -> & -> & Hfirst & Hothers & Hds)
  end.
  inversion Hothers; subst.
  cbn [SignalSegment2Vec.features SignalSegment2Vec.AFR].
  do 6 eexists. exists ds, first.
  repeat (split; [first [reflexivity | eassumption] |]).
  destruct Hds as [(_ & <- & ->) | (Hne & c & bn & -> & Hc & Hbn)].
  - left. auto.
  - right. apply Conv1d_init_inv in Hc as (-> & _).
    apply BatchNorm_init_inv in Hbn as (-> & _).
    do 2 eexists. split; [reflexivity |]. cbn. auto 10.
Qed.

Lemma batch_ok_mul (training : bool) (B l : Z) :
  batch_ok training B -> 1 <= B -> 1 <= l -> batch_ok training (B * l).
Proof. unfold batch_ok. intros H HB Hl Ht. specialize (H Ht). nia. Qed.

Lemma blocks_forward_one {B : Type} (fwd : B -> tensor -> result tensor) (b : B)
    (x : tensor) :
  blocks_forward fwd [b] x = fwd b x.
Proof. cbn. destruct (fwd b x); reflexivity. Qed.

(** The convolutions and poolings of the encoder. *)
Lemma SignalSegment2Vec_features_size
    (initial : initializer) (name : string) (afr : Z) (m : SignalSegment2Vec.t)
    (training : bool) (x : tensor) (B W : Z) :
  SignalSegment2Vec.init initial name afr = Ok m ->
  size x = [B; 1; W] ->
  1 <= B -> 1 <= W -> batch_ok training B ->
  returns (Sequential_forward training (SignalSegment2Vec.features m) x)
          [B; 128; encoded_length W]
  /\ 1 <= encoded_length W.
Proof.
  intros Hm Hx HB HW Hok.
  apply SignalSegment2Vec_init_inv in Hm
    as (c0 & c4 & c7 & b1 & b5 & b8 & ds & blk & Hf & Hc0 & Hc4 & Hc7
        & Hb1 & Hb5 & Hb8 & HA & Hblk & Hds).
  inv_layers. rewrite Hf.
  cbn [Sequential_forward layer_forward].
  unfold encoded_length.
  set (l1 := (W + 2 * (49 / 2) - 49) / 6 + 1).
  set (l2 := (l1 + 2 * (7 / 2) - 7) / 4 + 1).
  set (l3 := (l2 + 2 * (7 / 2) - 7) / 1 + 1).
  set (l4 := (l3 + 2 * (7 / 2) - 7) / 1 + 1).
  set (l5 := (l4 + 2 * (3 / 2) - 3) / 4 + 1).
  assert (H1 : 1 <= l1) by (subst l1; lia).
  assert (H2 : 1 <= l2) by (subst l2; lia).
  assert (H3 : l3 = l2) by (subst l3; lia).
  assert (H4 : l4 = l2) by (subst l4; lia).
  assert (H5 : 1 <= l5) by (subst l5; lia).
  split; [| exact H5].
  rewrite (Conv1d_forward_eq _ x B 1 W) by (cbn; auto; lia).
  cbn [bind Conv1d.out_channels].
  change (Conv1d.out_length _ W) with l1.
  rewrite (BatchNorm_forward1d_eq training _ _ B 64 l1)
    by (cbn; auto using batch_ok_mul).
  cbn [bind].
  eapply returns_bind.
  { apply (MaxPool_forward1d_size _ _ B 64 l1); [reflexivity |].
    unfold MaxPool.ok, MaxPool.out_length.
    cbn [MaxPool.kernel_size MaxPool.stride MaxPool.padding].
    fold l2. btrue. }
  intros y3 Hy3.
  unfold MaxPool.out_length in Hy3.
  cbn [MaxPool.kernel_size MaxPool.stride MaxPool.padding] in Hy3. fold l2 in Hy3.
  rewrite (Conv1d_forward_eq _ y3 B 64 l2) by (cbn; auto; lia).
  cbn [bind Conv1d.out_channels].
  change (Conv1d.out_length _ l2) with l3.
  rewrite (BatchNorm_forward1d_eq training _ _ B 128 l3)
    by (cbn; auto; apply batch_ok_mul; auto; lia).
  cbn [bind].
  rewrite (Conv1d_forward_eq _ _ B 128 l3) by (cbn; auto; lia).
  cbn [bind Conv1d.out_channels].
  change (Conv1d.out_length _ l3) with l4.
  rewrite (BatchNorm_forward1d_eq training _ _ B 128 l4)
    by (cbn; auto; apply batch_ok_mul; auto; lia).
  cbn [bind].
  eapply returns_bind.
  { apply (MaxPool_forward1d_size _ _ B 128 l4); [reflexivity |].
    unfold MaxPool.ok, MaxPool.out_length.
    cbn [MaxPool.kernel_size MaxPool.stride MaxPool.padding].
    fold l5. btrue. }
  intros y10 Hy10. apply returns_Ok. exact Hy10.
Qed.

(** The encoder: a segment of length [W] becomes
    [afr_reduced_cnn_size] channels of length [encoded_length W]. *)
Lemma SignalSegment2Vec_forward_size
    (initial : initializer) (name : string) (afr : Z) (m : SignalSegment2Vec.t)
    (training : bool) (x : tensor) (B W : Z) :
  SignalSegment2Vec.init initial name afr = Ok m ->
  size x = [B; 1; W] ->
  1 <= afr -> 1 <= B -> 1 <= W -> batch_ok training B ->
  returns (SignalSegment2Vec.forward training m x) [B; afr; encoded_length W].
Proof.
  intros Hm Hx Hafr HB HW Hok.
  destruct (SignalSegment2Vec_features_size _ _ _ _ training x B W Hm Hx HB HW Hok)
    as [Hfeat Hlen].
  apply SignalSegment2Vec_init_inv in Hm
    as (c0 & c4 & c7 & b1 & b5 & b8 & ds & blk & Hf & Hc0 & Hc4 & Hc7
        & Hb1 & Hb5 & Hb8 & HA & Hblk & Hds).
  unfold SignalSegment2Vec.forward.
  eapply returns_bind; [exact Hfeat |].
  intros y Hy. rewrite HA, blocks_forward_one.
  eapply ResBasicBlock_forward_size; eauto using batch_ok_mul.
Qed.

Example encoded_length_30 : encoded_length 30 = 1.
Proof. reflexivity. Qed.

(** * The first convolution of ResBasicBlock *)

(** C10.  [nn.Conv1d(inplanes, planes, stride)] passes [stride] as the
    kernel size: a block constructed with stride parameter [s] has a first
    convolution of kernel size [s] and stride 1 (and a second one of kernel
    size 1, stride 1).  The block [SignalSegment2Vec] builds has stride
    parameter 1, so both convolutions are pointwise, and its forward pass
    maps an input of size (B, 128, L) to (B, afr_reduced_cnn_size, L). *)
Theorem ResBasicBlock_conv1_kernel_is_stride
    (initial : initializer) (name : string) (afr : Z) (m : SignalSegment2Vec.t) :
  SignalSegment2Vec.init initial name afr = Ok m ->
  (forall (name' : string) (inplanes planes s : Z) (downsample : option Sequential)
          (reduction : Z) (b : ResBasicBlock.t),
      ResBasicBlock.init initial name' inplanes planes s downsample reduction = Ok b ->
      Conv1d.kernel_size (ResBasicBlock.conv1 b) = s
      /\ Conv1d.stride (ResBasicBlock.conv1 b) = 1
      /\ Conv1d.kernel_size (ResBasicBlock.conv2 b) = 1
      /\ Conv1d.stride (ResBasicBlock.conv2 b) = 1)
  /\ exists blk,
       SignalSegment2Vec.AFR m = [blk]
       /\ ResBasicBlock.stride blk = 1
       /\ Conv1d.kernel_size (ResBasicBlock.conv1 blk) = 1
       /\ Conv1d.stride (ResBasicBlock.conv1 blk) = 1
       /\ Conv1d.kernel_size (ResBasicBlock.conv2 blk) = 1
       /\ Conv1d.stride (ResBasicBlock.conv2 blk) = 1
       /\ forall (training : bool) (x : tensor) (B L : Z),
            size x = [B; 128; L] ->
            1 <= afr -> 1 <= B -> 1 <= L -> batch_ok training (B * L) ->
            returns (ResBasicBlock.forward training blk x) [B; afr; L].
Proof.
  intros Hm.
  assert (Hconv : forall name' inplanes planes s downsample reduction b,
             ResBasicBlock.init initial name' inplanes planes s downsample reduction = Ok b ->
             ResBasicBlock.stride b = s
             /\ Conv1d.kernel_size (ResBasicBlock.conv1 b) = s
             /\ Conv1d.stride (ResBasicBlock.conv1 b) = 1
             /\ Conv1d.kernel_size (ResBasicBlock.conv2 b) = 1
             /\ Conv1d.stride (ResBasicBlock.conv2 b) = 1).
  { intros name' inplanes planes s downsample reduction b Hb.
    apply ResBasicBlock_init_inv in Hb
      as (c1 & n1 & c2 & n2 & r & -> & Hc1 & _ & Hc2 & _).
    apply Conv1d_init_inv in Hc1 as (-> & _).
    apply Conv1d_init_inv in Hc2 as (-> & _).
    cbn. auto. }
  split.
  - intros name' inplanes planes s downsample reduction b Hb.
    apply Hconv in Hb. tauto.
  - apply SignalSegment2Vec_init_inv in Hm
      as (c0 & c4 & c7 & b1 & b5 & b8 & ds & blk & _ & _ & _ & _
          & _ & _ & _ & HA & Hblk & Hds).
    exists blk. split; [exact HA |].
    destruct (Hconv _ _ _ _ _ _ _ Hblk) as (K0 & K1 & K2 & K3 & K4).
    repeat (split; [assumption |]).
    intros training x B L Hx Hafr HB HL Hok.
    eapply ResBasicBlock_forward_size; eauto.
Qed.

Lemma ResBasicBlock_conv1_kernel_is_stride_witness :
  exists m blk,
    SignalSegment2Vec.init (fun _ _ => 0%R) "segment2vec" 30 = Ok m
    /\ SignalSegment2Vec.AFR m = [blk]
    /\ Conv1d.kernel_size (ResBasicBlock.conv1 blk) = 1
    /\ returns (ResBasicBlock.forward true blk (Tensor [2; 128; 1] (fun _ => 0%R)))
               [2; 30; 1].
Proof.
  eexists.
  destruct (ResBasicBlock_conv1_kernel_is_stride
              (fun _ _ => 0%R) "segment2vec" 30 _ eq_refl)
    as [_ (blk & HA & _ & Hk & _ & _ & _ & Hf)].
  exists blk. split; [reflexivity |]. split; [exact HA |]. split; [exact Hk |].
  apply Hf; [reflexivity | lia | lia | lia | intros _; lia].
Defined.

(** * The representation of a batch of signals *)

Lemma range_bounds (n i : Z) : In i (range n) -> 0 <= i < n.
Proof.
  unfold range. rewrite in_map_iff. intros (k & <- & Hk).
  apply in_seq in Hk. lia.
Qed.

Lemma range_length (n : Z) : 0 <= n -> Z.of_nat (List.length (range n)) = n.
Proof. intros Hn. unfold range. rewrite length_map, length_seq. lia. Qed.

Lemma squeeze_size (x : tensor) :
  returns (squeeze x) (filter (fun d => negb (d =? 1)) (size x)).
Proof. apply returns_Ok. reflexivity. Qed.

Lemma getitem_colon_int_colon_size (idx : Z) (x : tensor) (b k c : Z) (rest : shape) :
  size x = b :: k :: c :: rest ->
  0 <= idx < k ->
  returns (getitem_colon_int_colon idx x) (b :: c :: rest).
Proof.
  intros Hx Hi. unfold getitem_colon_int_colon, wrap_dim. rewrite Hx. pass.
  apply returns_Ok. reflexivity.
Qed.

(** A loop whose body returns a tensor of size [s] at every step. *)
Lemma mapM_returns {A : Type} (body : A -> result tensor) (xs : list A) (s : shape) :
  (forall a, In a xs -> returns (body a) s) ->
  exists ys, mapM body xs = Ok ys
             /\ Forall (fun y => size y = s) ys
             /\ List.length ys = List.length xs.
Proof.
  induction xs as [| a xs IH]; intros H.
  - exists []. cbn. auto.
  - destruct (H a (or_introl eq_refl)) as (y & Hy & Hs).
    destruct IH as (ys & Hys & Hall & Hlen); [intros; apply H; right; assumption |].
    exists (y :: ys). cbn. rewrite Hy. cbn. rewrite Hys. cbn. auto.
Qed.

(** [torch.cat(ys, dim=1)] of tensors of size (b, 1, c). *)
Lemma cat_dim1_size (ys : list tensor) (b c : Z) :
  ys <> [] ->
  Forall (fun y => size y = [b; 1; c]) ys ->
  returns (cat ys 1) [b; Z.of_nat (List.length ys); c].
Proof.
  intros Hne Hall. destruct ys as [| y0 ys]; [congruence |].
  assert (H0 : size y0 = [b; 1; c]) by (inversion Hall; assumption).
  unfold cat. rewrite H0.
  replace (wrap_dim 1 (rank [b; 1; c])) with (Ok (A := Z) 1) by reflexivity.
  cbn [bind].
  assert (Hchk : forallb (fun x => shape_eqb (replace_at 1 0 (size x))
                                             (replace_at 1 0 [b; 1; c])) (y0 :: ys) = true).
  { apply forallb_forall. intros y Hy. rewrite Forall_forall in Hall.
    rewrite (Hall y Hy). apply shape_eqb_refl. }
  rewrite Hchk. cbn [guard bind].
  assert (Hsum : fold_right (fun x acc => dim (size x) (Z.to_nat 1) + acc) 0 (y0 :: ys)
                 = Z.of_nat (List.length (y0 :: ys))).
  { clear Hchk Hne H0. induction Hall as [| y l Hy _ IH]; [reflexivity |].
    cbn [fold_right List.length]. rewrite IH, Hy.
    change (dim [b; 1; c] (Z.to_nat 1)) with 1. lia. }
  rewrite Hsum. apply returns_Ok. reflexivity.
Qed.

Lemma GNA_init_inv (initial : initializer) (name : string) (channel reduction : Z)
    (g : GNA.t) :
  GNA.init initial name channel reduction = Ok g ->
  exists fc0 fc2,
    g = {| GNA.fc := [Conv2d_ fc0; GELU_; Conv2d_ fc2; Sigmoid_] |}
    /\ Conv2d.in_channels fc0 = channel
    /\ Conv2d.out_channels fc0 = Conv2d.in_channels fc2
    /\ Conv2d.out_channels fc2 = channel
    /\ Conv2d.out_channels fc0 = channel / reduction
    /\ Conv2d.kernel_size fc0 = 1 /\ Conv2d.stride fc0 = 1 /\ Conv2d.padding fc0 = 0
    /\ Conv2d.kernel_size fc2 = 1 /\ Conv2d.stride fc2 = 1 /\ Conv2d.padding fc2 = 0.
Proof.
  unfold GNA.init. intros H. inv_res H. subst g.
  repeat match goal with
         | Hd : Py.floordiv _ _ = Ok _ |- _ => apply floordiv_inv in Hd as [_ ->]
         end.
  inv_layers. do 2 eexists. split; [reflexivity |]. cbn. auto 12.
Qed.

Lemma Conv2d_out_length_pointwise (m : Conv2d.t) (l : Z) :
  Conv2d.kernel_size m = 1 -> Conv2d.stride m = 1 -> Conv2d.padding m = 0 ->
  Conv2d.out_length m l = l.
Proof.
  intros Hk Hs Hp. unfold Conv2d.out_length. rewrite Hk, Hs, Hp, Z.div_1_r. lia.
Qed.

(** The global node attention keeps the size of its input. *)
Lemma GNA_forward_size
    (initial : initializer) (name : string) (channel reduction : Z) (g : GNA.t)
    (training : bool) (x : tensor) (B H W : Z) :
  GNA.init initial name channel reduction = Ok g ->
  size x = [B; channel; H; W] ->
  1 <= channel -> 1 <= channel / reduction ->
  0 < H -> 0 < W ->
  returns (GNA.forward training g x) [B; channel; H; W].
Proof.
  intros Hg Hx Hch Hhid HH HW.
  apply GNA_init_inv in Hg
    as (fc0 & fc2 & -> & I0 & I02 & I2 & O0 & K0 & S0 & P0 & K2 & S2 & P2).
  unfold GNA.forward. rewrite Hx.
  eapply returns_bind; [eapply AdaptiveAvgPool2d_1_size; eassumption |].
  intros y1 Hy1. cbn [GNA.fc Sequential_forward layer_forward].
  rewrite (Conv2d_forward_eq fc0 y1 B channel 1 1) by (auto; lia).
  rewrite !Conv2d_out_length_pointwise by assumption. cbn [bind].
  rewrite (Conv2d_forward_eq fc2 _ B (Conv2d.out_channels fc0) 1 1)
    by (cbn [size]; auto; lia).
  rewrite !Conv2d_out_length_pointwise by assumption. cbn [bind]. rewrite I2.
  rewrite (expand_as_last2 _ x [B; channel] H W) by (cbn [size app]; auto).
  cbn [bind app]. unfold mul. rewrite binary_same by (cbn [size]; auto).
  apply returns_Ok. cbn [size]. exact Hx.
Qed.

(** C8, as the code has it.  [GNA.__init__] makes no divisibility check:
    for every channel count and every reduction with
    [1 <= reduction <= channel], divisible or not, construction succeeds, the
    squeeze has [channel // reduction] (floor division) output channels, and
    the model runs: its forward pass returns on every input with [channel]
    channels.  Two reductions are refused, none of them for divisibility:
    a reduction of 0, with ZeroDivisionError, and a negative reduction, with
    RuntimeError (the squeeze would have [channel // reduction < 0]
    channels). *)
Theorem GNA_init_floor_division
    (initial : initializer) (name : string) (channel reduction : Z)
    (training : bool) (x : tensor) (B H W : Z) :
  1 <= reduction <= channel ->
  size x = [B; channel; H; W] -> 1 <= H -> 1 <= W ->
  (exists fc0 fc2 g,
     GNA.init initial name channel reduction = Ok g
     /\ g = {| GNA.fc := [Conv2d_ fc0; GELU_; Conv2d_ fc2; Sigmoid_] |}
     /\ Conv2d.in_channels fc0 = channel
     /\ Conv2d.out_channels fc0 = channel / reduction
     /\ Conv2d.in_channels fc2 = channel / reduction
     /\ Conv2d.out_channels fc2 = channel
     /\ returns (GNA.forward training g x) [B; channel; H; W])
  /\ GNA.init initial name channel 0 = Raise ZeroDivisionError
  /\ (forall negative, negative < 0 ->
      GNA.init initial name channel negative = Raise RuntimeError).
Proof.
  intros Hr Hx HH HW. split; [| split; [reflexivity |]].
  2: { intros r Hneg. unfold GNA.init, Py.floordiv.
       replace (r =? 0) with false by (symmetry; bfalse).
       cbn [bind]. unfold Conv2d.init.
       assert (Hq : channel / r < 0).
       { pose proof (Z.div_mod channel r ltac:(lia)) as Hdm.
         pose proof (Z.mod_neg_bound channel r Hneg) as Hm. nia. }
       rewrite guard_false by bfalse. reflexivity. }
  assert (Hhid : 1 <= channel / reduction).
  { apply Z.div_le_lower_bound; lia. }
  assert (Hinit : exists g, GNA.init initial name channel reduction = Ok g).
  { unfold GNA.init, Py.floordiv.
    replace (reduction =? 0) with false by (symmetry; bfalse).
    cbn [bind]. unfold Conv2d.init. do 2 pass. eexists. reflexivity. }
  destruct Hinit as (g & Hg).
  pose proof (GNA_forward_size _ _ _ _ _ training x B H W Hg Hx
                ltac:(lia) Hhid ltac:(lia) ltac:(lia)) as Hrun.
  destruct (GNA_init_inv _ _ _ _ _ Hg)
    as (fc0 & fc2 & Eg & I0 & I02 & I2 & O0 & _).
  exists fc0, fc2, g. repeat (split; [first [assumption | congruence] |]).
  exact Hrun.
Qed.

Lemma GNA_init_floor_division_witness :
  exists fc0 fc2 g,
    GNA.init (fun _ _ => 0%R) "gna" 5 2 = Ok g
    /\ g = {| GNA.fc := [Conv2d_ fc0; GELU_; Conv2d_ fc2; Sigmoid_] |}
    /\ Conv2d.out_channels fc0 = 5 / 2
    /\ returns (GNA.forward false g (Tensor [1; 5; 1; 30] (fun _ => 0%R))) [1; 5; 1; 30].
Proof.
  destruct (GNA_init_floor_division (fun _ _ => 0%R) "gna" 5 2 false
              (Tensor [1; 5; 1; 30] (fun _ => 0%R)) 1 1 30
              ltac:(lia) eq_refl ltac:(lia) ltac:(lia))
    as ((fc0 & fc2 & g & Hg & Eg & _ & O0 & _ & _ & Hrun) & _).
  exists fc0, fc2, g. auto.
Defined.

(** C8 as stated fails: [GNA(5)] (reduction 2, which does not divide 5) is
    constructed without an error, with a squeeze of 2 channels, and its
    forward pass runs on an input of 5 segments. *)
Lemma GNA_five_segments_constructs_and_runs :
  exists m,
    GNA.init (fun _ _ => 0%R) "gna" 5 GNA.default_reduction = Ok m
    /\ returns (GNA.forward false m (Tensor [2; 5; 1; 3] (fun _ => 1%R))) [2; 5; 1; 3].
Proof.
  eexists. split; [reflexivity |].
  apply returns_of_size. vm_compute. reflexivity.
Qed.

(** The representation of [B >= 2] signals: size (B, 1, K, C), where [K] is
    the number of segments and [C = 30 * encoded_length W] the length of a
    segment's feature vector. *)
Lemma SignalSegmentRepresentation_forward_size
    (initial : initializer) (W : Z) (r : float) (segment_num : Z)
    (m : SignalSegmentRepresentation.t) (training : bool) (x : tensor) (B L : Z) :
  SignalSegmentRepresentation.init initial W r segment_num = Ok m ->
  size x = [B; 1; 1; L] ->
  2 <= B -> 2 <= W <= L ->
  1 <= SignalSegmentRepresentation.overlapping m ->
  2 <= (L - W) / SignalSegmentRepresentation.overlapping m + 1 ->
  segment_num = (L - W) / SignalSegmentRepresentation.overlapping m + 1 ->
  returns (SignalSegmentRepresentation.forward training m x)
          [B; 1; (L - W) / SignalSegmentRepresentation.overlapping m + 1;
           30 * encoded_length W].
Proof.
  intros Hm Hx HB HW Hs HK Hnum.
  destruct (SignalSegmentRepresentation_init_inv _ _ _ _ _ Hm)
    as (s2v & g & _ & Hseg & Hs2v & Es2v & Hg & Eg).
  set (K := (L - W) / SignalSegmentRepresentation.overlapping m + 1) in *.
  unfold SignalSegmentRepresentation.forward.
  eapply returns_bind.
  { rewrite Hseg. apply (SignalSegmentDefinition_forward_size _ x B L W);
      cbn; auto; lia. }
  intros x1 H1. cbn [SignalSegmentDefinition.init SignalSegmentDefinition.stride] in H1.
  fold K in H1.
  eapply returns_bind; [apply squeeze_size |].
  intros x2 H2. rewrite H1 in H2. cbn [filter] in H2.
  replace (B =? 1) with false in H2 by (symmetry; bfalse).
  replace (K =? 1) with false in H2 by (symmetry; bfalse).
  replace (W =? 1) with false in H2 by (symmetry; bfalse).
  cbn in H2.
  unfold size_at at 1. rewrite H2. cbn [nth_error bind].
  pose proof (SignalSegment2Vec_features_size _ _ _ _ training
                (Tensor [B; 1; W] (fun _ => 0%R)) B W Hs2v eq_refl
                ltac:(lia) ltac:(lia) ltac:(intros _; lia)) as [_ Hlen].
  match goal with
  | |- context [mapM ?body ?l] =>
      destruct (mapM_returns body l [B; 1; 30 * encoded_length W])
        as (ys & Hys & Hall & Hlength)
  end.
  { intros idx Hidx. apply range_bounds in Hidx.
    eapply returns_bind; [eapply getitem_colon_int_colon_size; eassumption |].
    intros d1 Hd1.
    eapply returns_bind; [apply (unsqueeze_Ok _ _ 1); rewrite Hd1; reflexivity |].
    intros d2 Hd2. rewrite Hd1 in Hd2.
    eapply returns_bind.
    { rewrite Es2v. eapply SignalSegment2Vec_forward_size;
        [eassumption | exact Hd2 | lia | lia | lia | intros _; lia]. }
    intros out Hout. unfold size_at. rewrite H2. cbn [nth_error bind].
    eapply view_b_1_rest; [eassumption | lia | lia | lia]. }
  rewrite Hys. cbn [bind].
  assert (HlenK : Z.of_nat (List.length ys) = K).
  { rewrite Hlength. apply range_length. lia. }
  eapply returns_bind.
  { apply cat_dim1_size; [| exact Hall].
    intros ->. cbn in HlenK. lia. }
  intros c1 Hc1. rewrite HlenK in Hc1.
  eapply returns_bind; [apply (unsqueeze_Ok _ _ 2); rewrite Hc1; reflexivity |].
  intros c2 Hc2. rewrite Hc1 in Hc2.
  eapply returns_bind.
  { rewrite Eg. eapply GNA_forward_size;
      [exact Hg | rewrite Hnum; exact Hc2 | lia | unfold GNA.default_reduction; lia
      | lia | lia]. }
  intros c3 Hc3. apply permute_0213. rewrite Hnum in Hc3. exact Hc3.
Qed.

(** C3, as the code has it.  For every input of size (B, 1, 1, L) with
    [B >= 2] signals, cut into [K >= 2] windows of length [W >= 2], the
    tensor returned after the global node attention and
    [permute(0, 2, 1, 3)] has size (B, 1, K, C): axis order
    (batch, 1, num_segments, features), where [C = 30 * encoded_length W]
    is the length of a segment's flattened feature vector. *)
Theorem representation_axis_order
    (initial : initializer) (W : Z) (r : float) (segment_num : Z)
    (m : SignalSegmentRepresentation.t) (training : bool) (x : tensor) (B L : Z) :
  SignalSegmentRepresentation.init initial W r segment_num = Ok m ->
  size x = [B; 1; 1; L] ->
  2 <= B -> 2 <= W <= L ->
  1 <= SignalSegmentRepresentation.overlapping m ->
  2 <= (L - W) / SignalSegmentRepresentation.overlapping m + 1 ->
  segment_num = (L - W) / SignalSegmentRepresentation.overlapping m + 1 ->
  exists y,
    SignalSegmentRepresentation.forward training m x = Ok y
    /\ size y = [B; 1; segment_num; 30 * encoded_length W].
Proof.
  intros Hm Hx HB HW Hs HK Hnum. subst segment_num.
  eapply SignalSegmentRepresentation_forward_size; first [eassumption | reflexivity].
Qed.

Lemma representation_axis_order_witness :
  exists m y,
    SignalSegmentRepresentation.init (fun _ _ => 0%R) 30 0.5%float 199 = Ok m
    /\ SignalSegmentRepresentation.forward true m (Tensor [4; 1; 1; 3000] (fun _ => 0%R))
       = Ok y
    /\ size y = [4; 1; 199; 30 * encoded_length 30].
Proof.
  assert (Hinit : exists m,
             SignalSegmentRepresentation.init (fun _ _ => 0%R) 30 0.5%float 199 = Ok m
             /\ SignalSegmentRepresentation.overlapping m = 15).
  { eexists. split; reflexivity. }
  destruct Hinit as (m & Hm & Hov). exists m.
  destruct (representation_axis_order (fun _ _ => 0%R) 30 0.5%float 199 m true
              (Tensor [4; 1; 1; 3000] (fun _ => 0%R)) 4 3000 Hm eq_refl)
    as (y & Hy & Hsize); rewrite ?Hov; try lia; try reflexivity.
  exists y. auto.
Defined.

(** C3 as stated fails: two signals of length 3000, windows of 30 with
    overlap 0.5, give a representation of size (2, 1, 199, 30), not
    (2, 30, 1, 199) = (batch, channels_enc, 1, num_segments). *)
Lemma representation_is_not_channels_first :
  (m <- SignalSegmentRepresentation.init (fun _ _ => 0%R) 30 0.5%float 199 ;;
   y <- SignalSegmentRepresentation.forward true m
          (Tensor [2; 1; 1; 3000] (fun _ => 0%R)) ;;
   Ok (size y)) = Ok [2; 1; 199; 30]
  /\ [2; 1; 199; 30] <> [2; 30; 1; 199].
Proof. split; [vm_compute; reflexivity | discriminate]. Qed.

(** * The ResNet backbone *)

Lemma BasicBlock_init_inv (initial : initializer) (name : string)
    (in_planes planes stride : Z) (downsample : option Sequential) (b : BasicBlock.t) :
  BasicBlock.init initial name in_planes planes stride downsample = Ok b ->
  exists c1 n1 c2 n2,
    b = {| BasicBlock.conv1 := c1; BasicBlock.bn1 := n1;
           BasicBlock.conv2 := c2; BasicBlock.bn2 := n2;
           BasicBlock.downsample := downsample; BasicBlock.stride := stride |}
    /\ Conv2d.init initial (join name "conv1") in_planes planes 3 stride 1 false = Ok c1
    /\ BatchNorm.init planes = Ok n1
    /\ Conv2d.init initial (join name "conv2") planes planes 3 1 1 false = Ok c2
    /\ BatchNorm.init planes = Ok n2.
Proof.
  unfold BasicBlock.init. intros H. inv_res H. subst b.
  do 4 eexists. split; [reflexivity |]. auto.
Qed.

Lemma strided_one (l : Z) : strided 1 l = l.
Proof. unfold strided. rewrite Z.div_1_r. lia. Qed.

Lemma strided_pos (s l : Z) : 1 <= s -> 1 <= l -> 1 <= strided s l.
Proof.
  intros Hs Hl. unfold strided.
  assert (0 <= (l - 1) / s) by (apply Z.div_pos; lia). lia.
Qed.

Lemma BasicBlock_forward_size
    (initial : initializer) (name : string) (in_planes planes s : Z)
    (downsample : option Sequential) (b : BasicBlock.t)
    (training : bool) (x : tensor) (B H W : Z) :
  BasicBlock.init initial name in_planes planes s downsample = Ok b ->
  shortcut_2d in_planes planes s downsample ->
  size x = [B; in_planes; H; W] ->
  1 <= planes -> 1 <= s -> 1 <= B -> 1 <= H -> 1 <= W ->
  batch_ok training (B * (strided s H * strided s W)) ->
  returns (BasicBlock.forward training b x) [B; planes; strided s H; strided s W].
Proof.
  intros Hb Hds Hx HP Hs HB HH HW Hok.
  apply BasicBlock_init_inv in Hb as (c1 & n1 & c2 & n2 & -> & Hc1 & Hn1 & Hc2 & Hn2).
  inv_layers.
  pose proof (strided_pos s H Hs HH) as HH'.
  pose proof (strided_pos s W Hs HW) as HW'.
  unfold BasicBlock.forward.
  cbn [BasicBlock.conv1 BasicBlock.bn1 BasicBlock.conv2 BasicBlock.bn2
       BasicBlock.downsample].
  rewrite (Conv2d_forward_eq _ x B in_planes H W) by (cbn; auto; lia).
  cbn [bind Conv2d.out_channels].
  assert (E1 : forall l, Conv2d.out_length
                 {| Conv2d.in_channels := in_planes; Conv2d.out_channels := planes;
                    Conv2d.kernel_size := 3; Conv2d.stride := s; Conv2d.padding := 1;
                    Conv2d.weight := initial (join (join name "conv1") "weight");
                    Conv2d.bias := None |} l = strided s l).
  { intros l. unfold Conv2d.out_length, strided. cbn. f_equal. f_equal. lia. }
  rewrite !E1.
  rewrite (BatchNorm_forward2d_eq training _ _ B planes (strided s H) (strided s W))
    by (cbn; auto).
  cbn [bind].
  rewrite (Conv2d_forward_eq _ _ B planes (strided s H) (strided s W))
    by (cbn; auto; lia).
  cbn [bind Conv2d.out_channels].
  assert (E2 : forall l, Conv2d.out_length
                 {| Conv2d.in_channels := planes; Conv2d.out_channels := planes;
                    Conv2d.kernel_size := 3; Conv2d.stride := 1; Conv2d.padding := 1;
                    Conv2d.weight := initial (join (join name "conv2") "weight");
                    Conv2d.bias := None |} l = l).
  { intros l. unfold Conv2d.out_length. cbn. rewrite Z.div_1_r. lia. }
  rewrite !E2.
  rewrite (BatchNorm_forward2d_eq training _ _ B planes (strided s H) (strided s W))
    by (cbn; auto).
  cbn [bind].
  destruct Hds as [(-> & -> & ->) | (c & bn & -> & D1 & D2 & D3 & D4 & D5 & D6)].
  - cbn [bind]. unfold add. rewrite !strided_one.
    rewrite binary_same by (cbn [size]; congruence).
    apply returns_Ok. reflexivity.
  - cbn [Sequential_forward layer_forward].
    rewrite (Conv2d_forward_eq c x B in_planes H W) by (auto; lia).
    cbn [bind].
    assert (E3 : forall l, Conv2d.out_length c l = strided s l).
    { intros l. unfold Conv2d.out_length, strided. rewrite D3, D4, D5.
      f_equal. f_equal. lia. }
    rewrite !E3, D2.
    rewrite (BatchNorm_forward2d_eq training _ _ B planes (strided s H) (strided s W))
      by (cbn; auto).
    cbn [bind]. unfold add. rewrite binary_same by reflexivity.
    apply returns_Ok. reflexivity.
Qed.

Lemma blocks_forward_size {B : Type} (fwd : B -> tensor -> result tensor)
    (blocks : list B) (s : shape) (x : tensor) :
  Forall (fun b => forall x, size x = s -> returns (fwd b x) s) blocks ->
  size x = s ->
  returns (blocks_forward fwd blocks x) s.
Proof.
  intros Hall. revert x. induction Hall as [| b l Hb _ IH]; intros x Hx.
  - apply returns_Ok. exact Hx.
  - cbn. eapply returns_bind; [apply Hb; exact Hx | exact IH].
Qed.

(** What [ResNet._make_layer] returns. *)
Lemma ResNet_make_layer_inv (initial : initializer) (name : string)
    (in_planes planes blocks stride : Z) (layers : list BasicBlock.t) (in_planes' : Z) :
  ResNet._make_layer initial name in_planes planes blocks stride
    = Ok (layers, in_planes') ->
  exists ds first others,
    layers = first :: others /\ in_planes' = planes
    /\ BasicBlock.init initial (join name "0") in_planes planes stride ds = Ok first
    /\ Forall2 (fun i b => BasicBlock.init initial (join name (Py.str i))
                             planes planes 1 None = Ok b)
               (range_from 1 blocks) others
    /\ (ds = None <-> stride = 1 /\ in_planes = planes)
    /\ shortcut_2d in_planes planes stride ds.
Proof.
  unfold ResNet._make_layer, BasicBlock.default_stride.
  intros H. inv_res H. injection H as <- <-.
  exists a, a0, a1. split; [reflexivity |]. split; [reflexivity |].
  split; [assumption |]. split; [apply mapM_inv; assumption |].
  destruct (stride =? 1) eqn:E1; destruct (in_planes =? planes) eqn:E2; cbn in Hb;
    rewrite ?Z.eqb_eq, ?Z.eqb_neq in *.
  1: { apply Ok_inj in Hb. subst a. split; [tauto |]. left. auto. }
  all: inv_res Hb; subst a; inv_layers;
    (split; [split; [discriminate | lia] |]);
    right; do 2 eexists; (split; [reflexivity |]); cbn; auto 10.
Qed.

(** A stage of the backbone: the first block strides, the others keep the
    size. *)
Lemma ResNet_layer_forward_size
    (initial : initializer) (name : string) (in_planes planes blocks s : Z)
    (layers : list BasicBlock.t) (in_planes' : Z)
    (training : bool) (x : tensor) (B H W : Z) :
  ResNet._make_layer initial name in_planes planes blocks s = Ok (layers, in_planes') ->
  size x = [B; in_planes; H; W] ->
  1 <= planes -> 1 <= s -> 1 <= B -> 1 <= H -> 1 <= W ->
  batch_ok training (B * (strided s H * strided s W)) ->
  returns (blocks_forward (BasicBlock.forward training) layers x)
          [B; planes; strided s H; strided s W].
Proof.
  intros Hl Hx HP Hs HB HH HW Hok.
  apply ResNet_make_layer_inv in Hl
    as (ds & first & others & -> & _ & Hfirst & Hothers & _ & Hds).
  cbn [blocks_forward].
  eapply returns_bind.
  { eapply BasicBlock_forward_size; eassumption. }
  intros y Hy. apply blocks_forward_size; [| exact Hy].
  pose proof (strided_pos s H Hs HH) as HH'.
  pose proof (strided_pos s W Hs HW) as HW'.
  clear Hfirst. induction Hothers as [| i b idxs bs Hb _ IH]; constructor; [| exact IH].
  intros z Hz.
  pose proof (BasicBlock_forward_size initial _ planes planes 1 None b training z B
                (strided s H) (strided s W) Hb) as Hsize.
  rewrite !strided_one in Hsize. apply Hsize; auto; try lia.
  left. auto.
Qed.

(** What [ResNet.__init__] builds. *)
Lemma ResNet_init_inv (initial : initializer) (layers : list Z) (channels num_classes : Z)
    (m : ResNet.t) :
  ResNet.init initial layers channels num_classes = Ok m ->
  exists n0 n1 n2 n3 fc1_0 fc2_0 fc2_2,
    ResNet.conv1 m
    = {| Conv2d.in_channels := channels; Conv2d.out_channels := 64;
         Conv2d.kernel_size := 7; Conv2d.stride := 2; Conv2d.padding := 3;
         Conv2d.weight := initial (join "conv1" "weight"); Conv2d.bias := None |}
    /\ BatchNorm.init 64 = Ok (ResNet.bn1 m)
    /\ ResNet.maxpool m
       = {| MaxPool.kernel_size := 3; MaxPool.stride := 2; MaxPool.padding := 1 |}
    /\ ResNet._make_layer initial "layer1" 64 64 n0 1 = Ok (ResNet.layer1 m, 64)
    /\ ResNet._make_layer initial "layer2" 64 128 n1 2 = Ok (ResNet.layer2 m, 128)
    /\ ResNet._make_layer initial "layer3" 128 256 n2 2 = Ok (ResNet.layer3 m, 256)
    /\ ResNet._make_layer initial "layer4" 256 512 n3 2 = Ok (ResNet.layer4 m, 512)
    /\ ResNet.fc1 m = [Linear_ fc1_0; GELU_]
    /\ Linear.in_features fc1_0 = 200 /\ Linear.out_features fc1_0 = 32 * 32
    /\ ResNet.fc2 m = [Linear_ fc2_0; GELU_; Linear_ fc2_2]
    /\ Linear.in_features fc2_0 = 512 /\ Linear.out_features fc2_0 = 256
    /\ Linear.in_features fc2_2 = 256 /\ Linear.out_features fc2_2 = num_classes
    /\ 0 <= channels /\ 0 <= num_classes.
Proof.
  unfold ResNet.init. intros H. inv_res H. subst m.
  repeat match goal with
         | Hl : ResNet._make_layer _ _ _ _ _ _ = Ok (_, ?z) |- _ =>
             is_var z;
             let E := fresh "E" in
             assert (E : z = _)
               by (destruct (ResNet_make_layer_inv _ _ _ _ _ _ _ _ Hl)
                     as (? & ? & ? & _ & E' & _); exact E');
             subst z
         end.
  match goal with
  | Hc : Conv2d.init _ "conv1" _ _ _ _ _ _ = Ok _ |- _ =>
      apply Conv2d_init_inv in Hc as (-> & Hch & _)
  end.
  match goal with
  | Hc : Linear.init _ "fc2.2" _ _ _ = Ok _ |- _ =>
      apply Linear_init_inv in Hc as (-> & _ & Hnc)
  end.
  repeat match goal with
         | Hc : Linear.init _ _ _ _ _ = Ok _ |- _ =>
             apply Linear_init_inv in Hc as (-> & _)
         end.
  cbn [ResNet.conv1 ResNet.bn1 ResNet.maxpool ResNet.layer1 ResNet.layer2
       ResNet.layer3 ResNet.layer4 ResNet.fc1 ResNet.fc2].
  do 7 eexists.
  repeat (split; [first [reflexivity | eassumption] |]).
  assumption.
Qed.

Lemma flatten1_size (x : tensor) (b c h w : Z) :
  size x = [b; c; h; w] -> returns (flatten1 x) [b; c * (h * w)].
Proof.
  intros Hx. unfold flatten1. rewrite Hx. apply returns_Ok. cbn. do 3 f_equal. lia.
Qed.

Lemma log_softmax_size (x : tensor) (s : shape) (n : Z) :
  size x = s ++ [n] -> returns (log_softmax x) (s ++ [n]).
Proof.
  intros Hx. unfold log_softmax. rewrite Hx, rev_unit. apply returns_Ok. reflexivity.
Qed.

Lemma batch_ok_large (training : bool) (B k : Z) :
  1 <= B -> 2 <= k -> batch_ok training (B * k).
Proof. intros HB Hk _. nia. Qed.

(** The backbone on an input of size (B, channels, 200): log-probabilities
    of size (B, num_classes). *)
Lemma ResNet_forward_size
    (initial : initializer) (layers : list Z) (channels num_classes : Z) (m : ResNet.t)
    (training : bool) (x : tensor) (B : Z) :
  ResNet.init initial layers channels num_classes = Ok m ->
  size x = [B; channels; 200] ->
  1 <= B -> batch_ok training B ->
  returns (ResNet.forward training m x) [B; num_classes].
Proof.
  intros Hm Hx HB Hok.
  apply ResNet_init_inv in Hm
    as (n0 & n1 & n2 & n3 & fc1_0 & fc2_0 & fc2_2 & Hc1 & Hb1 & Hmp
        & Hl1 & Hl2 & Hl3 & Hl4 & Hfc1 & I1 & O1 & Hfc2 & I20 & O20 & I22 & O22
        & Hch & Hnc).
  apply BatchNorm_init_inv in Hb1 as (Hb1 & _).
  unfold ResNet.forward.
  eapply returns_bind; [apply (unsqueeze_Ok _ _ 2); rewrite Hx; reflexivity |].
  intros x1 H1. rewrite Hx in H1. simpl in H1.
  eapply returns_bind.
  { rewrite Hfc1. cbn [Sequential_forward layer_forward].
    rewrite (Linear_forward_eq fc1_0 x1 [B; channels; 1] 200) by auto.
    cbn [bind]. apply returns_Ok. reflexivity. }
  intros x2 H2. cbn [size tmap app] in H2. rewrite O1 in H2.
  unfold size_at. rewrite H2. cbn [nth_error bind].
  eapply returns_bind.
  { apply view_size; [repeat constructor; lia | rewrite H2; cbn; lia]. }
  intros x3 H3.
  eapply returns_bind.
  { rewrite Hc1. rewrite (Conv2d_forward_eq _ x3 B channels 32 32) by (cbn; auto; lia).
    apply returns_Ok. reflexivity. }
  intros x4 H4. cbn in H4.
  eapply returns_bind.
  { rewrite Hb1. rewrite (BatchNorm_forward2d_eq training _ x4 B 64 16 16);
      [apply returns_Ok; reflexivity | exact H4 | reflexivity
      | apply batch_ok_large; lia]. }
  intros x5 H5. cbn [size] in H5.
  eapply returns_bind.
  { rewrite Hmp. apply (MaxPool_forward2d_size _ _ B 64 16 16);
      [exact H5 | reflexivity | reflexivity]. }
  intros x6 H6. cbn in H6.
  eapply returns_bind.
  { eapply (ResNet_layer_forward_size _ _ _ _ _ 1 _ _ training x6 B 8 8);
      [exact Hl1 | exact H6 | lia | lia | lia | lia | lia | apply batch_ok_large; cbn; lia]. }
  intros x7 H7. cbn in H7.
  eapply returns_bind.
  { eapply (ResNet_layer_forward_size _ _ _ _ _ 2 _ _ training x7 B 8 8);
      [exact Hl2 | exact H7 | lia | lia | lia | lia | lia | apply batch_ok_large; cbn; lia]. }
  intros x8 H8. cbn in H8.
  eapply returns_bind.
  { eapply (ResNet_layer_forward_size _ _ _ _ _ 2 _ _ training x8 B 4 4);
      [exact Hl3 | exact H8 | lia | lia | lia | lia | lia | apply batch_ok_large; cbn; lia]. }
  intros x9 H9. cbn in H9.
  eapply returns_bind.
  { eapply (ResNet_layer_forward_size _ _ _ _ _ 2 _ _ training x9 B 2 2);
      [exact Hl4 | exact H9 | lia | lia | lia | lia | lia |].
    cbn. rewrite Z.mul_1_r. exact Hok. }
  intros x10 H10. cbn in H10.
  eapply returns_bind; [eapply AdaptiveAvgPool2d_1_size; [exact H10 | lia | lia] |].
  intros x11 H11.
  eapply returns_bind; [eapply flatten1_size; exact H11 |].
  intros x12 H12. cbn in H12.
  eapply returns_bind.
  { rewrite Hfc2. cbn [Sequential_forward layer_forward].
    rewrite (Linear_forward_eq fc2_0 x12 [B] 512) by auto.
    cbn [bind].
    rewrite (Linear_forward_eq fc2_2 _ [B] 256)
      by (cbn [size tmap app]; rewrite ?O20; auto).
    cbn [bind]. apply returns_Ok. reflexivity. }
  intros x13 H13. cbn [size app] in H13. rewrite O22 in H13.
  apply (log_softmax_size x13 [B] num_classes). exact H13.
Qed.

(** [x.unsqueeze(-2)] keeps the last axis last. *)
Lemma unsqueeze_before_last (x : tensor) (s : shape) (k : Z) :
  size x = s ++ [k] -> returns (unsqueeze (-2) x) (s ++ [1; k]).
Proof.
  intros Hx. unfold unsqueeze, wrap_dim. rewrite Hx. unfold rank.
  rewrite length_app. cbn [List.length].
  rewrite guard_true by btrue. cbn [bind].
  apply returns_Ok. cbn [size]. unfold insert_at.
  replace (-2 <? 0) with true by reflexivity.
  replace (Z.to_nat (-2 + (Z.of_nat (List.length s + 1) + 1))) with (List.length s) by lia.
  rewrite firstn_app, skipn_app, firstn_all, skipn_all, Nat.sub_diag.
  cbn. rewrite app_nil_r. reflexivity.
Qed.

(** The first fully-connected stage refuses every last axis but 200. *)
Lemma ResNet_forward_wrong_length
    (initial : initializer) (layers : list Z) (channels num_classes : Z) (m : ResNet.t)
    (training : bool) (x : tensor) (s : shape) (k : Z) :
  ResNet.init initial layers channels num_classes = Ok m ->
  size x = s ++ [k] -> k <> 200 ->
  ResNet.forward training m x = Raise RuntimeError.
Proof.
  intros Hm Hx Hk.
  apply ResNet_init_inv in Hm
    as (n0 & n1 & n2 & n3 & fc1_0 & fc2_0 & fc2_2 & _ & _ & _
        & _ & _ & _ & _ & Hfc1 & I1 & _).
  unfold ResNet.forward.
  destruct (unsqueeze_before_last x s k Hx) as (y & -> & Hy).
  cbn [bind]. rewrite Hfc1. cbn [Sequential_forward layer_forward].
  unfold Linear.forward at 1. rewrite Hy.
  change (s ++ [1; k]) with (s ++ [1] ++ [k]). rewrite app_assoc, rev_unit.
  rewrite guard_false by (rewrite I1; bfalse). reflexivity.
Qed.

(** C9, as the code has it.  The first fully-connected stage is
    [Linear(200, 32 * 32)] and its output is viewed as maps of side 32,
    whatever the constructor arguments: [ResNet.forward] raises
    RuntimeError (a size mismatch in the linear layer) on every input whose
    last axis is not 200, and it returns log-probabilities of size
    (B, num_classes) on an input of size (B, channels, 200) with the
    channels of the model, one or more, and [B >= 1] samples, [B >= 2] of
    them in training mode. *)
Theorem ResNet_forward_needs_last_axis_200
    (initial : initializer) (layers : list Z) (channels num_classes : Z) (m : ResNet.t)
    (training : bool) (x : tensor) :
  ResNet.init initial layers channels num_classes = Ok m ->
  (exists fc1_0, ResNet.fc1 m = [Linear_ fc1_0; GELU_]
                 /\ Linear.in_features fc1_0 = 200
                 /\ Linear.out_features fc1_0 = 32 * 32)
  /\ (forall B, size x = [B; channels; 200] ->
        1 <= channels -> 1 <= B -> batch_ok training B ->
        exists y, ResNet.forward training m x = Ok y /\ size y = [B; num_classes])
  /\ (forall s k, size x = s ++ [k] -> k <> 200 ->
        ResNet.forward training m x = Raise RuntimeError).
Proof.
  intros Hm. split; [| split].
  - apply ResNet_init_inv in Hm
      as (n0 & n1 & n2 & n3 & fc1_0 & fc2_0 & fc2_2 & _ & _ & _
          & _ & _ & _ & _ & Hfc1 & I1 & O1 & _).
    eauto.
  - intros B Hx Hch HB Hok. eapply ResNet_forward_size; eassumption.
  - intros s k Hx Hk. eapply ResNet_forward_wrong_length; eassumption.
Qed.

Lemma ResNet_forward_needs_last_axis_200_witness :
  exists m y,
    ResNet.init (fun _ _ => 0%R) [3; 4; 6; 3] 1 18 = Ok m
    /\ ResNet.forward true m (Tensor [2; 1; 200] (fun _ => 0%R)) = Ok y
    /\ size y = [2; 18].
Proof.
  assert (Hinit : exists m, ResNet.init (fun _ _ => 0%R) [3; 4; 6; 3] 1 18 = Ok m).
  { eexists. reflexivity. }
  destruct Hinit as (m & Hm). exists m.
  destruct (ResNet_forward_needs_last_axis_200 (fun _ _ => 0%R) [3; 4; 6; 3] 1 18 m true
              (Tensor [2; 1; 200] (fun _ => 0%R)) Hm) as (_ & Hok & _).
  destruct (Hok 2 eq_refl ltac:(lia) ltac:(lia) ltac:(intros _; lia)) as (y & Hy & Hs).
  exists y. auto.
Defined.

(** C9 as stated fails: a last axis of 200 is not all the backbone asks.
    On a model of one channel, an input of size (2, 3, 200) raises
    RuntimeError, in both modes (its three channels are refused by the first
    convolution), and an input of size (1, 1, 200) raises ValueError in
    training mode (a single value per channel in the fourth stage). *)
Lemma last_axis_200_is_not_sufficient :
  (m <- ResNet.init (fun _ _ => 0%R) [3; 4; 6; 3] 1 18 ;;
   ResNet.forward false m (Tensor [2; 3; 200] (fun _ => 0%R))) = Raise RuntimeError
  /\ (m <- ResNet.init (fun _ _ => 0%R) [3; 4; 6; 3] 1 18 ;;
      ResNet.forward true m (Tensor [2; 3; 200] (fun _ => 0%R))) = Raise RuntimeError
  /\ (m <- ResNet.init (fun _ _ => 0%R) [3; 4; 6; 3] 1 18 ;;
      ResNet.forward true m (Tensor [1; 1; 200] (fun _ => 0%R))) = Raise ValueError.
Proof. repeat split; vm_compute; reflexivity. Qed.

(** * Sums of real numbers *)

Lemma Rsum_ext (n : Z) (f g : Z -> R) :
  (forall k, 0 <= k < n -> f k = g k) -> Rsum n f = Rsum n g.
Proof.
  intros H. unfold Rsum.
  assert (Hin : forall k, In k (range n) -> f k = g k)
    by (intros k Hk; apply H, range_bounds, Hk).
  induction (range n) as [| a l IH]; cbn; [reflexivity |].
  rewrite Hin by (left; reflexivity). rewrite IH; [reflexivity |].
  intros k Hk. apply Hin. right. exact Hk.
Qed.

Lemma Rsum_zero (n : Z) (f : Z -> R) :
  (forall k, 0 <= k < n -> f k = 0%R) -> Rsum n f = 0%R.
Proof.
  intros H. rewrite (Rsum_ext n f (fun _ => 0%R)) by exact H.
  unfold Rsum. induction (range n) as [| a l IH]; cbn; [reflexivity |].
  rewrite IH. lra.
Qed.

Lemma Rsum_scale (n : Z) (f : Z -> R) (c : R) :
  Rsum n (fun k => (f k * c)%R) = (Rsum n f * c)%R.
Proof.
  unfold Rsum. induction (range n) as [| a l IH]; cbn; [lra |].
  rewrite IH. lra.
Qed.

Lemma fold_sum_nonneg (f : Z -> R) (l : list Z) :
  (forall k, In k l -> (0 < f k)%R) ->
  (0 <= fold_right (fun k acc => (f k + acc)%R) 0%R l)%R.
Proof.
  induction l as [| a l IH]; cbn; intros H; [lra |].
  assert (0 < f a)%R by (apply H; left; reflexivity).
  assert (0 <= fold_right (fun k acc => (f k + acc)%R) 0%R l)%R
    by (apply IH; intros k Hk; apply H; right; exact Hk).
  lra.
Qed.

Lemma Rsum_pos (n : Z) (f : Z -> R) :
  0 < n -> (forall k, 0 <= k < n -> (0 < f k)%R) -> (0 < Rsum n f)%R.
Proof.
  intros Hn H. unfold Rsum.
  assert (Hin : forall k, In k (range n) -> (0 < f k)%R)
    by (intros k Hk; apply H, range_bounds, Hk).
  destruct (range_pos n Hn) as (l & El). rewrite El in *.
  assert (Hl : (0 <= fold_right (fun k acc => (f k + acc)%R) 0%R l)%R)
    by (apply fold_sum_nonneg; intros k Hk; apply Hin, in_cons, Hk).
  cbn. assert (0 < f 0%Z)%R by apply Hin, in_eq. lra.
Qed.

Lemma Rsum_shape_zero (s : shape) (f : index -> R) :
  (forall i, in_bounds s i -> f i = 0%R) -> Rsum_shape s f = 0%R.
Proof.
  revert f. induction s as [| d s IH]; intros f H; cbn.
  - apply H. exact I.
  - apply Rsum_zero. intros k Hk. apply IH. intros i Hi. apply H. cbn. auto.
Qed.

(** * Normalisation of the log-probabilities *)

Lemma in_bounds_last (s : shape) (n : Z) (i : index) :
  in_bounds (s ++ [n]) i -> 0 < n.
Proof.
  revert i. induction s as [| d s IH]; intros [| k i]; cbn; try tauto.
  - destruct i; [lia | tauto].
  - intros [_ H]. eapply IH. exact H.
Qed.

Lemma log_softmax_normalized (x y : tensor) (i : index) :
  log_softmax x = Ok y ->
  in_bounds (size y) i ->
  Rsum (last (size y) 0) (fun c => exp (item y (removelast i ++ [c]))) = 1%R.
Proof.
  unfold log_softmax. destruct (rev (size x)) as [| n t] eqn:E; [discriminate |].
  intros H Hi. apply Ok_inj in H. subst y. cbn [size item] in *.
  assert (Hs : size x = rev t ++ [n]).
  { rewrite <- (rev_involutive (size x)), E. reflexivity. }
  rewrite Hs in *. rewrite last_last.
  pose proof (in_bounds_last _ _ _ Hi) as Hn.
  set (p := removelast i).
  set (S := Rsum n (fun j => exp (item x (p ++ [j])))).
  assert (HS : (0 < S)%R) by (apply Rsum_pos; [exact Hn | intros; apply exp_pos]).
  rewrite (Rsum_ext n _ (fun c => (exp (item x (p ++ [c])) * / S)%R)).
  - rewrite Rsum_scale. fold S. field. lra.
  - intros c Hc. rewrite removelast_last. fold S.
    rewrite exp_ln; [reflexivity |].
    apply Rdiv_lt_0_compat; [apply exp_pos | exact HS].
Qed.

(** C7.  Whatever the model and the input, when [ResNet.forward] returns,
    the exponentials of the returned vector sum to 1 along the class axis,
    at every batch element; and on an input of size (B, channels, 200) of a
    model with at least one class it does return, with size
    (B, num_classes). *)
Theorem ResNet_forward_log_probabilities
    (initial : initializer) (layers : list Z) (channels num_classes : Z) (m : ResNet.t)
    (training : bool) (x : tensor) (B : Z) :
  ResNet.init initial layers channels num_classes = Ok m ->
  size x = [B; channels; 200] ->
  1 <= channels -> 1 <= B -> batch_ok training B -> 1 <= num_classes ->
  (forall (m' : ResNet.t) (x' y : tensor) (i : index),
      ResNet.forward training m' x' = Ok y ->
      in_bounds (size y) i ->
      Rsum (last (size y) 0) (fun c => exp (item y (removelast i ++ [c]))) = 1%R)
  /\ exists y,
       ResNet.forward training m x = Ok y
       /\ size y = [B; num_classes]
       /\ forall b, 0 <= b < B ->
            Rsum num_classes (fun c => exp (item y [b; c])) = 1%R.
Proof.
  intros Hm Hx Hch HB Hok Hnc.
  assert (Hany : forall (m' : ResNet.t) (x' y : tensor) (i : index),
             ResNet.forward training m' x' = Ok y ->
             in_bounds (size y) i ->
             Rsum (last (size y) 0) (fun c => exp (item y (removelast i ++ [c]))) = 1%R).
  { intros m' x' y i H Hi. unfold ResNet.forward in H. inv_res H.
    eapply log_softmax_normalized; eassumption. }
  split; [exact Hany |].
  destruct (ResNet_forward_size _ _ _ _ _ training x B Hm Hx HB Hok) as (y & Hy & Hs).
  exists y. split; [exact Hy |]. split; [exact Hs |].
  intros b Hb.
  specialize (Hany m x y [b; 0] Hy). rewrite Hs in Hany.
  apply Hany. cbn. lia.
Qed.

Lemma ResNet_forward_log_probabilities_witness :
  exists m y,
    ResNet.init (fun _ _ => 0%R) [3; 4; 6; 3] 1 18 = Ok m
    /\ ResNet.forward false m (Tensor [1; 1; 200] (fun _ => 0%R)) = Ok y
    /\ Rsum 18 (fun c => exp (item y [0; c])) = 1%R.
Proof.
  assert (Hinit : exists m, ResNet.init (fun _ _ => 0%R) [3; 4; 6; 3] 1 18 = Ok m).
  { eexists. reflexivity. }
  destruct Hinit as (m & Hm). exists m.
  destruct (ResNet_forward_log_probabilities (fun _ _ => 0%R) [3; 4; 6; 3] 1 18 m false
              (Tensor [1; 1; 200] (fun _ => 0%R)) 1 Hm eq_refl
              ltac:(lia) ltac:(lia) ltac:(intros H; discriminate H) ltac:(lia))
    as (_ & y & Hy & _ & Hsum).
  exists y. split; [exact Hm |]. split; [exact Hy |]. apply Hsum. lia.
Defined.

(** * The channel gates *)

Lemma Sigmoid_bounds (u : R) : (0 < Sigmoid u < 1)%R.
Proof.
  unfold Sigmoid. pose proof (exp_pos (- u)) as He.
  split.
  - apply Rdiv_lt_0_compat; lra.
  - apply (Rmult_lt_reg_r (1 + exp (- u))); [lra |].
    unfold Rdiv. rewrite Rmult_assoc, Rinv_l by lra. lra.
Qed.

Lemma scaled_magnitude (a f : R) : (0 < f < 1)%R -> (Rabs (a * f) <= Rabs a)%R.
Proof.
  intros Hf. rewrite Rabs_mult, (Rabs_pos_eq f) by lra.
  pose proof (Rabs_pos a). nra.
Qed.

Lemma in_bounds_length (s : shape) (i : index) :
  in_bounds s i -> List.length i = List.length s.
Proof.
  revert i. induction s as [| d s IH]; intros [| k i]; cbn; try tauto.
  intros [_ H]. f_equal. auto.
Qed.

Lemma bcast_aligned_in_bounds (s : shape) (i : index) :
  in_bounds s i -> bcast_aligned s i = i.
Proof.
  revert i. induction s as [| d s IH]; intros [| k i]; cbn; try tauto.
  intros [Hk H]. rewrite IH by exact H. f_equal.
  destruct (d =? 1) eqn:E; [apply Z.eqb_eq in E; lia | reflexivity].
Qed.

Lemma bcast_index_in_bounds (s : shape) (i : index) :
  in_bounds s i -> bcast_index s i = i.
Proof.
  intros H. unfold bcast_index. rewrite (in_bounds_length s i H), Nat.sub_diag.
  cbn [skipn]. apply bcast_aligned_in_bounds. exact H.
Qed.

Lemma expand_as_inv (g x e : tensor) :
  expand_as g x = Ok e ->
  size e = size x /\ forall i, item e i = item g (bcast_index (size g) i).
Proof.
  unfold expand_as. intros H. inv_res H. subst e. cbn [size item].
  split; [apply shape_eqb_eq; assumption | reflexivity].
Qed.

Lemma broadcast_shapes_same_inv (s t r : shape) :
  t = s -> broadcast_shapes s t = Ok r -> r = s.
Proof. intros ->. rewrite broadcast_shapes_same. intros H. apply Ok_inj in H. auto. Qed.

(** The last two steps of both gates: [x * y.expand_as(x)]. *)
Lemma gate_scales (g x e y : tensor) :
  sigmoid_valued g ->
  expand_as g x = Ok e ->
  mul x e = Ok y ->
  gated x y.
Proof.
  intros Hg He Hy. apply expand_as_inv in He as [Hes Hei].
  unfold mul, binary in Hy. inv_res Hy. subst y.
  apply broadcast_shapes_same_inv in Hb; [| exact Hes]. subst a.
  split; [reflexivity |]. cbn [size item]. intros i Hi.
  rewrite Hes, bcast_index_in_bounds by exact Hi. rewrite Hei.
  destruct (Hg (bcast_index (size g) i)) as (u & ->).
  exists (Sigmoid u). split; [apply Sigmoid_bounds |]. split; [reflexivity |].
  apply scaled_magnitude, Sigmoid_bounds.
Qed.

Lemma view_inv (req : list Z) (x y : tensor) :
  view req x = Ok y -> forall i, exists j, item y i = item x j.
Proof.
  unfold view. intros H. inv_res H. subst y. cbn [item]. eauto.
Qed.

(** Whatever [ResLayer.forward] returns is its input, gated. *)
Lemma ResLayer_forward_gated (training : bool) (fc0 fc2 : Linear.t) (x y : tensor) :
  ResLayer.forward training
    {| ResLayer.fc := [Linear_ fc0; GELU_; Linear_ fc2; Sigmoid_] |} x = Ok y ->
  gated x y.
Proof.
  intros Hy. unfold ResLayer.forward in Hy.
  destruct (size x) as [| b [| c [| l [| ? ?]]]]; try discriminate.
  cbn [ResLayer.fc Sequential_forward layer_forward] in Hy. inv_res Hy.
  eapply gate_scales; [| eassumption | eassumption].
  intros i.
  match goal with
  | Hv : view [b; c; 1] _ = Ok _ |- _ => destruct (view_inv _ _ _ Hv i) as (j & ->)
  end.
  inv_all. subst. cbn [item tmap]. eauto.
Qed.

(** Whatever [GNA.forward] returns is its input, gated. *)
Lemma GNA_forward_gated (training : bool) (fc0 fc2 : Conv2d.t) (x y : tensor) :
  GNA.forward training
    {| GNA.fc := [Conv2d_ fc0; GELU_; Conv2d_ fc2; Sigmoid_] |} x = Ok y ->
  gated x y.
Proof.
  intros Hy. unfold GNA.forward in Hy.
  destruct (size x) as [| b [| c [| h [| w [| ? ?]]]]]; try discriminate.
  cbn [GNA.fc Sequential_forward layer_forward] in Hy. inv_res Hy.
  eapply gate_scales; [| eassumption | eassumption].
  intros i. inv_all. subst. cbn [item tmap]. eauto.
Qed.

(** C5.  Each of the two gates, [ResLayer] (1-d) and [GNA] (2-d), for every
    assignment of its weights: on an input with its number of channels it
    returns a tensor of the same size whose every entry is the input's
    entry times a value of the sigmoid, strictly between 0 and 1, hence of
    magnitude at most the input's; and the same holds of whatever it
    returns on any input. *)
Theorem channel_gates_scale_by_sigmoid
    (initial : initializer) (name : string) (channel reduction : Z)
    (m : ResLayer.t) (g : GNA.t) (training : bool)
    (x1 x2 : tensor) (B L H W : Z) :
  ResLayer.init initial name channel reduction = Ok m ->
  GNA.init initial name channel reduction = Ok g ->
  size x1 = [B; channel; L] -> size x2 = [B; channel; H; W] ->
  1 <= channel / reduction ->
  1 <= B -> 1 <= channel -> 0 < L -> 0 < H -> 0 < W ->
  (exists y, ResLayer.forward training m x1 = Ok y /\ gated x1 y)
  /\ (exists y, GNA.forward training g x2 = Ok y /\ gated x2 y)
  /\ (forall x y, ResLayer.forward training m x = Ok y -> gated x y)
  /\ (forall x y, GNA.forward training g x = Ok y -> gated x y).
Proof.
  intros Hm Hg Hx1 Hx2 Hhid HB Hch HL HH HW.
  assert (R2 : returns (GNA.forward training g x2) [B; channel; H; W])
    by (eapply GNA_forward_size; eassumption).
  apply ResLayer_init_inv in Hm as (fc0 & fc2 & -> & F1 & F2 & F3 & F4 & _ & _ & Hc).
  apply GNA_init_inv in Hg as (gc0 & gc2 & -> & _).
  assert (R1 : returns (ResLayer.forward training
                          {| ResLayer.fc := [Linear_ fc0; GELU_; Linear_ fc2; Sigmoid_] |}
                          x1) [B; channel; L])
    by (apply ResLayer_forward_size; auto; try lia; congruence).
  destruct R1 as (y1 & Hy1 & _). destruct R2 as (y2 & Hy2 & _).
  split; [exists y1; eauto using ResLayer_forward_gated |].
  split; [exists y2; eauto using GNA_forward_gated |].
  split; intros x y; [apply ResLayer_forward_gated | apply GNA_forward_gated].
Qed.

Lemma channel_gates_scale_by_sigmoid_witness :
  exists m g y1 y2,
    ResLayer.init (fun _ _ => 1%R) "gate" 4 2 = Ok m
    /\ GNA.init (fun _ _ => 1%R) "gate" 4 2 = Ok g
    /\ ResLayer.forward false m (Tensor [2; 4; 3] (fun _ => 1%R)) = Ok y1
    /\ gated (Tensor [2; 4; 3] (fun _ => 1%R)) y1
    /\ GNA.forward false g (Tensor [2; 4; 5; 3] (fun _ => 1%R)) = Ok y2
    /\ gated (Tensor [2; 4; 5; 3] (fun _ => 1%R)) y2.
Proof.
  do 2 eexists.
  destruct (channel_gates_scale_by_sigmoid (fun _ _ => 1%R) "gate" 4 2 _ _ false
              (Tensor [2; 4; 3] (fun _ => 1%R)) (Tensor [2; 4; 5; 3] (fun _ => 1%R))
              2 3 5 3 eq_refl eq_refl eq_refl eq_refl
              ltac:(lia) ltac:(lia) ltac:(lia) ltac:(lia) ltac:(lia) ltac:(lia))
    as ((y1 & Hy1 & G1) & (y2 & Hy2 & G2) & _).
  exists y1, y2.
  split; [reflexivity |]. split; [reflexivity |]. split; [exact Hy1 |].
  split; [exact G1 |]. split; [exact Hy2 | exact G2].
Defined.


(** * Residual blocks with zero convolutions *)

Lemma Conv1d_entry_zero (c : Conv1d.t) (x : tensor) (i : index) :
  Conv1d_zero c ->
  0 <= dim i 1 < Conv1d.out_channels c ->
  Conv1d.entry c x i = 0%R.
Proof.
  intros [Hw Hb] Ho. unfold Conv1d.entry.
  rewrite Rsum_zero.
  - destruct (Conv1d.bias c) as [v |]; [rewrite (Hb v _ eq_refl Ho) |]; lra.
  - intros ci Hci. apply Rsum_zero. intros j Hj.
    rewrite Hw by (cbn; auto). lra.
Qed.

Lemma Conv2d_entry_zero (c : Conv2d.t) (x : tensor) (i : index) :
  Conv2d_zero c ->
  0 <= dim i 1 < Conv2d.out_channels c ->
  Conv2d.entry c x i = 0%R.
Proof.
  intros [Hw Hb] Ho. unfold Conv2d.entry.
  rewrite Rsum_zero.
  - destruct (Conv2d.bias c) as [v |]; [rewrite (Hb v _ eq_refl Ho) |]; lra.
  - intros ci Hci. apply Rsum_zero. intros u Hu. apply Rsum_zero. intros v Hv.
    rewrite Hw by (cbn; auto). lra.
Qed.

(** A freshly constructed [BatchNorm] maps the zero tensor to zero, in
    training mode (batch statistics) and in evaluation mode (running
    estimates). *)
Lemma BatchNorm_entry_zero (training : bool) (n : Z) (bn : BatchNorm.t)
    (z : tensor) (nB C : Z) (rest : shape) (i : index) :
  BatchNorm.init n = Ok bn ->
  size z = nB :: C :: rest ->
  (forall j, in_bounds (size z) j -> item z j = 0%R) ->
  in_bounds (size z) i ->
  BatchNorm.entry training bn z i = 0%R.
Proof.
  intros Hbn Hz Hzero Hi. apply BatchNorm_init_inv in Hbn as (-> & _).
  unfold BatchNorm.entry, BatchNorm.statistics.
  rewrite (Hzero i Hi). rewrite Hz in *.
  destruct i as [| ib [| ic ir]]; cbn in Hi; try tauto.
  destruct Hi as (Hib & Hic & Hir). cbn [dim nth hd skipn].
  destruct training; cbn [BatchNorm.weight BatchNorm.bias BatchNorm.eps
                           BatchNorm.running_mean BatchNorm.running_var].
  - assert (Hat : forall j, in_bounds (nB :: rest) j ->
                            item z (hd 0 j :: ic :: tl j) = 0%R).
    { intros [| b jr]; cbn; [tauto |]. intros [Hb Hjr]. apply Hzero. cbn. auto. }
    repeat match goal with
           | |- context [Rsum_shape ?s ?f] =>
               rewrite (Rsum_shape_zero s f)
                 by first [ exact Hat
                          | intros j Hj; cbv beta; rewrite (Hat j Hj); unfold Rdiv; ring ]
           end.
    unfold Rdiv. ring.
  - unfold Rdiv. ring.
Qed.

Lemma gated_zero (x y : tensor) (i : index) :
  gated x y -> in_bounds (size x) i -> item x i = 0%R -> item y i = 0%R.
Proof.
  intros [_ H] Hi Hx. destruct (H i Hi) as (f & _ & -> & _). rewrite Hx. lra.
Qed.

(** The 1-d block. *)
Lemma ResBasicBlock_zero_convolutions
    (initial : initializer) (name : string) (C reduction : Z) (b : ResBasicBlock.t)
    (training : bool) (x : tensor) (B L : Z) :
  ResBasicBlock.init initial name C C 1 None reduction = Ok b ->
  Conv1d_zero (ResBasicBlock.conv1 b) -> Conv1d_zero (ResBasicBlock.conv2 b) ->
  size x = [B; C; L] ->
  1 <= C -> 1 <= B -> 1 <= L -> batch_ok training (B * L) ->
  exists y, ResBasicBlock.forward training b x = Ok y /\ tensor_eq y (tmap GELU x).
Proof.
  intros Hb Z1 Z2 Hx HC HB HL Hok.
  apply ResBasicBlock_init_inv in Hb
    as (c1 & n1 & c2 & n2 & r & -> & Hc1 & Hn1 & Hc2 & Hn2 & Hr).
  cbn [ResBasicBlock.conv1 ResBasicBlock.conv2] in Z1, Z2.
  pose proof Hn2 as Hn2'.
  apply Conv1d_init_inv in Hc1 as (-> & ? & ? & _).
  apply Conv1d_init_inv in Hc2 as (-> & _).
  apply BatchNorm_init_inv in Hn1 as (-> & _).
  pose proof (BatchNorm_init_inv _ _ Hn2) as (En2 & _).
  apply ResLayer_init_inv in Hr as (fc0 & fc2 & -> & F1 & F2 & F3 & F4 & _).
  unfold ResBasicBlock.forward.
  cbn [ResBasicBlock.conv1 ResBasicBlock.bn1 ResBasicBlock.conv2 ResBasicBlock.bn2
       ResBasicBlock.reslayer ResBasicBlock.downsample].
  rewrite (Conv1d_forward_eq _ x B C L) by (cbn; auto; lia).
  rewrite Conv1d_out_length_pointwise by reflexivity.
  cbn [bind Conv1d.out_channels].
  rewrite (BatchNorm_forward1d_eq training _ _ B C L) by (cbn; auto).
  cbn [bind].
  rewrite (Conv1d_forward_eq _ _ B C L) by (cbn; auto; lia).
  rewrite Conv1d_out_length_pointwise by reflexivity.
  cbn [bind Conv1d.out_channels].
  rewrite (BatchNorm_forward1d_eq training n2 _ B C L)
    by (rewrite ?En2; cbn; auto).
  cbn [bind].
  match goal with
  | |- context [ResLayer.forward training ?rl ?t5] =>
      destruct (ResLayer_forward_size training fc0 fc2 t5 B C L)
        as (g & Hg & Hgs); [reflexivity | lia | lia | lia | congruence
                           | congruence | congruence |];
      pose proof (ResLayer_forward_gated training fc0 fc2 t5 g Hg) as Hgated
  end.
  rewrite Hg. cbn [bind]. rewrite iadd_same by congruence. cbn [bind].
  eexists. split; [reflexivity |].
  split; [cbn [size tmap]; congruence |].
  cbn [size tmap item]. rewrite Hgs. intros i Hi.
  rewrite bcast_index_in_bounds by exact Hi.
  rewrite (gated_zero _ _ i Hgated); [f_equal; lra | exact Hi |].
  cbn [item].
  eapply BatchNorm_entry_zero with (nB := B) (C := C) (rest := [L]);
    [exact Hn2' | reflexivity | | exact Hi].
  cbn [size item]. intros j Hj. apply Conv1d_entry_zero; [exact Z2 |].
  cbn [Conv1d.out_channels].
  destruct j as [| jb [| jc jr]]; cbn in Hj |- *; first [tauto | lia].
Qed.

(** The 2-d block. *)
Lemma BasicBlock_zero_convolutions
    (initial : initializer) (name : string) (C : Z) (b : BasicBlock.t)
    (training : bool) (x : tensor) (B H W : Z) :
  BasicBlock.init initial name C C 1 None = Ok b ->
  Conv2d_zero (BasicBlock.conv1 b) -> Conv2d_zero (BasicBlock.conv2 b) ->
  size x = [B; C; H; W] ->
  1 <= C -> 1 <= B -> 1 <= H -> 1 <= W -> batch_ok training (B * (H * W)) ->
  exists y, BasicBlock.forward training b x = Ok y /\ tensor_eq y (tmap ReLU x).
Proof.
  intros Hb Z1 Z2 Hx HC HB HH HW Hok.
  apply BasicBlock_init_inv in Hb as (c1 & n1 & c2 & n2 & -> & Hc1 & Hn1 & Hc2 & Hn2).
  cbn [BasicBlock.conv1 BasicBlock.conv2] in Z1, Z2.
  pose proof Hn2 as Hn2'.
  apply Conv2d_init_inv in Hc1 as (-> & _).
  apply Conv2d_init_inv in Hc2 as (-> & _).
  apply BatchNorm_init_inv in Hn1 as (-> & _).
  pose proof (BatchNorm_init_inv _ _ Hn2) as (En2 & _).
  unfold BasicBlock.forward.
  cbn [BasicBlock.conv1 BasicBlock.bn1 BasicBlock.conv2 BasicBlock.bn2
       BasicBlock.downsample].
  assert (E : forall (c : Conv2d.t) l,
             Conv2d.kernel_size c = 3 -> Conv2d.stride c = 1 -> Conv2d.padding c = 1 ->
             Conv2d.out_length c l = l).
  { intros c l K S P. unfold Conv2d.out_length. rewrite K, S, P, Z.div_1_r. lia. }
  rewrite (Conv2d_forward_eq _ x B C H W) by (cbn; auto; lia).
  rewrite !E by reflexivity. cbn [bind Conv2d.out_channels].
  rewrite (BatchNorm_forward2d_eq training _ _ B C H W) by (cbn; auto).
  cbn [bind].
  rewrite (Conv2d_forward_eq _ _ B C H W) by (cbn; auto; lia).
  rewrite !E by reflexivity. cbn [bind Conv2d.out_channels].
  rewrite (BatchNorm_forward2d_eq training n2 _ B C H W) by (rewrite ?En2; cbn; auto).
  cbn [bind]. unfold add. rewrite binary_same by (cbn [size]; congruence).
  cbn [bind size].
  eexists. split; [reflexivity |].
  split; [cbn [size tmap]; congruence |].
  cbn [size tmap item]. intros i Hi.
  rewrite bcast_index_in_bounds by exact Hi.
  f_equal.
  rewrite (BatchNorm_entry_zero training C n2 _ B C [H; W] i Hn2');
    [lra | reflexivity | | exact Hi].
  cbn [size item]. intros j Hj. apply Conv2d_entry_zero; [exact Z2 |].
  cbn [Conv2d.out_channels].
  destruct j as [| jb [| jc jr]]; cbn in Hj |- *; first [tauto | lia].
Qed.

(** C6.  A block with the identity shortcut (as many input as output
    channels, stride 1, no downsample), as its constructor builds it, with
    the weights and biases of both convolutions zero: for every input the
    1-d block returns GELU of the input and the 2-d block ReLU of the
    input, entry by entry. *)
Theorem residual_blocks_with_zero_convolutions
    (initial : initializer) (name : string) (C reduction : Z)
    (b1 : ResBasicBlock.t) (b2 : BasicBlock.t)
    (training : bool) (x1 x2 : tensor) (B L H W : Z) :
  ResBasicBlock.init initial name C C 1 None reduction = Ok b1 ->
  BasicBlock.init initial name C C 1 None = Ok b2 ->
  Conv1d_zero (ResBasicBlock.conv1 b1) -> Conv1d_zero (ResBasicBlock.conv2 b1) ->
  Conv2d_zero (BasicBlock.conv1 b2) -> Conv2d_zero (BasicBlock.conv2 b2) ->
  size x1 = [B; C; L] -> size x2 = [B; C; H; W] ->
  1 <= C -> 1 <= B -> 1 <= L -> 1 <= H -> 1 <= W ->
  batch_ok training (B * L) -> batch_ok training (B * (H * W)) ->
  (exists y, ResBasicBlock.forward training b1 x1 = Ok y
             /\ size y = size x1
             /\ forall i, in_bounds (size x1) i -> item y i = GELU (item x1 i))
  /\ (exists y, BasicBlock.forward training b2 x2 = Ok y
                /\ size y = size x2
                /\ forall i, in_bounds (size x2) i -> item y i = ReLU (item x2 i)).
Proof.
  intros Hb1 Hb2 Z11 Z12 Z21 Z22 Hx1 Hx2 HC HB HL HH HW Hok1 Hok2.
  split.
  - destruct (ResBasicBlock_zero_convolutions _ _ _ _ _ training x1 B L
                Hb1 Z11 Z12 Hx1 HC HB HL Hok1) as (y & Hy & Hs & Hi).
    exists y. split; [exact Hy |]. split; [exact Hs |].
    intros i Hin. apply Hi. rewrite Hs. exact Hin.
  - destruct (BasicBlock_zero_convolutions _ _ _ _ training x2 B H W
                Hb2 Z21 Z22 Hx2 HC HB HH HW Hok2) as (y & Hy & Hs & Hi).
    exists y. split; [exact Hy |]. split; [exact Hs |].
    intros i Hin. apply Hi. rewrite Hs. exact Hin.
Qed.

Lemma Conv1d_zero_initial (name : string) (i o k s p : Z) (bias : bool) (c : Conv1d.t) :
  Conv1d.init (fun _ _ => 0%R) name i o k s p bias = Ok c -> Conv1d_zero c.
Proof.
  intros H. apply Conv1d_init_inv in H as (-> & _). split; cbn.
  - reflexivity.
  - intros v o' Hv _. destruct bias; [| discriminate].
    injection Hv as <-. reflexivity.
Qed.

Lemma Conv2d_zero_initial (name : string) (i o k s p : Z) (bias : bool) (c : Conv2d.t) :
  Conv2d.init (fun _ _ => 0%R) name i o k s p bias = Ok c -> Conv2d_zero c.
Proof.
  intros H. apply Conv2d_init_inv in H as (-> & _). split; cbn.
  - reflexivity.
  - intros v o' Hv _. destruct bias; [| discriminate].
    injection Hv as <-. reflexivity.
Qed.

Lemma residual_blocks_with_zero_convolutions_witness :
  exists b1 b2 y1 y2,
    ResBasicBlock.init (fun _ _ => 0%R) "block" 4 4 1 None 4 = Ok b1
    /\ BasicBlock.init (fun _ _ => 0%R) "block" 4 4 1 None = Ok b2
    /\ ResBasicBlock.forward true b1 (Tensor [2; 4; 3] (fun _ => 1%R)) = Ok y1
    /\ (forall i, in_bounds [2; 4; 3] i -> item y1 i = GELU 1)
    /\ BasicBlock.forward true b2 (Tensor [2; 4; 3; 3] (fun _ => 1%R)) = Ok y2
    /\ (forall i, in_bounds [2; 4; 3; 3] i -> item y2 i = ReLU 1).
Proof.
  assert (H1 : exists b1, ResBasicBlock.init (fun _ _ => 0%R) "block" 4 4 1 None 4 = Ok b1)
    by (eexists; reflexivity).
  assert (H2 : exists b2, BasicBlock.init (fun _ _ => 0%R) "block" 4 4 1 None = Ok b2)
    by (eexists; reflexivity).
  destruct H1 as (b1 & Hb1). destruct H2 as (b2 & Hb2).
  assert (Z1 : Conv1d_zero (ResBasicBlock.conv1 b1) /\ Conv1d_zero (ResBasicBlock.conv2 b1)).
  { destruct (ResBasicBlock_init_inv _ _ _ _ _ _ _ _ Hb1)
      as (c1 & n1 & c2 & n2 & r & -> & Hc1 & _ & Hc2 & _).
    split; eapply Conv1d_zero_initial; eassumption. }
  assert (Z2 : Conv2d_zero (BasicBlock.conv1 b2) /\ Conv2d_zero (BasicBlock.conv2 b2)).
  { destruct (BasicBlock_init_inv _ _ _ _ _ _ _ Hb2)
      as (c1 & n1 & c2 & n2 & -> & Hc1 & _ & Hc2 & _).
    split; eapply Conv2d_zero_initial; eassumption. }
  destruct Z1 as [Z11 Z12]. destruct Z2 as [Z21 Z22].
  exists b1, b2.
  destruct (residual_blocks_with_zero_convolutions (fun _ _ => 0%R) "block" 4 4 b1 b2 true
              (Tensor [2; 4; 3] (fun _ => 1%R)) (Tensor [2; 4; 3; 3] (fun _ => 1%R))
              2 3 3 3 Hb1 Hb2 Z11 Z12 Z21 Z22 eq_refl eq_refl
              ltac:(lia) ltac:(lia) ltac:(lia) ltac:(lia) ltac:(lia)
              ltac:(intros _; lia) ltac:(intros _; lia))
    as ((y1 & Hy1 & _ & I1) & (y2 & Hy2 & _ & I2)).
  exists y1, y2.
  split; [exact Hb1 |]. split; [exact Hb2 |]. split; [exact Hy1 |].
  split; [exact I1 |]. split; [exact Hy2 | exact I2].
Defined.

(** * The 1-d residual block against its specification *)

Lemma Conv1d_forward_inv (c : Conv1d.t) (x y : tensor) :
  Conv1d.forward c x = Ok y ->
  exists n l,
    size x = [n; Conv1d.in_channels c; l]
    /\ size y = [n; Conv1d.out_channels c; Conv1d.out_length c l]
    /\ 0 < Conv1d.stride c /\ 0 < Conv1d.kernel_size c /\ 0 <= Conv1d.padding c
    /\ Conv1d.kernel_size c <= l + 2 * Conv1d.padding c.
Proof.
  unfold Conv1d.forward.
  destruct (size x) as [| n [| ch [| l [| ? ?]]]]; try discriminate.
  intros H. inv_res H. subst y.
  apply andb_prop in Hg as [Hg Ho]. apply andb_prop in Hg as [Hg Hk].
  apply andb_prop in Hg as [Hs Hp].
  apply Z.ltb_lt in Hs, Hk. apply Z.leb_le in Hp, Hg1. apply Z.eqb_eq in Hg0. subst ch.
  exists n, l. cbn [size]. auto 10.
Qed.

Lemma BatchNorm_forward1d_inv (training : bool) (m : BatchNorm.t) (x y : tensor) :
  BatchNorm.forward1d training m x = Ok y -> size y = size x.
Proof.
  unfold BatchNorm.forward1d, BatchNorm.batch_norm. intros H. inv_res H.
  destruct (size x) as [| n [| c rest]]; try discriminate.
  inv_res H. subst y. reflexivity.
Qed.

Lemma broadcast_last_axis (n p a b : Z) (s : shape) :
  broadcast_shapes [n; p; a] [n; p; b] = Ok s ->
  (a = 1 -> b = 1) ->
  s = [n; p; a].
Proof.
  unfold broadcast_shapes. cbn [rev app]. intros H Hab. inv_res H. subst s.
  cbn [broadcast_rev] in Hb. inv_res Hb. rewrite !Z.eqb_refl in *. cbn in *.
  inv_all. subst.
  destruct (a =? 1) eqn:E; cbn.
  - apply Z.eqb_eq in E. rewrite Hab by exact E.
    destruct (p =? 1) eqn:Ep, (n =? 1) eqn:En; cbn; rewrite ?E; reflexivity.
  - destruct (p =? 1) eqn:Ep, (n =? 1) eqn:En; cbn; reflexivity.
Qed.

Lemma iadd_eq_add (x y : tensor) :
  (forall s, broadcast_shapes (size x) (size y) = Ok s -> s = size x) ->
  iadd x y = add x y.
Proof.
  intros H. unfold iadd, add, binary.
  destruct (broadcast_shapes (size x) (size y)) as [s | e] eqn:E; [| reflexivity].
  cbn [bind]. rewrite (H s eq_refl), shape_eqb_refl. reflexivity.
Qed.

(** The block [_make_layer] puts first, and the blocks after it, compute
    what the specification says, on every input (errors included). *)
Lemma ResBasicBlock_forward_refines
    (initial : initializer) (name : string) (inplanes planes s : Z)
    (ds : option Sequential) (reduction : Z) (b : ResBasicBlock.t)
    (training : bool) (x : tensor) :
  ResBasicBlock.init initial name inplanes planes s ds reduction = Ok b ->
  (shape_mismatch inplanes planes s = false /\ ds = None)
  \/ (shape_mismatch inplanes planes s = true
      /\ exists c bn, ds = Some [Conv1d_ c; BatchNorm1d_ bn]
                      /\ Conv1d.out_channels c = planes
                      /\ Conv1d.kernel_size c = 1 /\ Conv1d.stride c = s
                      /\ Conv1d.padding c = 0) ->
  ResBasicBlock.forward training b x
  = spec_ResidualBlock1D training b (shape_mismatch inplanes planes s) x.
Proof.
  intros Hb Hds.
  apply ResBasicBlock_init_inv in Hb
    as (c1 & n1 & c2 & n2 & r & -> & Hc1 & Hn1 & Hc2 & Hn2 & Hr).
  apply Conv1d_init_inv in Hc1 as (Ec1 & _).
  apply Conv1d_init_inv in Hc2 as (Ec2 & _).
  apply ResLayer_init_inv in Hr as (fc0 & fc2 & -> & _).
  unfold ResBasicBlock.forward, spec_ResidualBlock1D, spec_conv_path, spec_downsample.
  cbn [ResBasicBlock.conv1 ResBasicBlock.bn1 ResBasicBlock.conv2 ResBasicBlock.bn2
       ResBasicBlock.reslayer ResBasicBlock.downsample].
  destruct (Conv1d.forward c1 x) as [t1 | e] eqn:E1; cbn [bind]; [| reflexivity].
  destruct (BatchNorm.forward1d training n1 t1) as [t2 | e] eqn:E2; cbn [bind];
    [| reflexivity].
  destruct (Conv1d.forward c2 (tmap GELU t2)) as [t3 | e] eqn:E3; cbn [bind];
    [| reflexivity].
  destruct (BatchNorm.forward1d training n2 t3) as [t4 | e] eqn:E4; cbn [bind];
    [| reflexivity].
  match goal with
  | |- context [ResLayer.forward training ?rl t4] =>
      destruct (ResLayer.forward training rl t4) as [g | e] eqn:E5; cbn [bind];
        [| reflexivity]
  end.
  (* the sizes along the way *)
  apply Conv1d_forward_inv in E1 as (n & l & Sx & S1 & _ & K1 & _).
  apply BatchNorm_forward1d_inv in E2.
  apply Conv1d_forward_inv in E3 as (n' & l' & S2 & S3 & _).
  apply BatchNorm_forward1d_inv in E4.
  apply ResLayer_forward_gated in E5 as [S5 _].
  cbn [size tmap] in S2. rewrite E2, S1 in S2. injection S2 as <- _ <-.
  rewrite E4, S3 in S5.
  assert (L1 : Conv1d.out_length c2 (Conv1d.out_length c1 l) = l - s + 1).
  { rewrite Ec1, Ec2. unfold Conv1d.out_length. cbn. rewrite !Z.div_1_r. lia. }
  assert (O2 : Conv1d.out_channels c2 = planes) by (rewrite Ec2; reflexivity).
  assert (I1 : Conv1d.in_channels c1 = inplanes) by (rewrite Ec1; reflexivity).
  assert (Ks : Conv1d.kernel_size c1 = s) by (rewrite Ec1; reflexivity).
  rewrite L1, O2 in S5. rewrite I1 in Sx. rewrite Ks in K1.
  destruct Hds as [[Hm ->] | (Hm & c & bn & -> & D1 & D2 & D3 & D4)]; rewrite Hm.
  - cbn [bind]. rewrite iadd_eq_add; [reflexivity |].
    intros sh Hsh.
    unfold shape_mismatch in Hm.
    apply orb_false_iff in Hm as [Hm1 Hm2].
    apply negb_false_iff, Z.eqb_eq in Hm1, Hm2.
    subst s inplanes.
    eapply broadcast_shapes_same_inv; [| exact Hsh].
    rewrite Sx, S5. do 2 f_equal. f_equal. lia.
  - cbn [Sequential_forward layer_forward].
    destruct (Conv1d.forward c x) as [r1 | e] eqn:R1; cbn [bind]; [| reflexivity].
    destruct (BatchNorm.forward1d training bn r1) as [r2 | e] eqn:R2; cbn [bind];
      [| reflexivity].
    rewrite iadd_eq_add; [reflexivity |].
    intros sh Hsh.
    apply Conv1d_forward_inv in R1 as (nr & lr & Sx' & Sr1 & _).
    apply BatchNorm_forward1d_inv in R2.
    rewrite Sx in Sx'. injection Sx' as <- _ <-.
    rewrite R2, Sr1, S5, D1 in Hsh. rewrite S5.
    eapply broadcast_last_axis; [exact Hsh |].
    intros Hl. unfold Conv1d.out_length. rewrite D2, D3, D4.
    replace (l + 2 * 0 - 1) with (s - 1) by lia.
    rewrite Z.div_small by lia. reflexivity.
Qed.

Lemma shape_mismatch_same (planes : Z) : shape_mismatch planes planes 1 = false.
Proof. unfold shape_mismatch. rewrite !Z.eqb_refl. reflexivity. Qed.

(** C4.  For the blocks [_make_layer] builds: the downsample (a 1x1
    convolution of the layer's stride, without bias, then a batch
    normalisation) is built once, at construction, exactly when
    [stride != 1] or the channel counts differ, and only for the first
    block; and [ResBasicBlock.forward] is, on every input,
    nonlinearity(ChannelGate1D(norm(conv2(nonlinearity(norm(conv1 x)))))
    + residual), with residual = downsample(x) in that case and x
    otherwise: the gate is applied before the addition. *)
Theorem ResidualBlock1D_forward_as_specified
    (initial : initializer) (name : string) (inplanes planes blocks stride : Z)
    (layers : list ResBasicBlock.t) (inplanes' : Z) :
  SignalSegment2Vec._make_layer initial name inplanes planes blocks stride
    = Ok (layers, inplanes') ->
  exists first others,
    layers = first :: others
    /\ (ResBasicBlock.downsample first = None
        <-> shape_mismatch inplanes planes stride = false)
    /\ (shape_mismatch inplanes planes stride = true ->
        exists c bn,
          ResBasicBlock.downsample first = Some [Conv1d_ c; BatchNorm1d_ bn]
          /\ Conv1d.in_channels c = inplanes /\ Conv1d.out_channels c = planes
          /\ Conv1d.kernel_size c = 1 /\ Conv1d.stride c = stride
          /\ Conv1d.padding c = 0 /\ Conv1d.bias c = None
          /\ BatchNorm.num_features bn = planes)
    /\ Forall (fun b => ResBasicBlock.downsample b = None) others
    /\ (forall training x,
          ResBasicBlock.forward training first x
          = spec_ResidualBlock1D training first
              (shape_mismatch inplanes planes stride) x)
    /\ (forall b, In b others -> forall training x,
          ResBasicBlock.forward training b x
          = spec_ResidualBlock1D training b false x).
Proof.
  intros H.
  apply SignalSegment2Vec_make_layer_inv in H
    as (ds & first & others & -> & _ & Hfirst & Hothers & Hds).
  exists first, others. split; [reflexivity |].
  assert (Hfd : ResBasicBlock.downsample first = ds).
  { destruct (ResBasicBlock_init_inv _ _ _ _ _ _ _ _ Hfirst)
      as (? & ? & ? & ? & ? & -> & _). reflexivity. }
  assert (Hcases :
    (shape_mismatch inplanes planes stride = false /\ ds = None)
    \/ (shape_mismatch inplanes planes stride = true
        /\ exists c bn, ds = Some [Conv1d_ c; BatchNorm1d_ bn]
                        /\ Conv1d.in_channels c = inplanes
                        /\ Conv1d.out_channels c = planes
                        /\ Conv1d.kernel_size c = 1 /\ Conv1d.stride c = stride
                        /\ Conv1d.padding c = 0 /\ Conv1d.bias c = None
                        /\ BatchNorm.num_features bn = planes)).
  { unfold shape_mismatch.
    destruct Hds as [(-> & -> & ->) | (Hne & c & bn & -> & Hc & Hbn)].
    - left. rewrite !Z.eqb_refl. auto.
    - right. split.
      + apply orb_true_iff. destruct Hne as [Hne | Hne]; [left | right];
          apply negb_true_iff, Z.eqb_neq; exact Hne.
      + apply Conv1d_init_inv in Hc as (-> & _).
        apply BatchNorm_init_inv in Hbn as (-> & _).
        do 2 eexists. split; [reflexivity |]. cbn. auto 10. }
  assert (Hnone : Forall (fun b => ResBasicBlock.downsample b = None) others
                  /\ forall b, In b others -> forall training x,
                       ResBasicBlock.forward training b x
                       = spec_ResidualBlock1D training b false x).
  { clear Hfirst Hfd Hcases Hds.
    induction Hothers as [| i b idxs bs Hb _ [IH1 IH2]];
      [split; [constructor | intros b []] |].
    split.
    - constructor; [| exact IH1].
      destruct (ResBasicBlock_init_inv _ _ _ _ _ _ _ _ Hb)
        as (? & ? & ? & ? & ? & -> & _). reflexivity.
    - intros b' [<- | Hin]; [| apply IH2; exact Hin].
      intros training x. rewrite <- (shape_mismatch_same planes).
      eapply ResBasicBlock_forward_refines; [exact Hb |].
      left. split; [apply shape_mismatch_same | reflexivity]. }
  destruct Hnone as [Hn1 Hn2].
  split.
  { rewrite Hfd. destruct Hcases as [[Hm ->] | (Hm & c & bn & -> & _)]; rewrite Hm.
    - tauto.
    - split; discriminate. }
  split.
  { intros Hm. rewrite Hfd.
    destruct Hcases as [[Hm' _] | (_ & c & bn & -> & Hrest)]; [congruence |].
    exists c, bn. split; [reflexivity | exact Hrest]. }
  split; [exact Hn1 |]. split; [| exact Hn2].
  intros training x. eapply ResBasicBlock_forward_refines; [exact Hfirst |].
  destruct Hcases as [Hc | (Hm & c & bn & -> & _ & D2 & D3 & D4 & D5 & _)];
    [left; exact Hc |].
  right. split; [exact Hm |]. exists c, bn. auto.
Qed.

Lemma ResidualBlock1D_forward_as_specified_witness :
  exists first c bn,
    SignalSegment2Vec._make_layer (fun _ _ => 0%R) "AFR" 128 30 1 1 = Ok ([first], 30)
    /\ ResBasicBlock.downsample first = Some [Conv1d_ c; BatchNorm1d_ bn]
    /\ Conv1d.kernel_size c = 1
    /\ forall training x,
         ResBasicBlock.forward training first x
         = spec_ResidualBlock1D training first true x.
Proof.
  assert (Hl : exists first,
             SignalSegment2Vec._make_layer (fun _ _ => 0%R) "AFR" 128 30 1 1
             = Ok ([first], 30)) by (eexists; reflexivity).
  destruct Hl as (first & Hl). exists first.
  destruct (ResidualBlock1D_forward_as_specified _ _ _ _ _ _ _ _ Hl)
    as (f & o & E & _ & Hds & _ & Hf & _).
  injection E as <- _.
  destruct (Hds eq_refl) as (c & bn & Hd & _ & _ & Hk & _).
  exists c, bn. split; [exact Hl |]. split; [exact Hd |]. split; [exact Hk |].
  exact Hf.
Defined.

(** * The windows of the segmentation stage *)

(** A step that returns, followed by a step that raises. *)
Lemma returns_bind_raises {B : Type} (r : result tensor) (k : tensor -> result B)
    (s : shape) (e : exn) :
  returns r s -> (forall y, size y = s -> k y = Raise e) -> bind r k = Raise e.
Proof. intros (y & -> & Hy) Hk. cbn. apply Hk, Hy. Qed.

Lemma permute_021_eq (x : tensor) (a b c : Z) :
  size x = [a; b; c] ->
  permute [0; 2; 1] x
  = Ok (Tensor [a; c; b] (fun i => item x [dim i 0; dim i 2; dim i 1])).
Proof. intros Hx. unfold permute. rewrite Hx. reflexivity. Qed.

Lemma permute_0213_eq (x : tensor) (a b c d : Z) :
  size x = [a; b; c; d] ->
  permute [0; 2; 1; 3] x
  = Ok (Tensor [a; c; b; d] (fun i => item x [dim i 0; dim i 2; dim i 1; dim i 3])).
Proof. intros Hx. unfold permute. rewrite Hx. reflexivity. Qed.

Lemma unsqueeze_before_last_eq (x : tensor) (a b c : Z) :
  size x = [a; b; c] ->
  unsqueeze (-2) x = Ok (Tensor [a; b; 1; c] (fun i => item x (remove_at 2 i))).
Proof. intros Hx. unfold unsqueeze. rewrite Hx. reflexivity. Qed.

(** The segmentation stage with its entries: entry [j] of window [k] is
    the sample at [k * stride + j]. *)
Lemma SignalSegmentDefinition_forward_eq
    (self : SignalSegmentDefinition.t) (x : tensor) (B L W : Z) :
  SignalSegmentDefinition.kernel_size self = (1, W) ->
  size x = [B; 1; 1; L] ->
  0 < W <= L -> 0 < SignalSegmentDefinition.stride self ->
  exists y,
    SignalSegmentDefinition.forward self x = Ok y
    /\ size y = [B; (L - W) / SignalSegmentDefinition.stride self + 1; 1; W]
    /\ forall b k j,
         0 <= k < (L - W) / SignalSegmentDefinition.stride self + 1 -> 0 <= j < W ->
         item y [b; k; 0; j]
         = item x [b; 0; 0; k * SignalSegmentDefinition.stride self + j].
Proof.
  intros Hk Hx HW Hs.
  set (s := SignalSegmentDefinition.stride self) in *.
  assert (HK : 0 <= (L - W) / s) by (apply Z.div_pos; lia).
  assert (E0 : (1 - 1) / s = 0) by (apply Z.div_0_l; lia).
  unfold SignalSegmentDefinition.forward. rewrite Hk. fold s.
  unfold unfold. rewrite Hx, E0. do 2 pass. cbn [bind].
  rewrite (permute_021_eq _ B (1 * 1 * W) ((0 + 1) * ((L - W) / s + 1))) by reflexivity.
  cbn [bind].
  rewrite (unsqueeze_before_last_eq _ B ((0 + 1) * ((L - W) / s + 1)) (1 * 1 * W))
    by reflexivity.
  cbn [bind]. eexists. split; [reflexivity |]. split.
  { cbn [size]. replace ((0 + 1) * ((L - W) / s + 1)) with ((L - W) / s + 1) by lia.
    replace (1 * 1 * W) with W by lia. reflexivity. }
  intros b k j Hk' Hj. cbn [item].
  change (remove_at 2 [b; k; 0; j]) with [b; k; j].
  change (dim [b; k; j] 0) with b. change (dim [b; k; j] 1) with k.
  change (dim [b; k; j] 2) with j.
  change (dim [b; j; k] 0) with b. change (dim [b; j; k] 1) with j.
  change (dim [b; j; k] 2) with k.
  rewrite Z.mul_1_l.
  rewrite (Z.mod_small j W), (Z.div_small j W), (Z.div_small k), (Z.mod_small k) by lia.
  reflexivity.
Qed.

(** X1.  The windows of the segmentation stage: window [k] is the run of [W]
    consecutive samples that starts at sample [k * stride]; every window
    lies inside the signal, consecutive windows share their
    [W - stride] overlapping samples, and the samples after the last
    window, fewer than [stride] of them, are in no window. *)
Theorem segments_are_sliding_windows
    (self : SignalSegmentDefinition.t) (x : tensor) (B L W : Z) :
  SignalSegmentDefinition.kernel_size self = (1, W) ->
  size x = [B; 1; 1; L] ->
  0 < W <= L -> 0 < SignalSegmentDefinition.stride self ->
  let s := SignalSegmentDefinition.stride self in
  let K := (L - W) / s + 1 in
  exists y,
    SignalSegmentDefinition.forward self x = Ok y
    /\ size y = [B; K; 1; W]
    /\ (forall b k j, 0 <= b < B -> 0 <= k < K -> 0 <= j < W ->
          item y [b; k; 0; j] = item x [b; 0; 0; k * s + j]
          /\ in_bounds (size x) [b; 0; 0; k * s + j])
    /\ (forall b k j, 0 <= b < B -> 0 <= k -> k + 1 < K -> 0 <= j -> j + s < W ->
          item y [b; k + 1; 0; j] = item y [b; k; 0; j + s])
    /\ (K - 1) * s + W <= L < K * s + W.
Proof.
  intros Hk Hx HW Hs s K.
  destruct (SignalSegmentDefinition_forward_eq self x B L W Hk Hx HW Hs)
    as (y & Hy & Hsize & Hitem).
  fold s in Hsize, Hitem. fold K in Hsize, Hitem.
  assert (HK : 0 <= (L - W) / s) by (apply Z.div_pos; lia).
  assert (Hcover : (K - 1) * s + W <= L < K * s + W).
  { unfold K. pose proof (Z.div_mod (L - W) s ltac:(lia)) as Hdm.
    pose proof (Z.mod_pos_bound (L - W) s Hs) as Hr. nia. }
  assert (HK1 : 1 <= K) by (unfold K; lia).
  fold s in Hs. clearbody K. clearbody s. clear HK.
  exists y. split; [exact Hy |]. split; [exact Hsize |].
  split; [| split; [| exact Hcover]].
  - intros b k j Hb Hk' Hj. split; [apply Hitem; assumption |].
    assert (0 <= k * s <= (K - 1) * s)
      by (split; [apply Z.mul_nonneg_nonneg | apply Z.mul_le_mono_nonneg_r]; lia).
    rewrite Hx. cbn [in_bounds]. repeat split; first [lia | exact I].
  - intros b k j Hb Hk0 Hk1 Hj0 Hj1.
    rewrite !Hitem by lia.
    replace ((k + 1) * s + j) with (k * s + (j + s)) by lia. reflexivity.
Qed.

Lemma segments_are_sliding_windows_witness :
  exists y,
    SignalSegmentDefinition.forward (SignalSegmentDefinition.init (1, 30) 15)
      (Tensor [2; 1; 1; 3000] (fun i => IZR (dim i 3))) = Ok y
    /\ size y = [2; 199; 1; 30]
    /\ item y [1; 198; 0; 29] = IZR 2999.
Proof.
  destruct (segments_are_sliding_windows (SignalSegmentDefinition.init (1, 30) 15)
              (Tensor [2; 1; 1; 3000] (fun i => IZR (dim i 3))) 2 3000 30
              eq_refl eq_refl ltac:(lia) ltac:(cbn; lia))
    as (y & Hy & Hs & Hitem & _).
  exists y. split; [exact Hy |]. split; [exact Hs |].
  destruct (Hitem 1 198 29 ltac:(lia) ltac:(cbn; lia) ltac:(lia)) as [-> _].
  reflexivity.
Defined.

(** * Configurations the representation refuses *)

(** X2.  The constructor [SignalSegmentRepresentation.__init__] checks neither
    the overlap rate nor the window length.  A model whose stride came out
    as zero or negative (an overlap rate of 1.0 or more), and a window
    longer than the signal, are refused by the forward pass alone, by
    [F.unfold], with RuntimeError. *)
Theorem representation_refuses_stride_and_window
    (initial : initializer) (W : Z) (r : float) (segment_num : Z)
    (m : SignalSegmentRepresentation.t) (training : bool) (x : tensor) (n c h w : Z) :
  SignalSegmentRepresentation.init initial W r segment_num = Ok m ->
  size x = [n; c; h; w] ->
  SignalSegmentRepresentation.overlapping m <= 0 \/ w < W ->
  SignalSegmentRepresentation.forward training m x = Raise RuntimeError.
Proof.
  intros Hm Hx Hbad.
  destruct (SignalSegmentRepresentation_init_inv _ _ _ _ _ Hm)
    as (s2v & g & _ & Hseg & _).
  unfold SignalSegmentRepresentation.forward, SignalSegmentDefinition.forward.
  rewrite Hseg. cbn [SignalSegmentDefinition.init SignalSegmentDefinition.kernel_size
                     SignalSegmentDefinition.stride].
  set (s := SignalSegmentRepresentation.overlapping m) in *.
  unfold unfold. rewrite Hx.
  destruct ((0 <? 1) && (0 <? W) && (0 <? s)) eqn:E1; [| reflexivity].
  apply andb_prop in E1 as [E1 Es]. apply andb_prop in E1 as [_ EW].
  apply Z.ltb_lt in Es, EW.
  destruct Hbad as [Hs | Hw]; [lia |].
  assert (Hq : (w - W) / s < 0) by (apply Z.div_lt_upper_bound; lia).
  cbn [guard bind]. rewrite guard_false; [reflexivity |].
  apply andb_false_iff. right. apply Z.leb_gt. lia.
Qed.

Lemma representation_refuses_stride_and_window_witness :
  exists m,
    SignalSegmentRepresentation.init (fun _ _ => 0%R) 30 1%float 199 = Ok m
    /\ SignalSegmentRepresentation.overlapping m = 0
    /\ SignalSegmentRepresentation.forward true m (Tensor [4; 1; 1; 3000] (fun _ => 0%R))
       = Raise RuntimeError.
Proof.
  assert (Hinit : exists m,
             SignalSegmentRepresentation.init (fun _ _ => 0%R) 30 1%float 199 = Ok m
             /\ SignalSegmentRepresentation.overlapping m = 0).
  { eexists. split; reflexivity. }
  destruct Hinit as (m & Hm & Hs). exists m. split; [exact Hm |]. split; [exact Hs |].
  apply (representation_refuses_stride_and_window _ _ _ _ _ true
           (Tensor [4; 1; 1; 3000] (fun _ => 0%R)) 4 1 1 3000 Hm eq_refl).
  left. rewrite Hs. lia.
Defined.

(** The squeezed windows: when the batch, the number of windows or the
    window length is one, fewer than three axes are left. *)
Lemma squeeze_degenerate (B K W : Z) :
  B = 1 \/ K = 1 \/ W = 1 ->
  1 <= K -> 1 <= W ->
  let s := filter (fun d => negb (d =? 1)) [B; K; 1; W] in
  (List.length s <= 1)%nat \/ exists a b, s = [a; b] /\ 1 <= b.
Proof.
  intros H HK HW. cbn.
  destruct (Z.eqb_spec B 1), (Z.eqb_spec K 1), (Z.eqb_spec W 1); cbn; auto;
    try (right; do 2 eexists; split; [reflexivity | lia]).
  lia.
Qed.

(** X3.  [x.squeeze()] removes every axis of size one, not only the singleton
    axis of the windows: when the signal gives a single window, when the
    window has a single sample, or when the batch has a single signal, the
    loop over the windows indexes three axes of a tensor that has fewer,
    and the forward pass raises IndexError. *)
Theorem representation_degenerate_axes_raise
    (initial : initializer) (W : Z) (r : float) (segment_num : Z)
    (m : SignalSegmentRepresentation.t) (training : bool) (x : tensor) (B L : Z) :
  SignalSegmentRepresentation.init initial W r segment_num = Ok m ->
  size x = [B; 1; 1; L] ->
  1 <= W <= L ->
  1 <= SignalSegmentRepresentation.overlapping m ->
  B = 1 \/ (L - W) / SignalSegmentRepresentation.overlapping m + 1 = 1 \/ W = 1 ->
  SignalSegmentRepresentation.forward training m x = Raise IndexError.
Proof.
  intros Hm Hx HW Hs Hdeg.
  destruct (SignalSegmentRepresentation_init_inv _ _ _ _ _ Hm)
    as (s2v & g & _ & Hseg & _).
  set (s := SignalSegmentRepresentation.overlapping m) in *.
  assert (HK : 0 <= (L - W) / s) by (apply Z.div_pos; lia).
  unfold SignalSegmentRepresentation.forward.
  eapply returns_bind_raises.
  { rewrite Hseg. apply (SignalSegmentDefinition_forward_size _ x B L W);
      cbn; auto; lia. }
  intros y Hy.
  cbn [SignalSegmentDefinition.init SignalSegmentDefinition.stride] in Hy. fold s in Hy.
  cbn [squeeze bind]. unfold size_at at 1. cbn [size]. rewrite Hy.
  destruct (squeeze_degenerate B ((L - W) / s + 1) W Hdeg ltac:(lia) ltac:(lia))
    as [Hlen | (a & b & E & Hb)].
  - match goal with
    | |- context [nth_error ?l 1] => destruct l as [| d [| d' l']]
    end; cbn in Hlen; try lia; reflexivity.
  - rewrite E. cbn [nth_error bind].
    destruct (range_pos b ltac:(lia)) as (l & ->).
    rewrite (mapM_first_raises _ 0 l IndexError); [reflexivity |].
    unfold getitem_colon_int_colon. cbn [size]. reflexivity.
Qed.

Lemma representation_degenerate_axes_raise_witness :
  exists m,
    SignalSegmentRepresentation.init (fun _ _ => 0%R) 30 0.5%float 199 = Ok m
    /\ SignalSegmentRepresentation.forward true m (Tensor [4; 1; 1; 40] (fun _ => 0%R))
       = Raise IndexError.
Proof.
  assert (Hinit : exists m,
             SignalSegmentRepresentation.init (fun _ _ => 0%R) 30 0.5%float 199 = Ok m
             /\ SignalSegmentRepresentation.overlapping m = 15).
  { eexists. split; reflexivity. }
  destruct Hinit as (m & Hm & Hs). exists m. split; [exact Hm |].
  apply (representation_degenerate_axes_raise _ _ _ _ _ true
           (Tensor [4; 1; 1; 40] (fun _ => 0%R)) 4 40 Hm eq_refl);
    rewrite ?Hs; [lia | lia |].
  right. left. reflexivity.
Defined.

(** * The encoder of a window *)

(** The two strided layers and the two poolings of
    [SignalSegment2Vec.features] divide the length by 6, 4 and 4: what is
    left of [w] samples is [ceil(w / 96)]. *)
Lemma encoded_length_closed (w : Z) : 1 <= w -> encoded_length w = (w - 1) / 96 + 1.
Proof. intros Hw. unfold encoded_length. cbn. lia. Qed.

(** X4.  [SignalSegment2Vec.forward] takes windows of one channel: on an input
    of size (B, 1, W) it returns size (B, afr_reduced_cnn_size,
    ceil(W / 96)), the window shortened 96 times, and on an input with any
    other number of channels its first convolution raises RuntimeError. *)
Theorem SignalSegment2Vec_shortens_by_96
    (initial : initializer) (name : string) (afr : Z) (m : SignalSegment2Vec.t)
    (training : bool) (x : tensor) (B c W : Z) :
  SignalSegment2Vec.init initial name afr = Ok m ->
  size x = [B; c; W] ->
  1 <= afr -> 1 <= B -> 1 <= W -> batch_ok training B ->
  (c = 1 -> returns (SignalSegment2Vec.forward training m x) [B; afr; (W - 1) / 96 + 1])
  /\ (c <> 1 -> SignalSegment2Vec.forward training m x = Raise RuntimeError).
Proof.
  intros Hm Hx Hafr HB HW Hok. split.
  - intros ->. rewrite <- encoded_length_closed by exact HW.
    eapply SignalSegment2Vec_forward_size; eassumption.
  - intros Hc.
    destruct (SignalSegment2Vec_init_inv _ _ _ _ Hm)
      as (c0 & c4 & c7 & b1 & b5 & b8 & ds & blk & Hf & Hc0 & _).
    apply Conv1d_init_inv in Hc0 as (-> & _).
    unfold SignalSegment2Vec.forward. rewrite Hf.
    cbn [Sequential_forward layer_forward]. unfold Conv1d.forward at 1.
    rewrite Hx. cbn [Conv1d.stride Conv1d.padding Conv1d.kernel_size
                     Conv1d.out_channels Conv1d.in_channels].
    pass. rewrite guard_false by bfalse. reflexivity.
Qed.

Lemma SignalSegment2Vec_shortens_by_96_witness :
  exists m,
    SignalSegment2Vec.init (fun _ _ => 0%R) "segment2vec" 30 = Ok m
    /\ returns (SignalSegment2Vec.forward true m (Tensor [2; 1; 200] (fun _ => 0%R)))
               [2; 30; 3].
Proof.
  assert (Hinit : exists m,
             SignalSegment2Vec.init (fun _ _ => 0%R) "segment2vec" 30 = Ok m).
  { eexists. reflexivity. }
  destruct Hinit as (m & Hm). exists m. split; [exact Hm |].
  refine (proj1 (SignalSegment2Vec_shortens_by_96 _ _ _ _ true
                   (Tensor [2; 1; 200] (fun _ => 0%R)) 2 1 200 Hm eq_refl
                   _ _ _ _) eq_refl); try lia.
  intros _. lia.
Defined.

(** * One factor per sample and channel *)

Lemma Conv2d_forward_inv (c : Conv2d.t) (x y : tensor) :
  Conv2d.forward c x = Ok y ->
  exists n h w,
    size x = [n; Conv2d.in_channels c; h; w]
    /\ size y = [n; Conv2d.out_channels c; Conv2d.out_length c h; Conv2d.out_length c w].
Proof.
  unfold Conv2d.forward.
  destruct (size x) as [| n [| ch [| h [| w [| ? ?]]]]]; try discriminate.
  intros H. inv_res H. subst y. apply Z.eqb_eq in Hg0. subst ch.
  exists n, h, w. cbn [size]. auto.
Qed.

(** The product [x * y.expand_as(x)]. *)
Lemma gate_product (g x e y : tensor) :
  expand_as g x = Ok e ->
  mul x e = Ok y ->
  size y = size x
  /\ forall i, in_bounds (size x) i ->
       item y i = (item x i * item g (bcast_index (size g) i))%R.
Proof.
  intros He Hy. apply expand_as_inv in He as [Hes Hei].
  unfold mul, binary in Hy. inv_res Hy. subst y.
  apply broadcast_shapes_same_inv in Hb; [| exact Hes]. subst a.
  split; [reflexivity |]. cbn [size item]. intros i Hi.
  rewrite Hes, bcast_index_in_bounds by exact Hi. rewrite Hei. reflexivity.
Qed.

(** The global node attention multiplies all the entries of a channel of
    a sample by one and the same factor. *)
Lemma GNA_forward_factor
    (initial : initializer) (name : string) (channel reduction : Z) (g : GNA.t)
    (training : bool) (x y : tensor) :
  GNA.init initial name channel reduction = Ok g ->
  GNA.forward training g x = Ok y ->
  exists f : Z -> Z -> R,
    (forall b c, 0 < f b c < 1)%R
    /\ size y = size x
    /\ forall b c h w, in_bounds (size x) [b; c; h; w] ->
         item y [b; c; h; w] = (item x [b; c; h; w] * f b c)%R.
Proof.
  intros Hg Hy.
  apply GNA_init_inv in Hg
    as (fc0 & fc2 & -> & I0 & I02 & I2 & O0 & K0 & S0 & P0 & K2 & S2 & P2).
  unfold GNA.forward in Hy.
  destruct (size x) as [| n [| ch [| h0 [| w0 [| ? ?]]]]] eqn:Hx; try discriminate.
  cbn [GNA.fc Sequential_forward layer_forward] in Hy. inv_res Hy.
  match goal with
  | Hp : AdaptiveAvgPool2d_1 x = Ok ?p |- _ =>
      unfold AdaptiveAvgPool2d_1 in Hp; rewrite Hx in Hp; inv_res Hp;
      assert (Sp : size p = [n; ch; 1; 1]) by (subst p; reflexivity); clear Hp
  end.
  inv_all.
  match goal with
  | Hc : Conv2d.forward fc0 _ = Ok _ |- _ =>
      apply Conv2d_forward_inv in Hc as (n1 & h1 & w1 & Sin0 & Sout0)
  end.
  match goal with
  | Hc : Conv2d.forward fc2 _ = Ok _ |- _ =>
      apply Conv2d_forward_inv in Hc as (n2 & h2 & w2 & Sin2 & Sout2)
  end.
  rewrite Sp in Sin0. injection Sin0 as <- _ <- <-.
  subst. cbn [size tmap] in Sin2. rewrite Sout0 in Sin2. injection Sin2 as <- _ <- <-.
  rewrite !Conv2d_out_length_pointwise in * by assumption.
  match goal with
  | He : expand_as ?gate x = Ok ?e, Hm : mul x ?e = Ok y |- _ =>
      destruct (gate_product gate x e y He Hm) as [Hsize Hitem];
      exists (fun b c => item gate (bcast_index (size gate) [b; c; 0; 0]))
  end.
  split; [intros b c; cbn [item tmap]; apply Sigmoid_bounds |].
  rewrite Hx in Hsize, Hitem. split; [exact Hsize |].
  intros b c h w Hi. rewrite (Hitem _ Hi). do 2 f_equal.
  cbn [size tmap]. rewrite Sout2. reflexivity.
Qed.

Lemma view_three_axes_inv (a b : Z) (x y : tensor) :
  view [a; b; 1] x = Ok y -> exists p q, size y = [p; q; 1].
Proof.
  unfold view.
  destruct (infer_size [a; b; 1] (numel (size x))) as [s | e] eqn:E; [| discriminate].
  cbn [bind]. intros H. apply Ok_inj in H. subst y. cbn [size].
  unfold infer_size in E. apply guard_inv in E as [_ E]. cbn [filter] in E.
  destruct (a =? -1) eqn:Ea, (b =? -1) eqn:Eb; cbn in E; try discriminate;
    apply guard_inv in E as [_ E]; apply Ok_inj in E; subst s;
    cbn; rewrite ?Ea, ?Eb; eauto.
Qed.

(** So does the gate of the residual block. *)
Lemma ResLayer_forward_factor
    (initial : initializer) (name : string) (channel reduction : Z) (m : ResLayer.t)
    (training : bool) (x y : tensor) :
  ResLayer.init initial name channel reduction = Ok m ->
  ResLayer.forward training m x = Ok y ->
  exists f : Z -> Z -> R,
    (forall b c, 0 < f b c < 1)%R
    /\ size y = size x
    /\ forall b c l, in_bounds (size x) [b; c; l] ->
         item y [b; c; l] = (item x [b; c; l] * f b c)%R.
Proof.
  intros Hm Hy.
  apply ResLayer_init_inv in Hm as (fc0 & fc2 & -> & _).
  unfold ResLayer.forward in Hy.
  destruct (size x) as [| n [| ch [| l0 [| ? ?]]]] eqn:Hx; try discriminate.
  cbn [ResLayer.fc Sequential_forward layer_forward] in Hy. inv_res Hy.
  match goal with
  | He : expand_as ?gate x = Ok ?e, Hm : mul x ?e = Ok y |- _ =>
      destruct (gate_product gate x e y He Hm) as [Hsize Hitem];
      exists (fun b c => item gate (bcast_index (size gate) [b; c; 0]))
  end.
  match goal with
  | Hv : view [n; ch; 1] ?t = Ok ?gate |- _ =>
      destruct (view_three_axes_inv _ _ _ _ Hv) as (p & q & Sg);
      pose proof (view_inv _ _ _ Hv) as Hval
  end.
  split.
  { intros b c.
    match goal with
    | |- context [item ?gate ?i] => destruct (Hval i) as (j & ->)
    end.
    inv_all. subst. cbn [item tmap]. apply Sigmoid_bounds. }
  rewrite Hx in Hsize, Hitem. split; [exact Hsize |].
  intros b c l Hi. rewrite (Hitem _ Hi). do 2 f_equal.
  rewrite Sg. reflexivity.
Qed.

(** X5.  Both gates scale a whole channel of a sample by one factor: whatever
    [ResLayer.forward] and [GNA.forward] return is the input with every
    entry of channel [c] of sample [b] multiplied by the same number
    [f b c], strictly between 0 and 1, whatever the position of the entry
    along the remaining axes. *)
Theorem gates_scale_whole_channels
    (initial : initializer) (name : string) (channel reduction : Z)
    (m : ResLayer.t) (g : GNA.t) (training : bool) :
  ResLayer.init initial name channel reduction = Ok m ->
  GNA.init initial name channel reduction = Ok g ->
  (forall x y, ResLayer.forward training m x = Ok y ->
     exists f : Z -> Z -> R,
       (forall b c, 0 < f b c < 1)%R
       /\ size y = size x
       /\ forall b c l, in_bounds (size x) [b; c; l] ->
            item y [b; c; l] = (item x [b; c; l] * f b c)%R)
  /\ (forall x y, GNA.forward training g x = Ok y ->
        exists f : Z -> Z -> R,
          (forall b c, 0 < f b c < 1)%R
          /\ size y = size x
          /\ forall b c h w, in_bounds (size x) [b; c; h; w] ->
               item y [b; c; h; w] = (item x [b; c; h; w] * f b c)%R).
Proof.
  intros Hm Hg. split.
  - intros x y. eapply ResLayer_forward_factor; eassumption.
  - intros x y. eapply GNA_forward_factor; eassumption.
Qed.

Lemma gates_scale_whole_channels_witness :
  exists g y (f : Z -> Z -> R),
    GNA.init (fun _ _ => 1%R) "gna" 4 2 = Ok g
    /\ GNA.forward false g (Tensor [2; 4; 1; 3] (fun i => IZR (dim i 3))) = Ok y
    /\ item y [1; 2; 0; 1] = (1 * f 1%Z 2%Z)%R
    /\ item y [1; 2; 0; 2] = (2 * f 1%Z 2%Z)%R.
Proof.
  assert (Hm : exists m, ResLayer.init (fun _ _ => 1%R) "gna" 4 2 = Ok m)
    by (eexists; reflexivity).
  assert (Hg : exists g, GNA.init (fun _ _ => 1%R) "gna" 4 2 = Ok g)
    by (eexists; reflexivity).
  destruct Hm as (m & Hm). destruct Hg as (g & Hg).
  destruct (GNA_forward_size _ _ _ _ g false
              (Tensor [2; 4; 1; 3] (fun i => IZR (dim i 3))) 2 1 3 Hg eq_refl
              ltac:(lia) ltac:(cbn; lia) ltac:(lia) ltac:(lia))
    as (y & Hy & _).
  destruct (gates_scale_whole_channels _ _ _ _ m g false Hm Hg) as [_ Hgna].
  destruct (Hgna _ _ Hy) as (f & _ & _ & Hf).
  exists g, y, f. split; [exact Hg |]. split; [exact Hy |].
  split; (rewrite Hf; [reflexivity | cbn; lia]).
Defined.

(** * What the gates refuse *)

(** X6.  The gates unpack the size of their input, [b, c, _ = x.size()] and
    [b, c, _, _ = x.size()]: an input with another number of axes raises
    ValueError, and one with another number of channels than the gate was
    built for is refused by the first layer of [fc] with RuntimeError. *)
Theorem gates_refuse_other_inputs
    (initial : initializer) (name : string) (channel reduction : Z)
    (m : ResLayer.t) (g : GNA.t) (training : bool) (x : tensor) :
  ResLayer.init initial name channel reduction = Ok m ->
  GNA.init initial name channel reduction = Ok g ->
  (List.length (size x) <> 3%nat -> ResLayer.forward training m x = Raise ValueError)
  /\ (List.length (size x) <> 4%nat -> GNA.forward training g x = Raise ValueError)
  /\ (forall B c L, size x = [B; c; L] -> 1 <= B -> 1 <= c -> 1 <= L -> c <> channel ->
        ResLayer.forward training m x = Raise RuntimeError)
  /\ (forall B c H W, size x = [B; c; H; W] -> 1 <= H -> 1 <= W -> c <> channel ->
        GNA.forward training g x = Raise RuntimeError).
Proof.
  intros Hm Hg.
  apply ResLayer_init_inv in Hm as (l0 & l2 & -> & J0 & _).
  apply GNA_init_inv in Hg as (fc0 & fc2 & -> & I0 & _).
  split; [| split; [| split]].
  - intros Hlen. unfold ResLayer.forward.
    destruct (size x) as [| b [| c [| l [| ? ?]]]]; cbn in Hlen; congruence.
  - intros Hlen. unfold GNA.forward.
    destruct (size x) as [| b [| c [| h [| w [| ? ?]]]]]; cbn in Hlen; congruence.
  - intros B c L Hx HB Hc HL Hne. unfold ResLayer.forward. rewrite Hx.
    eapply returns_bind_raises; [eapply AdaptiveAvgPool1d_1_size; [exact Hx | lia] |].
    intros p Hp.
    eapply returns_bind_raises.
    { apply view_size; [repeat constructor; lia | rewrite Hp; cbn; lia]. }
    intros v Hv. cbn [ResLayer.fc Sequential_forward layer_forward].
    unfold Linear.forward at 1. rewrite Hv. cbn [rev app].
    rewrite guard_false by (rewrite J0; bfalse). reflexivity.
  - intros B c H W Hx HH HW Hne. unfold GNA.forward. rewrite Hx.
    eapply returns_bind_raises; [eapply AdaptiveAvgPool2d_1_size; [exact Hx | lia | lia] |].
    intros p Hp. cbn [GNA.fc Sequential_forward layer_forward].
    unfold Conv2d.forward at 1. rewrite Hp.
    match goal with |- context [guard ?b RuntimeError] => destruct b end;
      [| reflexivity].
    cbn [guard bind]. rewrite guard_false by (rewrite I0; bfalse). reflexivity.
Qed.

Lemma gates_refuse_other_inputs_witness :
  exists m g,
    ResLayer.init (fun _ _ => 0%R) "gate" 4 2 = Ok m
    /\ GNA.init (fun _ _ => 0%R) "gate" 4 2 = Ok g
    /\ ResLayer.forward false m (Tensor [4; 3] (fun _ => 0%R)) = Raise ValueError
    /\ GNA.forward false g (Tensor [2; 5; 1; 3] (fun _ => 0%R)) = Raise RuntimeError.
Proof.
  assert (Hm : exists m, ResLayer.init (fun _ _ => 0%R) "gate" 4 2 = Ok m)
    by (eexists; reflexivity).
  assert (Hg : exists g, GNA.init (fun _ _ => 0%R) "gate" 4 2 = Ok g)
    by (eexists; reflexivity).
  destruct Hm as (m & Hm). destruct Hg as (g & Hg). exists m, g.
  split; [exact Hm |]. split; [exact Hg |]. split.
  - refine (proj1 (gates_refuse_other_inputs _ _ _ _ m g false
                     (Tensor [4; 3] (fun _ => 0%R)) Hm Hg) _).
    cbn. discriminate.
  - refine (proj2 (proj2 (proj2 (gates_refuse_other_inputs _ _ _ _ m g false
                     (Tensor [2; 5; 1; 3] (fun _ => 0%R)) Hm Hg))) 2 5 1 3 eq_refl _ _ _);
      lia.
Defined.

(** * The attention of a signal is its own *)

Lemma Conv2d_entry_agree (m : Conv2d.t) (x x' : tensor) (b o i2 i3 H W : Z) :
  dim (size x) 2 = H -> dim (size x') 2 = H ->
  dim (size x) 3 = W -> dim (size x') 3 = W ->
  agree_at b x x' (Conv2d.in_channels m) H W ->
  Conv2d.entry m x [b; o; i2; i3] = Conv2d.entry m x' [b; o; i2; i3].
Proof.
  intros H2 H2' H3 H3' Hag. unfold Conv2d.entry. rewrite H2, H2', H3, H3'.
  f_equal. apply Rsum_ext. intros c Hc. apply Rsum_ext. intros u Hu.
  apply Rsum_ext. intros v Hv. cbv zeta. f_equal.
  change (dim [b; o; i2; i3] 0) with b.
  change (dim [b; o; i2; i3] 2) with i2. change (dim [b; o; i2; i3] 3) with i3.
  match goal with |- (if ?g then _ else _) = _ => destruct g eqn:G end;
    [| reflexivity].
  apply andb_prop in G as [G G4]. apply andb_prop in G as [G G3].
  apply andb_prop in G as [G1 G2].
  apply Z.leb_le in G1, G3. apply Z.ltb_lt in G2, G4.
  apply Hag; lia.
Qed.

(** X7.  On two batches that hold the same signal at position [b], whatever
    the other signals and the sizes of the batches, the global node
    attention returns the same entries at position [b]: the weights of the
    windows of a signal are computed from that signal alone. *)
Theorem attention_of_a_signal_is_its_own
    (initial : initializer) (name : string) (channel reduction : Z) (g : GNA.t)
    (training : bool) (x x' : tensor) (B B' H W b : Z) :
  GNA.init initial name channel reduction = Ok g ->
  size x = [B; channel; H; W] -> size x' = [B'; channel; H; W] ->
  1 <= channel -> 1 <= channel / reduction -> 0 < H -> 0 < W ->
  0 <= b < B -> b < B' ->
  agree_at b x x' channel H W ->
  exists y y',
    GNA.forward training g x = Ok y
    /\ GNA.forward training g x' = Ok y'
    /\ size y = size x /\ size y' = size x'
    /\ agree_at b y y' channel H W.
Proof.
  intros Hg Hx Hx' Hch Hhid HH HW Hb Hb' Hag.
  apply GNA_init_inv in Hg
    as (fc0 & fc2 & -> & I0 & I02 & I2 & O0 & K0 & S0 & P0 & K2 & S2 & P2).
  assert (Hfwd : forall (z : tensor) (N : Z), size z = [N; channel; H; W] ->
            exists p t1 t2,
              size p = [N; channel; 1; 1]
              /\ (forall i, item p i
                    = (Rsum H (fun u => Rsum W (fun v =>
                         item z [dim i 0; dim i 1; u; v])) / IZR (H * W))%R)
              /\ t1 = Tensor [N; Conv2d.out_channels fc0; 1; 1] (Conv2d.entry fc0 p)
              /\ t2 = Tensor [N; channel; 1; 1] (Conv2d.entry fc2 (tmap GELU t1))
              /\ GNA.forward training
                   {| GNA.fc := [Conv2d_ fc0; GELU_; Conv2d_ fc2; Sigmoid_] |} z
                 = Ok (Tensor [N; channel; H; W]
                         (fun i => (item z (bcast_index [N; channel; H; W] i)
                                    * item (tmap Sigmoid t2)
                                        (bcast_index [N; channel; 1; 1]%Z
                                           (bcast_index [N; channel; H; W] i)))%R))).
  { intros z N Hz. unfold GNA.forward. rewrite Hz.
    unfold AdaptiveAvgPool2d_1. rewrite Hz. pass. cbn [bind].
    exists (Tensor [N; channel; 1; 1]
              (fun i => (Rsum H (fun u => Rsum W (fun v =>
                           item z [dim i 0; dim i 1; u; v])) / IZR (H * W))%R)).
    do 2 eexists. split; [reflexivity |]. split; [intros i; reflexivity |].
    split; [reflexivity |]. split; [reflexivity |].
    cbn [GNA.fc Sequential_forward layer_forward].
    rewrite (Conv2d_forward_eq fc0 _ N channel 1 1) by (cbn [size]; auto; lia).
    rewrite !Conv2d_out_length_pointwise by assumption. cbn [bind].
    rewrite (Conv2d_forward_eq fc2 _ N (Conv2d.out_channels fc0) 1 1)
      by (cbn [size]; auto; lia).
    rewrite !Conv2d_out_length_pointwise by assumption. cbn [bind]. rewrite I2.
    rewrite (expand_as_last2 _ z [N; channel] H W) by (cbn [size app]; auto).
    cbn [bind app]. unfold mul. rewrite binary_same by (cbn [size]; auto).
    rewrite Hz. reflexivity. }
  destruct (Hfwd x B Hx) as (p & t1 & t2 & Sp & Ip & Et1 & Et2 & Hy).
  destruct (Hfwd x' B' Hx') as (p' & t1' & t2' & Sp' & Ip' & Et1' & Et2' & Hy').
  clear Hfwd.
  eexists. eexists. split; [exact Hy |]. split; [exact Hy' |].
  split; [rewrite Hx; reflexivity |]. split; [rewrite Hx'; reflexivity |].
  (* the pooled maps, the squeeze and the excitation agree at [b] *)
  assert (Ap : agree_at b p p' channel 1 1).
  { intros c h w Hc Hh Hw. rewrite Ip, Ip'.
    change (dim [b; c; h; w] 0) with b. change (dim [b; c; h; w] 1) with c.
    f_equal. apply Rsum_ext. intros u Hu. apply Rsum_ext. intros v Hv.
    apply Hag; lia. }
  assert (At1 : agree_at b (tmap GELU t1) (tmap GELU t1')
                  (Conv2d.in_channels fc2) 1 1).
  { intros c h w Hc Hh Hw. subst t1 t1'. cbn [item tmap]. f_equal.
    apply (Conv2d_entry_agree fc0 p p' b c h w 1 1);
      rewrite ?Sp, ?Sp'; try reflexivity.
    rewrite I0. exact Ap. }
  intros c h w Hc Hh Hw. cbn [item].
  rewrite (bcast_index_in_bounds [B; channel; H; W]) by (cbn [in_bounds]; lia).
  rewrite (bcast_index_in_bounds [B'; channel; H; W]) by (cbn [in_bounds]; lia).
  rewrite Hag by lia. f_equal.
  assert (Eb : forall N, b < N ->
            bcast_index [N; channel; 1; 1] [b; c; h; w] = [b; c; 0; 0]).
  { intros N HN. unfold bcast_index. cbn [List.length Nat.sub skipn bcast_aligned].
    replace (1 =? 1) with true by reflexivity.
    destruct (N =? 1) eqn:EN, (channel =? 1) eqn:EC;
      rewrite ?Z.eqb_eq in *; repeat f_equal; lia. }
  rewrite (Eb B), (Eb B') by lia.
  subst t2 t2'. cbn [item tmap]. f_equal.
  apply (Conv2d_entry_agree fc2 _ _ b c 0 0 1 1); subst t1 t1'; try reflexivity.
  exact At1.
Qed.

Lemma attention_of_a_signal_is_its_own_witness :
  exists g y y',
    GNA.init (fun _ _ => 1%R) "gna" 4 2 = Ok g
    /\ GNA.forward false g (Tensor [2; 4; 1; 3] (fun i => IZR (dim i 3))) = Ok y
    /\ GNA.forward false g
         (Tensor [5; 4; 1; 3] (fun i => (IZR (dim i 3) + IZR (dim i 0 - 1))%R)) = Ok y'
    /\ item y [1; 2; 0; 1] = item y' [1; 2; 0; 1].
Proof.
  assert (Hg : exists g, GNA.init (fun _ _ => 1%R) "gna" 4 2 = Ok g)
    by (eexists; reflexivity).
  destruct Hg as (g & Hg). exists g.
  destruct (attention_of_a_signal_is_its_own _ _ _ _ g false
              (Tensor [2; 4; 1; 3] (fun i => IZR (dim i 3)))
              (Tensor [5; 4; 1; 3] (fun i => (IZR (dim i 3) + IZR (dim i 0 - 1))%R))
              2 5 1 3 1 Hg eq_refl eq_refl)
    as (y & y' & Hy & Hy' & _ & _ & Hag); try (cbn; lia).
  { intros c h w _ _ _. cbn [item]. change (dim [1; c; h; w] 0 - 1) with 0.
    change (dim [1; c; h; w] 3) with w. lra. }
  exists y, y'. split; [exact Hg |]. split; [exact Hy |]. split; [exact Hy' |].
  apply Hag; lia.
Defined.

(** * The encoded windows and their attention *)

Lemma forward_after_encoded_segments
    (training : bool) (self : SignalSegmentRepresentation.t) (x : tensor) :
  SignalSegmentRepresentation.forward training self x
  = (ss <- encoded_segments training self x ;;
     y <- GNA.forward training (SignalSegmentRepresentation.gna self) ss ;;
     permute [0; 2; 1; 3] y).
Proof.
  unfold SignalSegmentRepresentation.forward, encoded_segments.
  destruct (SignalSegmentDefinition.forward _ x) as [x1 | e]; [| reflexivity].
  cbn [bind squeeze].
  match goal with |- context [size_at ?t 1] => destruct (size_at t 1) as [n | e] end;
    [| reflexivity].
  cbn [bind].
  match goal with |- context [mapM ?f ?l] => destruct (mapM f l) as [ys | e] end;
    [| reflexivity].
  cbn [bind]. destruct (cat ys 1) as [c | e]; [| reflexivity].
  cbn [bind]. destruct (unsqueeze 2 c) as [u | e]; reflexivity.
Qed.

(** The encoded windows of [B >= 2] signals: size (B, K, 1, C), whatever
    the number of segments the model was built for. *)
Lemma encoded_segments_size
    (initial : initializer) (W : Z) (r : float) (segment_num : Z)
    (m : SignalSegmentRepresentation.t) (training : bool) (x : tensor) (B L : Z) :
  SignalSegmentRepresentation.init initial W r segment_num = Ok m ->
  size x = [B; 1; 1; L] ->
  2 <= B -> 2 <= W <= L ->
  1 <= SignalSegmentRepresentation.overlapping m ->
  2 <= (L - W) / SignalSegmentRepresentation.overlapping m + 1 ->
  returns (encoded_segments training m x)
          [B; (L - W) / SignalSegmentRepresentation.overlapping m + 1; 1;
           30 * encoded_length W].
Proof.
  intros Hm Hx HB HW Hs HK.
  destruct (SignalSegmentRepresentation_init_inv _ _ _ _ _ Hm)
    as (s2v & g & _ & Hseg & Hs2v & Es2v & Hg & Eg).
  set (K := (L - W) / SignalSegmentRepresentation.overlapping m + 1) in *.
  unfold encoded_segments.
  eapply returns_bind.
  { rewrite Hseg. apply (SignalSegmentDefinition_forward_size _ x B L W);
      cbn; auto; lia. }
  intros x1 H1. cbn [SignalSegmentDefinition.init SignalSegmentDefinition.stride] in H1.
  fold K in H1.
  eapply returns_bind; [apply squeeze_size |].
  intros x2 H2. rewrite H1 in H2. cbn [filter] in H2.
  replace (B =? 1) with false in H2 by (symmetry; bfalse).
  replace (K =? 1) with false in H2 by (symmetry; bfalse).
  replace (W =? 1) with false in H2 by (symmetry; bfalse).
  cbn in H2.
  unfold size_at at 1. rewrite H2. cbn [nth_error bind].
  pose proof (SignalSegment2Vec_features_size _ _ _ _ training
                (Tensor [B; 1; W] (fun _ => 0%R)) B W Hs2v eq_refl
                ltac:(lia) ltac:(lia) ltac:(intros _; lia)) as [_ Hlen].
  match goal with
  | |- context [mapM ?body ?l] =>
      destruct (mapM_returns body l [B; 1; 30 * encoded_length W])
        as (ys & Hys & Hall & Hlength)
  end.
  { intros idx Hidx. apply range_bounds in Hidx.
    eapply returns_bind; [eapply getitem_colon_int_colon_size; eassumption |].
    intros d1 Hd1.
    eapply returns_bind; [apply (unsqueeze_Ok _ _ 1); rewrite Hd1; reflexivity |].
    intros d2 Hd2. rewrite Hd1 in Hd2.
    eapply returns_bind.
    { rewrite Es2v. eapply SignalSegment2Vec_forward_size;
        [eassumption | exact Hd2 | lia | lia | lia | intros _; lia]. }
    intros out Hout. unfold size_at. rewrite H2. cbn [nth_error bind].
    eapply view_b_1_rest; [eassumption | lia | lia | lia]. }
  rewrite Hys. cbn [bind].
  assert (HlenK : Z.of_nat (List.length ys) = K).
  { rewrite Hlength. apply range_length. lia. }
  eapply returns_bind.
  { apply cat_dim1_size; [| exact Hall].
    intros ->. cbn in HlenK. lia. }
  intros c1 Hc1. rewrite HlenK in Hc1.
  destruct (unsqueeze_Ok 2 c1 2) as (u & Hu & Su); [rewrite Hc1; reflexivity |].
  exists u. split; [exact Hu |]. rewrite Su, Hc1. reflexivity.
Qed.

(** X8.  [segment_num] has to be the number of windows the signal is cut into:
    the constructor takes it on trust, and when the signal gives another
    number of windows the first convolution of the global node attention,
    built for [segment_num] channels, raises RuntimeError. *)
Theorem representation_needs_matching_segment_num
    (initial : initializer) (W : Z) (r : float) (segment_num : Z)
    (m : SignalSegmentRepresentation.t) (training : bool) (x : tensor) (B L : Z) :
  SignalSegmentRepresentation.init initial W r segment_num = Ok m ->
  size x = [B; 1; 1; L] ->
  2 <= B -> 2 <= W <= L ->
  1 <= SignalSegmentRepresentation.overlapping m ->
  2 <= (L - W) / SignalSegmentRepresentation.overlapping m + 1 ->
  segment_num <> (L - W) / SignalSegmentRepresentation.overlapping m + 1 ->
  SignalSegmentRepresentation.forward training m x = Raise RuntimeError.
Proof.
  intros Hm Hx HB HW Hs HK Hnum.
  rewrite forward_after_encoded_segments.
  eapply returns_bind_raises.
  { eapply encoded_segments_size; eassumption. }
  intros ss Hss.
  destruct (SignalSegmentRepresentation_init_inv _ _ _ _ _ Hm)
    as (s2v & g & _ & _ & Hs2v & _ & Hg & Eg).
  rewrite Eg.
  apply GNA_init_inv in Hg as (fc0 & fc2 & -> & I0 & _).
  assert (Hlen : 1 <= encoded_length W).
  { destruct (SignalSegment2Vec_features_size _ _ _ _ training
                (Tensor [B; 1; W] (fun _ => 0%R)) B W Hs2v eq_refl
                ltac:(lia) ltac:(lia) ltac:(intros _; lia)) as [_ Hlen].
    exact Hlen. }
  match goal with
  | |- bind ?r _ = _ => assert (Hr : r = Raise RuntimeError); [| rewrite Hr; reflexivity]
  end.
  unfold GNA.forward. rewrite Hss.
  eapply returns_bind_raises.
  { eapply AdaptiveAvgPool2d_1_size; [exact Hss | lia | lia]. }
  intros p Hp. cbn [GNA.fc Sequential_forward layer_forward].
  unfold Conv2d.forward at 1. rewrite Hp.
  match goal with |- context [guard ?b RuntimeError] => destruct b end;
    [| reflexivity].
  cbn [guard bind]. rewrite guard_false by (rewrite I0; bfalse). reflexivity.
Qed.

Lemma representation_needs_matching_segment_num_witness :
  exists m,
    SignalSegmentRepresentation.init (fun _ _ => 0%R) 30 0.5%float 200 = Ok m
    /\ SignalSegmentRepresentation.forward true m (Tensor [4; 1; 1; 3000] (fun _ => 0%R))
       = Raise RuntimeError.
Proof.
  assert (Hinit : exists m,
             SignalSegmentRepresentation.init (fun _ _ => 0%R) 30 0.5%float 200 = Ok m
             /\ SignalSegmentRepresentation.overlapping m = 15).
  { eexists. split; reflexivity. }
  destruct Hinit as (m & Hm & Hs). exists m. split; [exact Hm |].
  apply (representation_needs_matching_segment_num _ _ _ _ _ true
           (Tensor [4; 1; 1; 3000] (fun _ => 0%R)) 4 3000 Hm eq_refl);
    rewrite ?Hs; cbn; lia.
Defined.

(** X9.  The representation is the encoded windows after the attention: entry
    [c] of the feature vector of window [k] of signal [b] is found at
    [(b, 0, k, c)], and it is the encoder's entry times a factor strictly
    between 0 and 1 that depends on the signal and the window alone.  The
    attention reweighs the windows of a signal; it does not change the
    direction of a window's feature vector. *)
Theorem attention_reweighs_the_windows
    (initial : initializer) (W : Z) (r : float) (segment_num : Z)
    (m : SignalSegmentRepresentation.t) (training : bool) (x : tensor) (B L : Z) :
  SignalSegmentRepresentation.init initial W r segment_num = Ok m ->
  size x = [B; 1; 1; L] ->
  2 <= B -> 2 <= W <= L ->
  1 <= SignalSegmentRepresentation.overlapping m ->
  2 <= (L - W) / SignalSegmentRepresentation.overlapping m + 1 ->
  segment_num = (L - W) / SignalSegmentRepresentation.overlapping m + 1 ->
  let K := segment_num in
  let C := 30 * encoded_length W in
  exists (ss out : tensor) (f : Z -> Z -> R),
    encoded_segments training m x = Ok ss
    /\ size ss = [B; K; 1; C]
    /\ SignalSegmentRepresentation.forward training m x = Ok out
    /\ size out = [B; 1; K; C]
    /\ (forall b k, 0 < f b k < 1)%R
    /\ forall b k c, 0 <= b < B -> 0 <= k < K -> 0 <= c < C ->
         item out [b; 0; k; c] = (item ss [b; k; 0%Z; c] * f b k)%R.
Proof.
  intros Hm Hx HB HW Hs HK Hnum K C.
  destruct (encoded_segments_size _ _ _ _ _ training x B L Hm Hx HB HW Hs HK)
    as (ss & Hss & Sss).
  rewrite <- Hnum in Sss. fold K C in Sss.
  destruct (SignalSegmentRepresentation_init_inv _ _ _ _ _ Hm)
    as (s2v & g & _ & _ & Hs2v & _ & Hg & Eg).
  assert (HC : 1 <= C).
  { destruct (SignalSegment2Vec_features_size _ _ _ _ training
                (Tensor [B; 1; W] (fun _ => 0%R)) B W Hs2v eq_refl
                ltac:(lia) ltac:(lia) ltac:(intros _; lia)) as [_ Hlen].
    unfold C. lia. }
  destruct (GNA_forward_size _ _ _ _ _ training ss B 1 C Hg Sss)
    as (y & Hy & Sy); [lia | unfold GNA.default_reduction, K; lia | lia | lia |].
  destruct (GNA_forward_factor _ _ _ _ _ training ss y Hg Hy) as (f & Hf & _ & Hitem).
  exists ss, (Tensor [B; 1; K; C] (fun i => item y [dim i 0; dim i 2; dim i 1; dim i 3])), f.
  split; [exact Hss |]. split; [exact Sss |]. split.
  { rewrite forward_after_encoded_segments, Hss. cbn [bind]. rewrite Eg, Hy. cbn [bind].
    apply permute_0213_eq. exact Sy. }
  split; [reflexivity |]. split; [exact Hf |].
  intros b k c Hb Hk Hc. cbn [item].
  change (dim [b; 0; k; c] 0) with b. change (dim [b; 0; k; c] 1) with 0.
  change (dim [b; 0; k; c] 2) with k. change (dim [b; 0; k; c] 3) with c.
  apply Hitem. rewrite Sss. cbn [in_bounds]. lia.
Qed.

Lemma attention_reweighs_the_windows_witness :
  exists m ss out (f : Z -> Z -> R),
    SignalSegmentRepresentation.init (fun _ _ => 0%R) 30 0.5%float 199 = Ok m
    /\ encoded_segments true m (Tensor [4; 1; 1; 3000] (fun _ => 0%R)) = Ok ss
    /\ SignalSegmentRepresentation.forward true m (Tensor [4; 1; 1; 3000] (fun _ => 0%R))
       = Ok out
    /\ size out = [4; 1; 199; 30]
    /\ item out [3; 0; 198; 29] = (item ss [3; 198; 0; 29]%Z * f 3%Z 198%Z)%R.
Proof.
  assert (Hinit : exists m,
             SignalSegmentRepresentation.init (fun _ _ => 0%R) 30 0.5%float 199 = Ok m
             /\ SignalSegmentRepresentation.overlapping m = 15).
  { eexists. split; reflexivity. }
  destruct Hinit as (m & Hm & Hs). exists m.
  destruct (attention_reweighs_the_windows _ _ _ _ _ true
              (Tensor [4; 1; 1; 3000] (fun _ => 0%R)) 4 3000 Hm eq_refl)
    as (ss & out & f & Hss & _ & Hout & Sout & _ & Hitem);
    rewrite ?Hs; try (cbn; lia).
  exists ss, out, f. split; [exact Hm |]. split; [exact Hss |]. split; [exact Hout |].
  split; [exact Sout |]. apply Hitem; cbn; lia.
Defined.

(** * The windows are encoded one by one *)

Lemma getitem_colon_int_colon_eq (idx : Z) (x : tensor) (b k c : Z) :
  size x = [b; k; c] ->
  0 <= idx < k ->
  getitem_colon_int_colon idx x
  = Ok (Tensor [b; c] (fun i => item x (insert_at 1 idx i))).
Proof.
  intros Hx Hi. unfold getitem_colon_int_colon, wrap_dim. rewrite Hx. pass.
  cbn [bind]. replace (idx <? 0) with false by (symmetry; bfalse). reflexivity.
Qed.

Lemma unsqueeze_1_eq (x : tensor) (b c : Z) :
  size x = [b; c] ->
  unsqueeze 1 x = Ok (Tensor [b; 1; c] (fun i => item x (remove_at 1 i))).
Proof. intros Hx. unfold unsqueeze. rewrite Hx. reflexivity. Qed.

Lemma unsqueeze_2_eq (x : tensor) (a b c : Z) :
  size x = [a; b; c] ->
  unsqueeze 2 x = Ok (Tensor [a; b; 1; c] (fun i => item x (remove_at 2 i))).
Proof. intros Hx. unfold unsqueeze. rewrite Hx. reflexivity. Qed.

(** [x.view(b, 1, -1)] with its entries. *)
Lemma view_b_1_rest_eq (x : tensor) (b c l : Z) :
  size x = [b; c; l] -> 1 <= b -> 0 <= c -> 0 <= l ->
  view [b; 1; -1] x
  = Ok (Tensor [b; 1; c * l]
          (fun i => item x (unravel [b; c; l] (ravel [b; 1; c * l] i)))).
Proof.
  intros Hx Hb Hc Hl. unfold view, infer_size. rewrite Hx.
  assert (Hb1 : (b =? -1) = false) by bfalse.
  assert (F1 : forallb (fun d => -1 <=? d) [b; 1; -1] = true).
  { cbn. rewrite (proj2 (Z.leb_le (-1) b)) by lia. reflexivity. }
  assert (F2 : filter (fun d => d =? -1) [b; 1; -1] = [-1]).
  { cbn. rewrite Hb1. reflexivity. }
  assert (F3 : filter (fun d => negb (d =? -1)) [b; 1; -1] = [b; 1]).
  { cbn. rewrite Hb1. reflexivity. }
  rewrite F1, F2, F3. cbn [guard bind numel fold_right].
  replace (b * (c * (l * 1))) with (c * l * (b * (1 * 1))) by ring.
  rewrite Z.mod_mul by lia. rewrite Z.div_mul by lia.
  rewrite guard_true by btrue.
  cbn [bind map]. rewrite Hb1. reflexivity.
Qed.

(** The entry of a flattened code: feature [f] of the flat vector is entry
    [f mod l] of channel [f / l]. *)
Lemma flat_index (b c l i0 f : Z) :
  0 < c -> 0 < l -> 0 <= i0 -> 0 <= f < c * l ->
  unravel [b; c; l] (ravel [b; 1; c * l] [i0; 0; f]) = [i0; f / l; f mod l].
Proof.
  intros Hc Hl Hi Hf. cbn [ravel unravel numel fold_right].
  replace (i0 * (1 * (c * l * 1)) + (0 * (c * l * 1) + (f * 1 + 0)))
    with (f + i0 * (c * (l * 1))) by ring.
  replace (c * (l * 1)) with (c * l) by ring.
  rewrite Z.div_add, Z.mod_add by lia.
  rewrite (Z.div_small f (c * l)), (Z.mod_small f (c * l)) by lia.
  rewrite Z.mul_1_r, Z.div_1_r. cbn [Z.add]. reflexivity.
Qed.

Lemma cat_dim1_eq (ys : list tensor) (b c : Z) :
  ys <> [] ->
  Forall (fun y => size y = [b; 1; c]) ys ->
  cat ys 1 = Ok (Tensor [b; Z.of_nat (List.length ys); c] (cat_item ys 1)).
Proof.
  intros Hne Hall. destruct ys as [| y0 ys]; [congruence |].
  assert (H0 : size y0 = [b; 1; c]) by (inversion Hall; assumption).
  unfold cat. rewrite H0.
  replace (wrap_dim 1 (rank [b; 1; c])) with (Ok (A := Z) 1) by reflexivity.
  cbn [bind].
  assert (Hchk : forallb (fun x => shape_eqb (replace_at 1 0 (size x))
                                             (replace_at 1 0 [b; 1; c])) (y0 :: ys) = true).
  { apply forallb_forall. intros y Hy. rewrite Forall_forall in Hall.
    rewrite (Hall y Hy). apply shape_eqb_refl. }
  rewrite Hchk. cbn [guard bind].
  assert (Hsum : fold_right (fun x acc => dim (size x) (Z.to_nat 1) + acc) 0 (y0 :: ys)
                 = Z.of_nat (List.length (y0 :: ys))).
  { clear Hchk Hne H0. induction Hall as [| y l Hy _ IH]; [reflexivity |].
    cbn [fold_right List.length]. rewrite IH, Hy.
    change (dim [b; 1; c] (Z.to_nat 1)) with 1. lia. }
  rewrite Hsum. reflexivity.
Qed.

(** Tensors with one entry along axis 1, concatenated along it: entry [k]
    along the axis is the [k]-th tensor. *)
Lemma cat_item_unit (ys : list tensor) (b c : Z) (d : tensor) :
  Forall (fun y => size y = [b; 1; c]) ys ->
  forall k i0 i2, 0 <= k < Z.of_nat (List.length ys) ->
    cat_item ys 1 [i0; k; i2] = item (nth (Z.to_nat k) ys d) [i0; 0; i2].
Proof.
  induction 1 as [| y l Hy _ IH]; intros k i0 i2 Hk; [cbn in Hk; lia |].
  cbn [cat_item]. rewrite Hy.
  change (dim [b; 1; c] (Z.to_nat 1)) with 1.
  change (dim [i0; k; i2] (Z.to_nat 1)) with k.
  destruct (k <? 1) eqn:E.
  - apply Z.ltb_lt in E. replace k with 0 by lia. reflexivity.
  - apply Z.ltb_ge in E.
    change (replace_at 1 (k - 1) [i0; k; i2]) with [i0; k - 1; i2].
    rewrite IH by (cbn [List.length] in Hk; lia).
    replace (Z.to_nat k) with (S (Z.to_nat (k - 1))) by lia. reflexivity.
Qed.

Lemma Forall2_nth_Z {B : Type} (P : Z -> B -> Prop) (n : Z) (ys : list B) (d : B) :
  Forall2 P (range n) ys ->
  forall k, 0 <= k < n -> P k (nth (Z.to_nat k) ys d).
Proof.
  unfold range. intros H k Hk.
  assert (Hgen : forall (start : nat) (len : nat) (l : list B),
             Forall2 P (map Z.of_nat (seq start len)) l ->
             forall j, (j < len)%nat -> P (Z.of_nat (start + j)) (nth j l d)).
  { intros start len. revert start.
    induction len as [| len IH]; intros start l HF j Hj; [lia |].
    cbn in HF. inversion HF as [| a y0 la l0 Hhead Htail]; subst.
    destruct j as [| j].
    - rewrite Nat.add_0_r. exact Hhead.
    - cbn [nth]. replace (start + S j)%nat with (S start + j)%nat by lia.
      apply IH; [exact Htail | lia]. }
  specialize (Hgen 0%nat (Z.to_nat n) ys H (Z.to_nat k) ltac:(lia)).
  cbn in Hgen. rewrite Z2Nat.id in Hgen by lia. exact Hgen.
Qed.

(** X10.  The encoder is shared and sees one window at a time: window [k] of
    the batch, a tensor of size (B, 1, W), is given to [segment2vec] on
    its own, and the code it returns, flattened channel after channel,
    is the feature vector found at position [k] of the encoded windows:
    feature [f] is entry [f mod E] of channel [f / E] of the code, [E]
    being the length the encoder leaves of a window. *)
Theorem windows_are_encoded_one_by_one
    (initial : initializer) (W : Z) (r : float) (segment_num : Z)
    (m : SignalSegmentRepresentation.t) (training : bool) (x : tensor) (B L : Z) :
  SignalSegmentRepresentation.init initial W r segment_num = Ok m ->
  size x = [B; 1; 1; L] ->
  2 <= B -> 2 <= W <= L ->
  1 <= SignalSegmentRepresentation.overlapping m ->
  2 <= (L - W) / SignalSegmentRepresentation.overlapping m + 1 ->
  let K := (L - W) / SignalSegmentRepresentation.overlapping m + 1 in
  let E := encoded_length W in
  exists xs ss,
    SignalSegmentDefinition.forward (SignalSegmentRepresentation.segment m) x = Ok xs
    /\ size xs = [B; K; 1; W]
    /\ encoded_segments training m x = Ok ss
    /\ size ss = [B; K; 1; 30 * E]
    /\ forall k, 0 <= k < K ->
         exists window code,
           size window = [B; 1; W]
           /\ (forall b j, item window [b; 0; j] = item xs [b; k; 0; j])
           /\ SignalSegment2Vec.forward training
                (SignalSegmentRepresentation.segment2vec m) window = Ok code
           /\ size code = [B; 30; E]
           /\ forall b f, 0 <= b < B -> 0 <= f < 30 * E ->
                item ss [b; k; 0; f] = item code [b; f / E; f mod E].
Proof.
  intros Hm Hx HB HW Hs HK K E.
  destruct (SignalSegmentRepresentation_init_inv _ _ _ _ _ Hm)
    as (s2v & g & _ & Hseg & Hs2v & Es2v & Hg & Eg).
  assert (HE : 1 <= E).
  { destruct (SignalSegment2Vec_features_size _ _ _ _ training
                (Tensor [B; 1; W] (fun _ => 0%R)) B W Hs2v eq_refl
                ltac:(lia) ltac:(lia) ltac:(intros _; lia)) as [_ Hlen].
    exact Hlen. }
  destruct (SignalSegmentDefinition_forward_size
              (SignalSegmentRepresentation.segment m) x B L W)
    as (xs & Hxs & Sxs); [rewrite Hseg; reflexivity | exact Hx | lia
                          | rewrite Hseg; cbn; lia |].
  replace (SignalSegmentDefinition.stride (SignalSegmentRepresentation.segment m))
    with (SignalSegmentRepresentation.overlapping m) in Sxs
    by (rewrite Hseg; reflexivity).
  fold K in Sxs.
  (* the squeezed windows *)
  set (x2 := Tensor [B; K; W] (fun i => item xs (restore_ones [B; K; 1; W] i))).
  assert (Hsq : squeeze xs = Ok x2).
  { unfold squeeze, x2. rewrite Sxs. cbn [filter].
    replace (B =? 1) with false by (symmetry; bfalse).
    replace (K =? 1) with false by (symmetry; bfalse).
    replace (W =? 1) with false by (symmetry; bfalse).
    reflexivity. }
  assert (Hrestore : forall b k j, restore_ones [B; K; 1; W] [b; k; j] = [b; k; 0; j]).
  { intros b k j. cbn [restore_ones].
    replace (B =? 1) with false by (symmetry; bfalse).
    replace (K =? 1) with false by (symmetry; bfalse).
    replace (W =? 1) with false by (symmetry; bfalse).
    reflexivity. }
  (* one step of the loop *)
  set (window := fun k : Z =>
         Tensor [B; 1; W]
           (fun i => item (Tensor [B; W] (fun i' => item x2 (insert_at 1 k i')))
                          (remove_at 1 i))).
  set (body := fun idx : Z =>
         data <- getitem_colon_int_colon idx x2 ;;
         data <- unsqueeze 1 data ;;
         out <- SignalSegment2Vec.forward training
                  (SignalSegmentRepresentation.segment2vec m) data ;;
         b <- size_at x2 0 ;;
         view [b; 1; -1] out).
  assert (Hbody : forall k, 0 <= k < K ->
            exists code,
              SignalSegment2Vec.forward training
                (SignalSegmentRepresentation.segment2vec m) (window k) = Ok code
              /\ size code = [B; 30; E]
              /\ body k = Ok (Tensor [B; 1; 30 * E]
                                (fun i => item code (unravel [B; 30; E]
                                                       (ravel [B; 1; 30 * E] i))))).
  { intros k Hk.
    destruct (SignalSegment2Vec_forward_size _ _ _ _ training (window k) B W Hs2v eq_refl)
      as (code & Hcode & Scode); [lia | lia | lia | intros _; lia |].
    rewrite <- Es2v in Hcode. fold E in Scode.
    exists code. split; [exact Hcode |]. split; [exact Scode |].
    unfold body.
    rewrite (getitem_colon_int_colon_eq k x2 B K W) by (reflexivity || lia).
    cbn [bind]. rewrite (unsqueeze_1_eq _ B W) by reflexivity.
    cbn [bind]. fold (window k). rewrite Hcode. cbn [bind].
    unfold size_at. cbn [x2 size nth_error bind].
    apply view_b_1_rest_eq; [exact Scode | lia | lia | lia]. }
  (* the loop *)
  assert (Hloop : exists ys, mapM body (range K) = Ok ys
                    /\ Forall (fun y => size y = [B; 1; 30 * E]) ys
                    /\ List.length ys = List.length (range K)).
  { apply mapM_returns. intros k Hk. apply range_bounds in Hk.
    destruct (Hbody k Hk) as (code & _ & _ & ->). apply returns_Ok. reflexivity. }
  destruct Hloop as (ys & Hys & Hall & Hlength).
  assert (HlenK : Z.of_nat (List.length ys) = K).
  { rewrite Hlength. apply range_length. lia. }
  assert (Hne : ys <> []) by (intros ->; cbn in HlenK; lia).
  set (ss := Tensor [B; K; 1; 30 * E] (fun i => cat_item ys 1 (remove_at 2 i))).
  assert (Hss : encoded_segments training m x = Ok ss).
  { unfold encoded_segments. rewrite Hxs. cbn [bind]. rewrite Hsq. cbn [bind].
    unfold size_at at 1. cbn [x2 size nth_error bind]. fold x2. fold body.
    rewrite Hys. cbn [bind].
    rewrite (cat_dim1_eq ys B (30 * E) Hne Hall). cbn [bind].
    rewrite (unsqueeze_2_eq _ B (Z.of_nat (List.length ys)) (30 * E)) by reflexivity.
    rewrite HlenK. reflexivity. }
  exists xs, ss. split; [exact Hxs |]. split; [exact Sxs |].
  split; [exact Hss |]. split; [reflexivity |].
  intros k Hk. destruct (Hbody k Hk) as (code & Hcode & Scode & Hview).
  exists (window k), code. split; [reflexivity |]. split.
  { intros b j. unfold window, x2. cbn [item].
    change (remove_at 1 [b; 0; j]) with [b; j].
    change (insert_at 1 k [b; j]) with [b; k; j].
    rewrite Hrestore. reflexivity. }
  split; [exact Hcode |]. split; [exact Scode |].
  intros b f Hb Hf. unfold ss. cbn [item].
  change (remove_at 2 [b; k; 0; f]) with [b; k; f].
  rewrite (cat_item_unit ys B (30 * E) (Tensor [] (fun _ => 0%R)) Hall) by lia.
  pose proof (Forall2_nth_Z (fun idx y => body idx = Ok y) K ys
                (Tensor [] (fun _ => 0%R)) (mapM_inv _ _ _ Hys) k Hk) as Hk'.
  cbn beta in Hk'. rewrite Hview in Hk'. apply Ok_inj in Hk'. rewrite <- Hk'.
  cbn [item]. rewrite flat_index by lia. reflexivity.
Qed.

Lemma windows_are_encoded_one_by_one_witness :
  exists m xs ss window code,
    SignalSegmentRepresentation.init (fun _ _ => 0%R) 30 0.5%float 199 = Ok m
    /\ SignalSegmentDefinition.forward (SignalSegmentRepresentation.segment m)
         (Tensor [4; 1; 1; 3000] (fun i => IZR (dim i 3))) = Ok xs
    /\ encoded_segments true m (Tensor [4; 1; 1; 3000] (fun i => IZR (dim i 3))) = Ok ss
    /\ (forall b j, item window [b; 0; j] = item xs [b; 198; 0; j])
    /\ SignalSegment2Vec.forward true (SignalSegmentRepresentation.segment2vec m) window
       = Ok code
    /\ item ss [3; 198; 0; 29] = item code [3; 29; 0].
Proof.
  assert (Hinit : exists m,
             SignalSegmentRepresentation.init (fun _ _ => 0%R) 30 0.5%float 199 = Ok m
             /\ SignalSegmentRepresentation.overlapping m = 15).
  { eexists. split; reflexivity. }
  destruct Hinit as (m & Hm & Hs). exists m.
  destruct (windows_are_encoded_one_by_one _ _ _ _ _ true
              (Tensor [4; 1; 1; 3000] (fun i => IZR (dim i 3))) 4 3000 Hm eq_refl)
    as (xs & ss & Hxs & _ & Hss & _ & Hk);
    rewrite ?Hs; try (cbn; lia).
  destruct (Hk 198) as (window & code & _ & Hw & Hcode & _ & Hf);
    [rewrite Hs; cbn; lia |].
  exists xs, ss, window, code.
  split; [exact Hm |]. split; [exact Hxs |]. split; [exact Hss |].
  split; [exact Hw |]. split; [exact Hcode |].
  apply (Hf 3 29); cbn; lia.
Defined.

(** * A stride in a stage of 1-d blocks *)

Lemma strided_lengths_differ (s L : Z) :
  2 <= s -> s + 2 <= L ->
  3 <= L - s + 1 /\ 2 <= (L - 1) / s + 1 /\ L - s + 1 <> (L - 1) / s + 1.
Proof.
  intros Hs HL.
  assert (H1 : 1 <= (L - 1) / s) by (apply Z.div_le_lower_bound; lia).
  pose proof (Z.mul_div_le (L - 1) s ltac:(lia)) as H2.
  repeat split; try lia.
  intros E. assert (Eq : (L - 1) / s = L - s) by lia. rewrite Eq in H2. nia.
Qed.

(** X11.  [_make_layer] accepts a stride, but [ResBasicBlock] gives it to its
    first convolution as the kernel size and strides the shortcut alone:
    the two branches of the first block come out with different lengths,
    [L - s + 1] and [floor((L - 1) / s) + 1], and [out += residual] raises
    RuntimeError.  A stage built with a stride [s >= 2] (and 4 planes or
    more) raises RuntimeError on every input (B, inplanes, L) whose length
    is not [s] or [s + 1]: shorter than the kernel, or with branches of
    different lengths. *)
Theorem strided_1d_stage_raises
    (initial : initializer) (name : string) (inplanes planes blocks s : Z)
    (layers : list ResBasicBlock.t) (inplanes' : Z)
    (training : bool) (x : tensor) (B L : Z) :
  SignalSegment2Vec._make_layer initial name inplanes planes blocks s
    = Ok (layers, inplanes') ->
  2 <= s -> 4 <= planes ->
  size x = [B; inplanes; L] -> 1 <= B ->
  L < s \/ s + 2 <= L ->
  blocks_forward (ResBasicBlock.forward training) layers x = Raise RuntimeError.
Proof.
  intros Hl Hs HP Hx HB HL.
  apply SignalSegment2Vec_make_layer_inv in Hl
    as (ds & first & others & -> & _ & Hfirst & _ & Hds).
  destruct Hds as [(E & _) | (_ & c & bn & -> & Hc & Hbn)]; [lia |].
  cbn [blocks_forward].
  assert (Hr : ResBasicBlock.forward training first x = Raise RuntimeError);
    [| rewrite Hr; reflexivity].
  apply ResBasicBlock_init_inv in Hfirst
    as (c1 & n1 & c2 & n2 & r & -> & Hc1 & Hn1 & Hc2 & Hn2 & Hr).
  apply Conv1d_init_inv in Hc1 as (-> & Hin & _).
  apply Conv1d_init_inv in Hc2 as (-> & _).
  apply Conv1d_init_inv in Hc as (-> & _).
  apply BatchNorm_init_inv in Hn1 as (-> & _).
  apply BatchNorm_init_inv in Hn2 as (-> & _).
  apply BatchNorm_init_inv in Hbn as (-> & _).
  apply ResLayer_init_inv in Hr as (fc0 & fc2 & -> & F1 & F2 & F3 & F4 & _).
  unfold ResBasicBlock.forward.
  cbn [ResBasicBlock.conv1 ResBasicBlock.bn1 ResBasicBlock.conv2 ResBasicBlock.bn2
       ResBasicBlock.reslayer ResBasicBlock.downsample].
  destruct HL as [HL | HL].
  { unfold Conv1d.forward at 1. rewrite Hx.
    cbn [Conv1d.stride Conv1d.padding Conv1d.kernel_size Conv1d.out_channels
         Conv1d.in_channels].
    do 2 pass. rewrite guard_false by bfalse. reflexivity. }
  destruct (strided_lengths_differ s L Hs HL) as (H1 & H2 & Hne).
  set (l1 := L - s + 1) in *. set (l2 := (L - 1) / s + 1) in *.
  rewrite (Conv1d_forward_eq _ x B inplanes L) by (cbn; auto; lia).
  cbn [bind Conv1d.out_channels].
  match goal with
  | |- context [Conv1d.out_length ?m L] =>
      replace (Conv1d.out_length m L) with l1
        by (unfold Conv1d.out_length, l1; cbn; rewrite Z.div_1_r; lia)
  end.
  rewrite (BatchNorm_forward1d_eq training _ _ B planes l1)
    by (cbn; auto; apply batch_ok_large; lia).
  cbn [bind].
  rewrite (Conv1d_forward_eq _ _ B planes l1) by (cbn; auto; lia).
  rewrite Conv1d_out_length_pointwise by reflexivity.
  cbn [bind Conv1d.out_channels].
  rewrite (BatchNorm_forward1d_eq training _ _ B planes l1)
    by (cbn; auto; apply batch_ok_large; lia).
  cbn [bind].
  eapply returns_bind_raises.
  { apply (ResLayer_forward_size training fc0 fc2 _ B planes l1);
      cbn [size]; auto; try lia; congruence. }
  intros g Hg. cbn [Sequential_forward layer_forward].
  rewrite (Conv1d_forward_eq _ x B inplanes L) by (cbn; auto; lia).
  cbn [bind Conv1d.out_channels].
  match goal with
  | |- context [Conv1d.out_length ?m L] =>
      replace (Conv1d.out_length m L) with l2
        by (unfold Conv1d.out_length, l2; cbn; do 2 f_equal; lia)
  end.
  rewrite (BatchNorm_forward1d_eq training _ _ B planes l2)
    by (cbn; auto; apply batch_ok_large; lia).
  cbn [bind]. unfold iadd, broadcast_shapes. rewrite Hg. cbn [size rev app broadcast_rev].
  rewrite guard_false by bfalse. reflexivity.
Qed.

Lemma strided_1d_stage_raises_witness :
  exists layers,
    SignalSegment2Vec._make_layer (fun _ _ => 0%R) "AFR" 128 30 1 2 = Ok (layers, 30)
    /\ blocks_forward (ResBasicBlock.forward false) layers
         (Tensor [2; 128; 8] (fun _ => 0%R)) = Raise RuntimeError.
Proof.
  assert (Hl : exists layers,
             SignalSegment2Vec._make_layer (fun _ _ => 0%R) "AFR" 128 30 1 2
             = Ok (layers, 30)) by (eexists; reflexivity).
  destruct Hl as (layers & Hl). exists layers. split; [exact Hl |].
  apply (strided_1d_stage_raises _ _ _ _ _ _ _ _ false
           (Tensor [2; 128; 8] (fun _ => 0%R)) 2 8 Hl); try lia. reflexivity.
Defined.

(** * The log-probabilities are not positive *)

Lemma fold_sum_term_le (f : Z -> R) (l : list Z) (k : Z) :
  (forall j, In j l -> (0 <= f j)%R) ->
  In k l ->
  (f k <= fold_right (fun j acc => (f j + acc)%R) 0%R l)%R.
Proof.
  induction l as [| a l IH]; cbn; intros Hpos Hin; [tauto |].
  assert (Hl : (0 <= fold_right (fun j acc => (f j + acc)%R) 0%R l)%R).
  { clear - Hpos. induction l as [| b l IH]; cbn; [lra |].
    assert (0 <= f b)%R by (apply Hpos; right; left; reflexivity).
    assert (0 <= fold_right (fun j acc => (f j + acc)%R) 0%R l)%R.
    { apply IH. intros j [Hj | Hj]; apply Hpos; [left | right; right]; assumption. }
    lra. }
  destruct Hin as [-> | Hin].
  - lra.
  - assert (0 <= f a)%R by (apply Hpos; left; reflexivity).
    assert (f k <= fold_right (fun j acc => (f j + acc)%R) 0%R l)%R.
    { apply IH; [| exact Hin]. intros j Hj. apply Hpos. right. exact Hj. }
    lra.
Qed.

Lemma range_In (n k : Z) : 0 <= k < n -> In k (range n).
Proof.
  intros Hk. unfold range. apply in_map_iff. exists (Z.to_nat k).
  split; [lia |]. apply in_seq. lia.
Qed.

Lemma Rsum_term_le (n : Z) (f : Z -> R) (k : Z) :
  (forall j, 0 <= j < n -> (0 <= f j)%R) -> 0 <= k < n -> (f k <= Rsum n f)%R.
Proof.
  intros Hpos Hk. unfold Rsum. apply fold_sum_term_le.
  - intros j Hj. apply Hpos, range_bounds, Hj.
  - apply range_In, Hk.
Qed.

Lemma in_bounds_split_last (s : shape) (n : Z) (i : index) :
  in_bounds (s ++ [n]) i -> i = removelast i ++ [last i 0] /\ 0 <= last i 0 < n.
Proof.
  revert i. induction s as [| d s IH]; intros [| k i]; cbn [app in_bounds]; try tauto.
  - destruct i; [| tauto]. intros [Hk _]. cbn. auto.
  - intros [_ H]. destruct (IH i H) as [E Hl].
    destruct i as [| k' i']; [destruct s; cbn in H; tauto |].
    change (removelast (k :: k' :: i')) with (k :: removelast (k' :: i')).
    change (last (k :: k' :: i') 0) with (last (k' :: i') 0).
    split; [cbn [app]; f_equal; exact E | exact Hl].
Qed.

Lemma log_softmax_nonpositive (x y : tensor) (i : index) :
  log_softmax x = Ok y ->
  in_bounds (size y) i ->
  (item y i <= 0)%R /\ (0 < exp (item y i) <= 1)%R.
Proof.
  unfold log_softmax. destruct (rev (size x)) as [| n t] eqn:E; [discriminate |].
  intros H Hi. apply Ok_inj in H. subst y. cbn [size item] in *.
  assert (Hs : size x = rev t ++ [n]).
  { rewrite <- (rev_involutive (size x)), E. reflexivity. }
  rewrite Hs in Hi. destruct (in_bounds_split_last _ _ _ Hi) as [Ei Hl].
  set (p := removelast i) in *.
  set (S := Rsum n (fun j => exp (item x (p ++ [j])))).
  assert (HS : (0 < S)%R) by (apply Rsum_pos; [lia | intros; apply exp_pos]).
  assert (Hle : (exp (item x i) <= S)%R).
  { rewrite Ei at 1.
    apply (Rsum_term_le n (fun j => exp (item x (p ++ [j])))); [| exact Hl].
    intros j _. left. apply exp_pos. }
  pose proof (exp_pos (item x i)) as Hpos.
  assert (Hq : (0 < exp (item x i) / S <= 1)%R).
  { split; [apply Rdiv_lt_0_compat; assumption |].
    apply (Rmult_le_reg_r S); [exact HS |].
    unfold Rdiv. rewrite Rmult_assoc, Rinv_l by lra. lra. }
  rewrite exp_ln by apply Hq. split; [| exact Hq].
  destruct Hq as [Hq0 [Hq1 | Hq1]].
  - left. rewrite <- ln_1. apply ln_increasing; assumption.
  - rewrite Hq1, ln_1. lra.
Qed.

(** X12.  Whatever [ResNet.forward] returns, none of its entries is positive,
    and the exponential of each, the probability of a class, is in
    (0, 1]. *)
Theorem ResNet_forward_entries_nonpositive
    (training : bool) (m : ResNet.t) (x y : tensor) (i : index) :
  ResNet.forward training m x = Ok y ->
  in_bounds (size y) i ->
  (item y i <= 0)%R /\ (0 < exp (item y i) <= 1)%R.
Proof.
  intros H Hi. unfold ResNet.forward in H. inv_res H.
  eapply log_softmax_nonpositive; eassumption.
Qed.

Lemma ResNet_forward_entries_nonpositive_witness :
  exists m y,
    ResNet.init (fun _ _ => 0%R) [3; 4; 6; 3] 1 18 = Ok m
    /\ ResNet.forward false m (Tensor [1; 1; 200] (fun _ => 0%R)) = Ok y
    /\ (item y [0; 17]%Z <= 0)%R.
Proof.
  assert (Hinit : exists m, ResNet.init (fun _ _ => 0%R) [3; 4; 6; 3] 1 18 = Ok m).
  { eexists. reflexivity. }
  destruct Hinit as (m & Hm). exists m.
  destruct (ResNet_forward_size _ _ _ _ _ false
              (Tensor [1; 1; 200] (fun _ => 0%R)) 1 Hm eq_refl
              ltac:(lia) ltac:(intros H; discriminate H))
    as (y & Hy & Hs).
  exists y. split; [exact Hm |]. split; [exact Hy |].
  apply (ResNet_forward_entries_nonpositive false m _ y [0; 17] Hy).
  rewrite Hs. cbn. lia.
Defined.

(** * The backbone in training mode, and its channel axis *)

(** A stage of stride 2 on one sample with maps of side 2 in training
    mode: the first normalisation of its first block is left with a single
    value per channel, which [nn.BatchNorm2d] refuses. *)
Lemma ResNet_layer_single_value
    (initial : initializer) (name : string) (in_planes planes blocks : Z)
    (layers : list BasicBlock.t) (in_planes' : Z) (x : tensor) :
  ResNet._make_layer initial name in_planes planes blocks 2 = Ok (layers, in_planes') ->
  size x = [1; in_planes; 2; 2] ->
  1 <= planes ->
  blocks_forward (BasicBlock.forward true) layers x = Raise ValueError.
Proof.
  intros Hl Hx HP.
  apply ResNet_make_layer_inv in Hl
    as (ds & first & others & -> & _ & Hfirst & _).
  apply BasicBlock_init_inv in Hfirst as (c1 & n1 & c2 & n2 & -> & Hc1 & Hn1 & _).
  inv_layers.
  cbn [blocks_forward]. unfold BasicBlock.forward.
  cbn [BasicBlock.conv1 BasicBlock.bn1].
  rewrite (Conv2d_forward_eq _ x 1 in_planes 2 2) by (cbn; auto; lia).
  cbn [bind]. reflexivity.
Qed.

(** X13.  In training mode the backbone needs at least two samples.  On a single
    sample, an input of size (1, channels, 200) of a model of one channel or
    more, the first three stages
    pass, with maps of side 8, 4 and 2, and the fourth stage brings the
    maps to a single value per channel, which its first normalisation
    refuses: [ResNet.forward] raises ValueError.  In evaluation mode the
    same input is classified. *)
Theorem ResNet_training_refuses_one_sample
    (initial : initializer) (layers : list Z) (channels num_classes : Z) (m : ResNet.t)
    (x : tensor) :
  ResNet.init initial layers channels num_classes = Ok m ->
  size x = [1; channels; 200] ->
  1 <= channels ->
  ResNet.forward true m x = Raise ValueError
  /\ returns (ResNet.forward false m x) [1; num_classes].
Proof.
  intros Hm Hx Hpos. split.
  2: { eapply ResNet_forward_size; [exact Hm | exact Hx | lia |].
       intros H. discriminate H. }
  apply ResNet_init_inv in Hm
    as (n0 & n1 & n2 & n3 & fc1_0 & fc2_0 & fc2_2 & Hc1 & Hb1 & Hmp
        & Hl1 & Hl2 & Hl3 & Hl4 & Hfc1 & I1 & O1 & _ & _ & _ & _ & _ & Hch & _).
  apply BatchNorm_init_inv in Hb1 as (Hb1 & _).
  unfold ResNet.forward.
  eapply returns_bind_raises; [apply (unsqueeze_Ok _ _ 2); rewrite Hx; reflexivity |].
  intros x1 H1. rewrite Hx in H1. simpl in H1.
  eapply returns_bind_raises.
  { rewrite Hfc1. cbn [Sequential_forward layer_forward].
    rewrite (Linear_forward_eq fc1_0 x1 [1; channels; 1] 200) by auto.
    cbn [bind]. apply returns_Ok. reflexivity. }
  intros x2 H2. cbn [size tmap app] in H2. rewrite O1 in H2.
  unfold size_at. rewrite H2. cbn [nth_error bind].
  eapply returns_bind_raises.
  { apply view_size; [repeat constructor; lia | rewrite H2; cbn; lia]. }
  intros x3 H3.
  eapply returns_bind_raises.
  { rewrite Hc1. rewrite (Conv2d_forward_eq _ x3 1 channels 32 32) by (cbn; auto; lia).
    apply returns_Ok. reflexivity. }
  intros x4 H4. cbn in H4.
  eapply returns_bind_raises.
  { rewrite Hb1. rewrite (BatchNorm_forward2d_eq true _ x4 1 64 16 16);
      [apply returns_Ok; reflexivity | exact H4 | reflexivity
      | apply batch_ok_large; lia]. }
  intros x5 H5. cbn [size] in H5.
  eapply returns_bind_raises.
  { rewrite Hmp. apply (MaxPool_forward2d_size _ _ 1 64 16 16);
      [exact H5 | reflexivity | reflexivity]. }
  intros x6 H6. cbn in H6.
  eapply returns_bind_raises.
  { eapply (ResNet_layer_forward_size _ _ _ _ _ 1 _ _ true x6 1 8 8);
      [exact Hl1 | exact H6 | lia | lia | lia | lia | lia | apply batch_ok_large; cbn; lia]. }
  intros x7 H7. cbn in H7.
  eapply returns_bind_raises.
  { eapply (ResNet_layer_forward_size _ _ _ _ _ 2 _ _ true x7 1 8 8);
      [exact Hl2 | exact H7 | lia | lia | lia | lia | lia | apply batch_ok_large; cbn; lia]. }
  intros x8 H8. cbn in H8.
  eapply returns_bind_raises.
  { eapply (ResNet_layer_forward_size _ _ _ _ _ 2 _ _ true x8 1 4 4);
      [exact Hl3 | exact H8 | lia | lia | lia | lia | lia | apply batch_ok_large; cbn; lia]. }
  intros x9 H9. cbn in H9.
  rewrite (ResNet_layer_single_value _ _ _ _ _ _ _ x9 Hl4 H9) by lia.
  reflexivity.
Qed.

Lemma ResNet_training_refuses_one_sample_witness :
  exists m,
    ResNet.init (fun _ _ => 0%R) [3; 4; 6; 3] 1 18 = Ok m
    /\ ResNet.forward true m (Tensor [1; 1; 200] (fun _ => 0%R)) = Raise ValueError.
Proof.
  assert (Hinit : exists m, ResNet.init (fun _ _ => 0%R) [3; 4; 6; 3] 1 18 = Ok m).
  { eexists. reflexivity. }
  destruct Hinit as (m & Hm). exists m. split; [exact Hm |].
  exact (proj1 (ResNet_training_refuses_one_sample _ _ _ _ m
                  (Tensor [1; 1; 200] (fun _ => 0%R)) Hm eq_refl ltac:(lia))).
Defined.

(** The backbone from its first convolution on, on maps of side 32. *)
Lemma ResNet_forward_tail_size
    (initial : initializer) (layers : list Z) (channels num_classes : Z) (m : ResNet.t)
    (training : bool) (x3 : tensor) (B : Z) :
  ResNet.init initial layers channels num_classes = Ok m ->
  size x3 = [B; channels; 32; 32] ->
  1 <= B -> batch_ok training B ->
  returns
    (x <- Conv2d.forward (ResNet.conv1 m) x3 ;;
     x <- BatchNorm.forward2d training (ResNet.bn1 m) x ;;
     let x := tmap ReLU x in
     x <- MaxPool.forward2d (ResNet.maxpool m) x ;;
     x <- blocks_forward (BasicBlock.forward training) (ResNet.layer1 m) x ;;
     x <- blocks_forward (BasicBlock.forward training) (ResNet.layer2 m) x ;;
     x <- blocks_forward (BasicBlock.forward training) (ResNet.layer3 m) x ;;
     x <- blocks_forward (BasicBlock.forward training) (ResNet.layer4 m) x ;;
     x <- AdaptiveAvgPool2d_1 x ;;
     x <- flatten1 x ;;
     x <- Sequential_forward training (ResNet.fc2 m) x ;;
     log_softmax x)
    [B; num_classes].
Proof.
  intros Hm H3 HB Hok.
  apply ResNet_init_inv in Hm
    as (n0 & n1 & n2 & n3 & fc1_0 & fc2_0 & fc2_2 & Hc1 & Hb1 & Hmp
        & Hl1 & Hl2 & Hl3 & Hl4 & Hfc1 & I1 & O1 & Hfc2 & I20 & O20 & I22 & O22
        & Hch & Hnc).
  apply BatchNorm_init_inv in Hb1 as (Hb1 & _).
  eapply returns_bind.
  { rewrite Hc1. rewrite (Conv2d_forward_eq _ x3 B channels 32 32) by (cbn; auto; lia).
    apply returns_Ok. reflexivity. }
  intros x4 H4. cbn in H4.
  eapply returns_bind.
  { rewrite Hb1. rewrite (BatchNorm_forward2d_eq training _ x4 B 64 16 16);
      [apply returns_Ok; reflexivity | exact H4 | reflexivity
      | apply batch_ok_large; lia]. }
  intros x5 H5. cbn [size] in H5.
  eapply returns_bind.
  { rewrite Hmp. apply (MaxPool_forward2d_size _ _ B 64 16 16);
      [exact H5 | reflexivity | reflexivity]. }
  intros x6 H6. cbn in H6.
  eapply returns_bind.
  { eapply (ResNet_layer_forward_size _ _ _ _ _ 1 _ _ training x6 B 8 8);
      [exact Hl1 | exact H6 | lia | lia | lia | lia | lia | apply batch_ok_large; cbn; lia]. }
  intros x7 H7. cbn in H7.
  eapply returns_bind.
  { eapply (ResNet_layer_forward_size _ _ _ _ _ 2 _ _ training x7 B 8 8);
      [exact Hl2 | exact H7 | lia | lia | lia | lia | lia | apply batch_ok_large; cbn; lia]. }
  intros x8 H8. cbn in H8.
  eapply returns_bind.
  { eapply (ResNet_layer_forward_size _ _ _ _ _ 2 _ _ training x8 B 4 4);
      [exact Hl3 | exact H8 | lia | lia | lia | lia | lia | apply batch_ok_large; cbn; lia]. }
  intros x9 H9. cbn in H9.
  eapply returns_bind.
  { eapply (ResNet_layer_forward_size _ _ _ _ _ 2 _ _ training x9 B 2 2);
      [exact Hl4 | exact H9 | lia | lia | lia | lia | lia |].
    cbn. rewrite Z.mul_1_r. exact Hok. }
  intros x10 H10. cbn in H10.
  eapply returns_bind; [eapply AdaptiveAvgPool2d_1_size; [exact H10 | lia | lia] |].
  intros x11 H11.
  eapply returns_bind; [eapply flatten1_size; exact H11 |].
  intros x12 H12. cbn in H12.
  eapply returns_bind.
  { rewrite Hfc2. cbn [Sequential_forward layer_forward].
    rewrite (Linear_forward_eq fc2_0 x12 [B] 512) by auto.
    cbn [bind].
    rewrite (Linear_forward_eq fc2_2 _ [B] 256)
      by (cbn [size tmap app]; rewrite ?O20; auto).
    cbn [bind]. apply returns_Ok. reflexivity. }
  intros x13 H13. cbn [size app] in H13. rewrite O22 in H13.
  apply (log_softmax_size x13 [B] num_classes). exact H13.
Qed.

(** X14.  The channel axis of the backbone's input.  An input (B, c, 200) with
    another number of channels than the model was built for is refused by
    the first convolution, with RuntimeError.  An input (B, 200), without
    a channel axis, is not refused as such: [unsqueeze(-2)] and the view
    to (B, 1, 32, 32) make it an input of one channel, which a model of one
    channel classifies and every other model refuses. *)
Theorem ResNet_forward_channel_axis
    (initial : initializer) (layers : list Z) (channels num_classes : Z) (m : ResNet.t)
    (training : bool) (x : tensor) (B : Z) :
  ResNet.init initial layers channels num_classes = Ok m ->
  1 <= B ->
  (forall c, size x = [B; c; 200] -> 1 <= c -> c <> channels ->
     ResNet.forward training m x = Raise RuntimeError)
  /\ (size x = [B; 200] -> channels = 1 -> batch_ok training B ->
      returns (ResNet.forward training m x) [B; num_classes])
  /\ (size x = [B; 200] -> channels <> 1 ->
      ResNet.forward training m x = Raise RuntimeError).
Proof.
  intros Hm HB.
  destruct (ResNet_init_inv _ _ _ _ _ Hm)
    as (n0 & n1 & n2 & n3 & fc1_0 & fc2_0 & fc2_2 & Hc1 & _ & _
        & _ & _ & _ & _ & Hfc1 & I1 & O1 & _).
  assert (Hconv : forall x3 c, size x3 = [B; c; 32; 32] -> c <> channels ->
            Conv2d.forward (ResNet.conv1 m) x3 = Raise RuntimeError).
  { intros x3 c H3 Hc. unfold Conv2d.forward. rewrite H3, Hc1.
    cbn [Conv2d.stride Conv2d.padding Conv2d.kernel_size Conv2d.out_channels
         Conv2d.in_channels].
    pass. rewrite guard_false by bfalse. reflexivity. }
  split; [| split].
  - intros c Hx Hc Hne. unfold ResNet.forward.
    eapply returns_bind_raises; [apply (unsqueeze_Ok _ _ 2); rewrite Hx; reflexivity |].
    intros x1 H1. rewrite Hx in H1. simpl in H1.
    eapply returns_bind_raises.
    { rewrite Hfc1. cbn [Sequential_forward layer_forward].
      rewrite (Linear_forward_eq fc1_0 x1 [B; c; 1] 200) by auto.
      cbn [bind]. apply returns_Ok. reflexivity. }
    intros x2 H2. cbn [size tmap app] in H2. rewrite O1 in H2.
    unfold size_at. rewrite H2. cbn [nth_error bind].
    eapply returns_bind_raises.
    { apply view_size; [repeat constructor; lia | rewrite H2; cbn; lia]. }
    intros x3 H3. rewrite (Hconv x3 c H3 Hne). reflexivity.
  - intros Hx Hc Hok. unfold ResNet.forward.
    eapply returns_bind; [apply (unsqueeze_Ok _ _ 1); rewrite Hx; reflexivity |].
    intros x1 H1. rewrite Hx in H1. simpl in H1.
    eapply returns_bind.
    { rewrite Hfc1. cbn [Sequential_forward layer_forward].
      rewrite (Linear_forward_eq fc1_0 x1 [B; 1] 200) by auto.
      cbn [bind]. apply returns_Ok. reflexivity. }
    intros x2 H2. cbn [size tmap app] in H2. rewrite O1 in H2.
    unfold size_at. rewrite H2. cbn [nth_error bind].
    eapply returns_bind.
    { apply view_size; [repeat constructor; lia | rewrite H2; cbn; lia]. }
    intros x3 H3.
    eapply ResNet_forward_tail_size; [exact Hm | rewrite Hc; exact H3 | exact HB | exact Hok].
  - intros Hx Hc. unfold ResNet.forward.
    eapply returns_bind_raises; [apply (unsqueeze_Ok _ _ 1); rewrite Hx; reflexivity |].
    intros x1 H1. rewrite Hx in H1. simpl in H1.
    eapply returns_bind_raises.
    { rewrite Hfc1. cbn [Sequential_forward layer_forward].
      rewrite (Linear_forward_eq fc1_0 x1 [B; 1] 200) by auto.
      cbn [bind]. apply returns_Ok. reflexivity. }
    intros x2 H2. cbn [size tmap app] in H2. rewrite O1 in H2.
    unfold size_at. rewrite H2. cbn [nth_error bind].
    eapply returns_bind_raises.
    { apply view_size; [repeat constructor; lia | rewrite H2; cbn; lia]. }
    intros x3 H3. rewrite (Hconv x3 1 H3) by lia. reflexivity.
Qed.

Lemma ResNet_forward_channel_axis_witness :
  exists m,
    ResNet.init (fun _ _ => 0%R) [3; 4; 6; 3] 1 18 = Ok m
    /\ ResNet.forward true m (Tensor [2; 3; 200] (fun _ => 0%R)) = Raise RuntimeError.
Proof.
  assert (Hinit : exists m, ResNet.init (fun _ _ => 0%R) [3; 4; 6; 3] 1 18 = Ok m).
  { eexists. reflexivity. }
  destruct Hinit as (m & Hm). exists m. split; [exact Hm |].
  refine (proj1 (ResNet_forward_channel_axis _ _ _ _ m true
                   (Tensor [2; 3; 200] (fun _ => 0%R)) 2 Hm _) 3 eq_refl _ _); lia.
Defined.

(** * The stages the backbone is built of *)

Lemma range_from_length (a b : Z) :
  Z.of_nat (List.length (range_from a b)) = Z.max 0 (b - a).
Proof. unfold range_from, range. rewrite !length_map, length_seq. lia. Qed.

Lemma Forall2_length_eq {A B : Type} (P : A -> B -> Prop) (l : list A) (l' : list B) :
  Forall2 P l l' -> List.length l = List.length l'.
Proof. induction 1; cbn; congruence. Qed.

Lemma mapM_total {A B : Type} (body : A -> result B) (xs : list A) :
  (forall a, In a xs -> exists b, body a = Ok b) -> exists ys, mapM body xs = Ok ys.
Proof.
  induction xs as [| a xs IH]; intros H; cbn; [eauto |].
  destruct (H a (or_introl eq_refl)) as (b & ->).
  destruct IH as (ys & ->); [intros; apply H; right; assumption |].
  cbn. eauto.
Qed.

(** [ResNet._make_layer] never fails on a non-negative number of planes,
    whatever the number of blocks asked for. *)
Lemma ResNet_make_layer_total (initial : initializer) (name : string)
    (in_planes planes blocks stride : Z) :
  0 <= in_planes -> 0 <= planes ->
  exists layers,
    ResNet._make_layer initial name in_planes planes blocks stride = Ok (layers, planes).
Proof.
  intros Hi Hp. unfold ResNet._make_layer.
  assert (Hblock : forall nm i s ds,
            0 <= i -> exists b, BasicBlock.init initial nm i planes s ds = Ok b).
  { intros nm i s ds Hi'. unfold BasicBlock.init, Conv2d.init, BatchNorm.init.
    repeat pass. cbn [bind]. eauto. }
  assert (Hds : exists ds,
            (if negb (stride =? 1) || negb (in_planes =? planes)
             then
               conv <- Conv2d.init initial (join name "0.downsample.0")
                         in_planes planes 1 stride 0 false ;;
               bn <- BatchNorm.init planes ;;
               Ok (Some [Conv2d_ conv; BatchNorm2d_ bn])
             else Ok None) = Ok ds).
  { destruct (negb (stride =? 1) || negb (in_planes =? planes)); [| eauto].
    unfold Conv2d.init, BatchNorm.init. repeat pass. cbn [bind]. eauto. }
  destruct Hds as (ds & ->). cbn [bind].
  destruct (Hblock (join name "0") in_planes stride ds Hi) as (first & ->). cbn [bind].
  match goal with
  | |- context [mapM ?f ?l] => destruct (mapM_total f l) as (others & ->)
  end.
  { intros i _. apply Hblock. exact Hp. }
  cbn [bind]. eauto.
Qed.

(** [ResNet.__init__] with the numbers of blocks it read from [layers]. *)
Lemma ResNet_init_inv_layers
    (initial : initializer) (layers : list Z) (channels num_classes : Z) (m : ResNet.t) :
  ResNet.init initial layers channels num_classes = Ok m ->
  exists n0 n1 n2 n3 rest,
    layers = n0 :: n1 :: n2 :: n3 :: rest
    /\ ResNet._make_layer initial "layer1" 64 64 n0 1 = Ok (ResNet.layer1 m, 64)
    /\ ResNet._make_layer initial "layer2" 64 128 n1 2 = Ok (ResNet.layer2 m, 128)
    /\ ResNet._make_layer initial "layer3" 128 256 n2 2 = Ok (ResNet.layer3 m, 256)
    /\ ResNet._make_layer initial "layer4" 256 512 n3 2 = Ok (ResNet.layer4 m, 512).
Proof.
  unfold ResNet.init, ResNet.getitem. intros H.
  destruct layers as [| n0 [| n1 [| n2 [| n3 rest]]]]; cbn [nth_error bind] in H.
  1-4: exfalso; inv_res H; discriminate.
  inv_res H. subst m.
  repeat match goal with
         | Hl : ResNet._make_layer _ _ _ _ _ _ = Ok (_, ?z) |- _ =>
             is_var z;
             let E := fresh "E" in
             assert (E : z = _)
               by (destruct (ResNet_make_layer_inv _ _ _ _ _ _ _ _ Hl)
                     as (? & ? & ? & _ & E' & _); exact E');
             subst z
         end.
  exists n0, n1, n2, n3, rest.
  cbn [ResNet.layer1 ResNet.layer2 ResNet.layer3 ResNet.layer4]. auto.
Qed.

(** The blocks of a stage: [max(1, blocks)] of them; the first has the
    stride of the stage and a shortcut through a 1x1 convolution of that
    stride and a normalisation exactly when the stride is not 1 or the
    number of planes changes; the others have stride 1 and the identity
    shortcut. *)
Lemma ResNet_make_layer_blocks (initial : initializer) (name : string)
    (in_planes planes blocks stride : Z) (layers : list BasicBlock.t) (in_planes' : Z) :
  ResNet._make_layer initial name in_planes planes blocks stride
    = Ok (layers, in_planes') ->
  Z.of_nat (List.length layers) = Z.max 1 blocks
  /\ exists first others,
       layers = first :: others
       /\ Conv2d.stride (BasicBlock.conv1 first) = stride
       /\ Conv2d.in_channels (BasicBlock.conv1 first) = in_planes
       /\ Conv2d.out_channels (BasicBlock.conv1 first) = planes
       /\ (BasicBlock.downsample first = None <-> stride = 1 /\ in_planes = planes)
       /\ shortcut_2d in_planes planes stride (BasicBlock.downsample first)
       /\ Forall (fun b => BasicBlock.downsample b = None
                           /\ Conv2d.stride (BasicBlock.conv1 b) = 1
                           /\ Conv2d.in_channels (BasicBlock.conv1 b) = planes
                           /\ Conv2d.out_channels (BasicBlock.conv1 b) = planes) others.
Proof.
  intros H.
  apply ResNet_make_layer_inv in H
    as (ds & first & others & -> & _ & Hfirst & Hothers & Hnone & Hds).
  split.
  { cbn [List.length]. rewrite <- (Forall2_length_eq _ _ _ Hothers).
    rewrite Nat2Z.inj_succ, range_from_length. lia. }
  exists first, others. split; [reflexivity |].
  apply BasicBlock_init_inv in Hfirst as (c1 & n1 & c2 & n2 & -> & Hc1 & _).
  apply Conv2d_init_inv in Hc1 as (-> & _).
  cbn [BasicBlock.conv1 BasicBlock.downsample Conv2d.stride Conv2d.in_channels
       Conv2d.out_channels].
  repeat (split; [first [reflexivity | assumption] |]).
  clear Hnone Hds. induction Hothers as [| i b idxs bs Hb _ IH]; constructor; [| exact IH].
  apply BasicBlock_init_inv in Hb as (c1' & n1' & c2' & n2' & -> & Hc1' & _).
  apply Conv2d_init_inv in Hc1' as (-> & _). cbn. auto.
Qed.

(** X15.  [ResNet.__init__] reads [layers[0]] to [layers[3]]: with fewer than
    four entries it raises IndexError, and further entries are not read.
    Stage [k] has [max(1, layers[k])] blocks: a number of blocks of zero
    or less still gives one block.  The blocks of the first stage all have
    the identity shortcut; the first block of each later stage, and no
    other block, has stride 2 and a shortcut through a convolution. *)
Theorem ResNet_init_stages
    (initial : initializer) (layers : list Z) (channels num_classes : Z) :
  1 <= channels -> 1 <= num_classes ->
  ((List.length layers < 4)%nat ->
   ResNet.init initial layers channels num_classes = Raise IndexError)
  /\ (forall n0 n1 n2 n3 rest, layers = n0 :: n1 :: n2 :: n3 :: rest ->
      exists m,
        ResNet.init initial layers channels num_classes = Ok m
        /\ Z.of_nat (List.length (ResNet.layer1 m)) = Z.max 1 n0
        /\ Z.of_nat (List.length (ResNet.layer2 m)) = Z.max 1 n1
        /\ Z.of_nat (List.length (ResNet.layer3 m)) = Z.max 1 n2
        /\ Z.of_nat (List.length (ResNet.layer4 m)) = Z.max 1 n3
        /\ Forall (fun b => BasicBlock.downsample b = None
                            /\ Conv2d.stride (BasicBlock.conv1 b) = 1)
                  (ResNet.layer1 m)
        /\ Forall (fun l => exists first others,
                     l = first :: others
                     /\ BasicBlock.downsample first <> None
                     /\ Conv2d.stride (BasicBlock.conv1 first) = 2
                     /\ Forall (fun b => BasicBlock.downsample b = None
                                         /\ Conv2d.stride (BasicBlock.conv1 b) = 1)
                               others)
                  [ResNet.layer2 m; ResNet.layer3 m; ResNet.layer4 m]).
Proof.
  intros Hch Hnc.
  destruct (ResNet_make_layer_total initial "layer1" 64 64 (nth 0 layers 0) 1)
    as (l1 & Hl1); [lia | lia |].
  destruct (ResNet_make_layer_total initial "layer2" 64 128 (nth 1 layers 0) 2)
    as (l2 & Hl2); [lia | lia |].
  destruct (ResNet_make_layer_total initial "layer3" 128 256 (nth 2 layers 0) 2)
    as (l3 & Hl3); [lia | lia |].
  destruct (ResNet_make_layer_total initial "layer4" 256 512 (nth 3 layers 0) 2)
    as (l4 & Hl4); [lia | lia |].
  split.
  - intros Hlen. unfold ResNet.init, ResNet.getitem, Conv2d.init, BatchNorm.init.
    do 2 pass. cbn [bind].
    destruct layers as [| n0 [| n1 [| n2 [| n3 rest]]]]; cbn [nth_error bind];
      try reflexivity; cbn [nth] in *.
    + rewrite Hl1. reflexivity.
    + rewrite Hl1. cbn [bind]. rewrite Hl2. reflexivity.
    + rewrite Hl1. cbn [bind]. rewrite Hl2. cbn [bind]. rewrite Hl3. reflexivity.
    + cbn in Hlen. lia.
  - intros n0 n1 n2 n3 rest ->. cbn [nth] in *.
    assert (Hm : exists m, ResNet.init initial (n0 :: n1 :: n2 :: n3 :: rest)
                             channels num_classes = Ok m).
    { unfold ResNet.init, ResNet.getitem, Conv2d.init, BatchNorm.init, Linear.init.
      do 2 pass. cbn [bind nth_error].
      rewrite Hl1. cbn [bind]. rewrite Hl2. cbn [bind]. rewrite Hl3. cbn [bind].
      rewrite Hl4. cbn [bind]. repeat pass. cbn [bind]. eauto. }
    destruct Hm as (m & Hm). exists m. split; [exact Hm |].
    destruct (ResNet_init_inv_layers _ _ _ _ _ Hm)
      as (k0 & k1 & k2 & k3 & rest' & E & M1 & M2 & M3 & M4).
    injection E as <- <- <- <- _.
    destruct (ResNet_make_layer_blocks _ _ _ _ _ _ _ _ M1)
      as (L1 & f1 & o1 & E1 & S1 & _ & _ & D1 & _ & O1).
    destruct (ResNet_make_layer_blocks _ _ _ _ _ _ _ _ M2)
      as (L2 & f2 & o2 & E2 & S2 & _ & _ & D2 & _ & O2).
    destruct (ResNet_make_layer_blocks _ _ _ _ _ _ _ _ M3)
      as (L3 & f3 & o3 & E3 & S3 & _ & _ & D3 & _ & O3).
    destruct (ResNet_make_layer_blocks _ _ _ _ _ _ _ _ M4)
      as (L4 & f4 & o4 & E4 & S4 & _ & _ & D4 & _ & O4).
    repeat (split; [assumption |]).
    assert (Hweak : forall p l,
              Forall (fun b => BasicBlock.downsample b = None
                               /\ Conv2d.stride (BasicBlock.conv1 b) = 1
                               /\ Conv2d.in_channels (BasicBlock.conv1 b) = p
                               /\ Conv2d.out_channels (BasicBlock.conv1 b) = p) l ->
              Forall (fun b => BasicBlock.downsample b = None
                               /\ Conv2d.stride (BasicBlock.conv1 b) = 1) l).
    { intros p l. apply Forall_impl. tauto. }
    split.
    + rewrite E1. constructor; [| eapply Hweak; exact O1].
      split; [apply D1; auto | exact S1].
    + repeat constructor.
      * exists f2, o2. split; [exact E2 |]. split; [rewrite D2; lia |].
        split; [exact S2 | eapply Hweak; exact O2].
      * exists f3, o3. split; [exact E3 |]. split; [rewrite D3; lia |].
        split; [exact S3 | eapply Hweak; exact O3].
      * exists f4, o4. split; [exact E4 |]. split; [rewrite D4; lia |].
        split; [exact S4 | eapply Hweak; exact O4].
Qed.

Lemma ResNet_init_stages_witness :
  ResNet.init (fun _ _ => 0%R) [3; 4; 6] 1 18 = Raise IndexError
  /\ exists m,
       ResNet.init (fun _ _ => 0%R) [3; 0; -2; 3] 1 18 = Ok m
       /\ Z.of_nat (List.length (ResNet.layer2 m)) = 1.
Proof.
  split.
  - refine (proj1 (ResNet_init_stages (fun _ _ => 0%R) [3; 4; 6] 1 18 _ _) _);
      cbn; lia.
  - destruct (proj2 (ResNet_init_stages (fun _ _ => 0%R) [3; 0; -2; 3] 1 18
                       ltac:(lia) ltac:(lia)) 3 0 (-2) 3 [] eq_refl)
      as (m & Hm & _ & L2 & _).
    exists m. split; [exact Hm | exact L2].
Defined.

(** * A stage of the backbone *)

Lemma BasicBlock_forward_nonneg (training : bool) (b : BasicBlock.t) (x y : tensor) :
  BasicBlock.forward training b x = Ok y -> forall i, (0 <= item y i)%R.
Proof.
  unfold BasicBlock.forward. intros H i. inv_res H. subst y.
  cbn [item tmap]. unfold ReLU. apply Rmax_l.
Qed.

Lemma blocks_forward_last {B : Type} (fwd : B -> tensor -> result tensor)
    (blocks : list B) (x y : tensor) :
  blocks <> [] ->
  blocks_forward fwd blocks x = Ok y ->
  exists b x', In b blocks /\ fwd b x' = Ok y.
Proof.
  revert x. induction blocks as [| b l IH]; intros x Hne H; [congruence |].
  cbn [blocks_forward] in H. apply bind_inv in H as (z & Hz & H).
  destruct l as [| b' l'].
  - cbn in H. apply Ok_inj in H. subst z. exists b, x. split; [left; reflexivity | exact Hz].
  - destruct (IH z ltac:(discriminate) H) as (b0 & x' & Hin & Hy).
    exists b0, x'. split; [right; exact Hin | exact Hy].
Qed.

(** X16.  A stage built by [ResNet._make_layer] with stride [s], for one
    input plane or more, maps (B, in_planes, H, W) to
    (B, planes, ceil(H / s), ceil(W / s)): the first block divides the
    side of the maps, the others keep it; and no entry of what a stage
    returns is negative. *)
Theorem ResNet_stage_divides_the_maps
    (initial : initializer) (name : string) (in_planes planes blocks s : Z)
    (layers : list BasicBlock.t) (in_planes' : Z)
    (training : bool) (x : tensor) (B H W : Z) :
  ResNet._make_layer initial name in_planes planes blocks s = Ok (layers, in_planes') ->
  size x = [B; in_planes; H; W] ->
  1 <= in_planes ->
  1 <= planes -> 1 <= s -> 1 <= B -> 1 <= H -> 1 <= W ->
  batch_ok training (B * (((H - 1) / s + 1) * ((W - 1) / s + 1))) ->
  exists y,
    blocks_forward (BasicBlock.forward training) layers x = Ok y
    /\ size y = [B; planes; (H - 1) / s + 1; (W - 1) / s + 1]
    /\ forall i, (0 <= item y i)%R.
Proof.
  intros Hl Hx Hin HP Hs HB HH HW Hok.
  destruct (ResNet_layer_forward_size _ _ _ _ _ _ _ _ training x B H W
              Hl Hx HP Hs HB HH HW Hok) as (y & Hy & Sy).
  exists y. split; [exact Hy |]. split; [exact Sy |].
  destruct (blocks_forward_last (BasicBlock.forward training) layers x y)
    as (b & x' & _ & Hb); [| exact Hy |].
  - apply ResNet_make_layer_inv in Hl as (? & ? & ? & -> & _). discriminate.
  - eapply BasicBlock_forward_nonneg. exact Hb.
Qed.

Lemma ResNet_stage_divides_the_maps_witness :
  exists layers y,
    ResNet._make_layer (fun _ _ => 0%R) "layer2" 64 128 4 2 = Ok (layers, 128)
    /\ blocks_forward (BasicBlock.forward true) layers
         (Tensor [2; 64; 8; 8] (fun _ => 0%R)) = Ok y
    /\ size y = [2; 128; 4; 4].
Proof.
  assert (Hl : exists layers,
             ResNet._make_layer (fun _ _ => 0%R) "layer2" 64 128 4 2
             = Ok (layers, 128)) by (eexists; reflexivity).
  destruct Hl as (layers & Hl). exists layers.
  destruct (ResNet_stage_divides_the_maps _ _ _ _ _ _ _ _ true
              (Tensor [2; 64; 8; 8] (fun _ => 0%R)) 2 8 8 Hl eq_refl
              ltac:(lia) ltac:(lia) ltac:(lia) ltac:(lia) ltac:(lia) ltac:(lia)
              ltac:(intros _; cbn; lia))
    as (y & Hy & Sy & _).
  exists y. split; [exact Hl |]. split; [exact Hy | exact Sy].
Defined.

(** * The representation and the backbone *)

(** X17.  The two modules do not compose as they are: the feature axis of the
    representation has length [30 * ceil(W / 96)], a multiple of 30, and
    the backbone takes a last axis of 200 only.  Whatever the window
    length, the signals and the two models, [ResNet.forward] applied to
    what [SignalSegmentRepresentation.forward] returns raises
    RuntimeError. *)
Theorem representation_is_no_backbone_input
    (initial initial' : initializer) (W : Z) (r : float) (segment_num : Z)
    (m : SignalSegmentRepresentation.t)
    (layers : list Z) (channels num_classes : Z) (net : ResNet.t)
    (training training' : bool) (x : tensor) (B L : Z) :
  SignalSegmentRepresentation.init initial W r segment_num = Ok m ->
  ResNet.init initial' layers channels num_classes = Ok net ->
  size x = [B; 1; 1; L] ->
  2 <= B -> 2 <= W <= L ->
  1 <= SignalSegmentRepresentation.overlapping m ->
  2 <= (L - W) / SignalSegmentRepresentation.overlapping m + 1 ->
  segment_num = (L - W) / SignalSegmentRepresentation.overlapping m + 1 ->
  exists y,
    SignalSegmentRepresentation.forward training m x = Ok y
    /\ size y = [B; 1; segment_num; 30 * ((W - 1) / 96 + 1)]
    /\ ResNet.forward training' net y = Raise RuntimeError.
Proof.
  intros Hm Hnet Hx HB HW Hs HK Hnum.
  destruct (SignalSegmentRepresentation_forward_size _ _ _ _ _ training x B L
              Hm Hx HB HW Hs HK Hnum) as (y & Hy & Sy).
  rewrite <- Hnum in Sy. rewrite encoded_length_closed in Sy by lia.
  exists y. split; [exact Hy |]. split; [exact Sy |].
  apply (ResNet_forward_wrong_length _ _ _ _ net training' y [B; 1; segment_num]
           (30 * ((W - 1) / 96 + 1)) Hnet Sy).
  lia.
Qed.

Lemma representation_is_no_backbone_input_witness :
  exists m net y,
    SignalSegmentRepresentation.init (fun _ _ => 0%R) 30 0.5%float 199 = Ok m
    /\ ResNet.init (fun _ _ => 0%R) [3; 4; 6; 3] 1 18 = Ok net
    /\ SignalSegmentRepresentation.forward false m (Tensor [4; 1; 1; 3000] (fun _ => 0%R))
       = Ok y
    /\ ResNet.forward false net y = Raise RuntimeError.
Proof.
  assert (Hinit : exists m,
             SignalSegmentRepresentation.init (fun _ _ => 0%R) 30 0.5%float 199 = Ok m
             /\ SignalSegmentRepresentation.overlapping m = 15).
  { eexists. split; reflexivity. }
  assert (Hnet : exists net, ResNet.init (fun _ _ => 0%R) [3; 4; 6; 3] 1 18 = Ok net).
  { eexists. reflexivity. }
  destruct Hinit as (m & Hm & Hs). destruct Hnet as (net & Hnet). exists m, net.
  destruct (representation_is_no_backbone_input _ _ _ _ _ _ _ _ _ net false false
              (Tensor [4; 1; 1; 3000] (fun _ => 0%R)) 4 3000 Hm Hnet eq_refl)
    as (y & Hy & _ & Hr);
    rewrite ?Hs; try (cbn; lia).
  exists y. auto.
Defined.
